(** * detect-secrets: the [SecretsCollection] of [core/secrets_collection.py]

    A shallow embedding of the collection of potential secrets and of its
    reconciliation operations ([merge], [trim]), its set algebra ([__eq__],
    [__sub__]), its iteration order and the error behaviour of [scan_diff].

    Python objects are references: a [PotentialSecret] lives in a store and
    the per-file sets of a collection hold locations of that store, so that
    the in-place updates of [merge], [trim] and [__eq__] are visible through
    every alias, as they are in the program. *)

From Stdlib Require Import ZArith Lia.
From Stdlib Require OrdersEx.
From stdpp Require Import base functions sorting strings gmap sets list.

Local Open Scope Z_scope.

(** ** Exceptions and results *)

Inductive exn :=
  | KeyError (key : string)
  | AttributeError (attr : string)
  | ImportError
  | NotImplementedError (msg : string)
  | UnidiffParseError (msg : string).

Inductive result (A : Type) :=
  | Ret (a : A)
  | Raise (e : exn).
Arguments Ret {A} a.
Arguments Raise {A} e.

#[global] Instance exn_eq_dec : EqDecision exn.
Proof. solve_decision. Defined.

#[global] Instance result_eq_dec {A} `{EqDecision A} : EqDecision (result A).
Proof. solve_decision. Defined.

(** ** Potential secrets *)

(** Modelled from the spec: the class [PotentialSecret] (module
    [potential_secret], imported at the top of the file) is not among the
    sources.  Its fields are those the collection reads and writes: the type
    tag, the file path, the fingerprint [secret_hash], the raw value, the
    line number (0 when not tracked), the tri-state [is_secret] and the
    boolean [is_verified].  The instance dictionary that [vars] returns is
    the record itself; the two attributes that [__eq__] removes from it,
    [secret_value] and [line_number], are optional fields, [None] standing
    for an attribute that is no longer there. *)
Record PotentialSecret := mkPotentialSecret {
  type : string;
  filename : string;
  secret_hash : string;
  secret_value : option string;
  line_number : option Z;
  is_secret : option bool;
  is_verified : bool;
}.

#[global] Instance PotentialSecret_eq_dec : EqDecision PotentialSecret.
Proof. solve_decision. Defined.

Definition with_is_secret (v : option bool) (s : PotentialSecret) :=
  mkPotentialSecret (type s) (filename s) (secret_hash s) (secret_value s)
    (line_number s) v (is_verified s).

Definition with_is_verified (v : bool) (s : PotentialSecret) :=
  mkPotentialSecret (type s) (filename s) (secret_hash s) (secret_value s)
    (line_number s) (is_secret s) v.

Definition with_line_number (v : option Z) (s : PotentialSecret) :=
  mkPotentialSecret (type s) (filename s) (secret_hash s) (secret_value s)
    v (is_secret s) (is_verified s).

Definition with_secret_value (v : option string) (s : PotentialSecret) :=
  mkPotentialSecret (type s) (filename s) (secret_hash s) v
    (line_number s) (is_secret s) (is_verified s).

(** Modelled from the spec: the equality and hash contract of a
    [PotentialSecret] (not among the sources).  Two potential secrets are the
    same occurrence iff file path, fingerprint and type tag agree, whatever
    their line numbers and audit fields. *)
Definition identity (s : PotentialSecret) : string * string * string :=
  (filename s, secret_hash s, type s).

(** The key [(secret.secret_hash, secret.type)] that [__eq__] builds. *)
Definition hash_type (s : PotentialSecret) : string * string :=
  (secret_hash s, type s).

(** The sort key of [__iter__]; [getattr(secret, 'line_number', 0)]. *)
Definition display_key (s : PotentialSecret) : Z * string * string :=
  (default 0 (line_number s), secret_hash s, type s).

(** ** The store of potential secrets *)

Definition loc := nat.
Abbreviation heap := (loc → PotentialSecret).

(** A Python [set] of potential secrets: the locations of its elements, in
    the order a loop over the set visits them.  Membership goes through the
    hash and equality of the elements, that is through [identity]. *)
Definition keys (h : heap) (s : list loc) : list (string * string * string) :=
  (λ l, identity (h l)) <$> s.

Definition set_add (h : heap) (x : loc) (s : list loc) : list loc :=
  if decide (identity (h x) ∈ keys h s) then s else s ++ [x].

Definition set_difference (h : heap) (s1 s2 : list loc) : list loc :=
  filter (λ l, identity (h l) ∉ keys h s2) s1.

(** ** Python dictionaries, in insertion order *)

Section pydict.
Context {K V : Type} `{EqDecision K}.

(** [d[k] = v]: an existing key keeps its place and takes the new value. *)
Fixpoint dict_set (k : K) (v : V) (d : list (K * V)) : list (K * V) :=
  match d with
  | [] => [(k, v)]
  | (k', v') :: d' =>
      if decide (k = k') then (k', v) :: d' else (k', v') :: dict_set k v d'
  end.

Fixpoint dict_get (k : K) (d : list (K * V)) : option V :=
  match d with
  | [] => None
  | (k', v') :: d' => if decide (k = k') then Some v' else dict_get k d'
  end.

Definition dict_values (d : list (K * V)) : list V := d.*2.

(** A dictionary comprehension [{k: v for ...}]. *)
Definition dict_of (kvs : list (K * V)) : list (K * V) :=
  foldl (λ d kv, dict_set kv.1 kv.2 d) [] kvs.
End pydict.

(** ** Collections *)

Record SecretsCollection := mkSecretsCollection {
  data : gmap string (list loc);
  root : string;
}.

#[global] Instance SecretsCollection_eq_dec : EqDecision SecretsCollection.
Proof. solve_decision. Defined.

Definition with_data (d : gmap string (list loc)) (c : SecretsCollection) :=
  mkSecretsCollection d (root c).

(** [SecretsCollection()] *)
Definition empty_collection : SecretsCollection := mkSecretsCollection ∅ "".

(** [data] is a [defaultdict(set)]: reading a missing key stores the empty
    set under it and returns it. *)
Definition defaultdict_get (d : gmap string (list loc)) (filename : string)
  : list loc * gmap string (list loc) :=
  match d !! filename with
  | Some s => (s, d)
  | None => ([], <[filename := []]> d)
  end.

Definition files (c : SecretsCollection) : gset string := dom (data c).

Definition __getitem__ (c : SecretsCollection) (filename : string)
  : list loc * SecretsCollection :=
  let '(s, d) := defaultdict_get (data c) filename in (s, with_data d c).

Definition __setitem__ (c : SecretsCollection) (filename : string)
    (value : list loc) : SecretsCollection :=
  with_data (<[filename := value]> (data c)) c.

(** ** merge *)

(** [{secret: secret for secret in ...}]: the keys are hashed and compared
    through [identity]. *)
Definition secret_map (h : heap) (secrets : list loc)
  : list (string * string * string * loc) :=
  dict_of ((λ l, (identity (h l), l)) <$> secrets).

(** The body of the inner loop of [merge], for one [old_secret]. *)
Definition merge_secret (mapping : list (string * string * string * loc))
    (h : heap) (old_secret : loc) : heap :=
  match dict_get (identity (h old_secret)) mapping with
  | None => h
  | Some cur =>
      let h1 :=
        match is_secret (h cur) with
        | None => <[cur := with_is_secret (is_secret (h old_secret)) (h cur)]> h
        | Some _ => h
        end in
      if is_verified (h1 cur) then h1
      else <[cur := with_is_verified (is_verified (h1 old_secret)) (h1 cur)]> h1
  end.

(** The body of the outer loop of [merge], for one [filename] of
    [old_results.files]; both collections are threaded because [data] is a
    [defaultdict]. *)
Definition merge_file
    (st : heap * SecretsCollection * SecretsCollection) (filename : string)
  : heap * SecretsCollection * SecretsCollection :=
  let '(h, self, old_results) := st in
  if decide (filename ∈ files self) then
    let '(secrets, d) := defaultdict_get (data self) filename in
    let self := with_data d self in
    let mapping := secret_map h secrets in
    let '(old_secrets, d) := defaultdict_get (data old_results) filename in
    let old_results := with_data d old_results in
    (foldl (merge_secret mapping) h old_secrets, self, old_results)
  else st.

Definition merge (h : heap) (self old_results : SecretsCollection)
  : heap * SecretsCollection * SecretsCollection :=
  foldl merge_file (h, self, old_results) (elements (files old_results)).

(** ** Computations that write the store and may raise *)

(** A method call runs from a store to a store and either returns a value or
    raises; what it wrote before raising stays written. *)
Definition M (A : Type) : Type := heap → heap * result A.

#[global] Instance M_ret : MRet M := λ A a h, (h, Ret a).

#[global] Instance M_bind : MBind M := λ A B k m h,
  match m h with
  | (h', Ret a) => k a h'
  | (h', Raise e) => (h', Raise e)
  end.

Definition raise {A} (e : exn) : M A := λ h, (h, Raise e).

Definition get_heap : M heap := λ h, (h, Ret h).

(** [for x in xs: s = body(s, x)] *)
Fixpoint for_each {A S} (xs : list A) (body : S → A → M S) (s : S) : M S :=
  match xs with
  | [] => mret s
  | x :: xs => s' ← body s x; for_each xs body s'
  end.

(** A loop whose body may [return]. *)
Inductive flow (S R : Type) :=
  | Next (s : S)
  | Return (r : R).
Arguments Next {S R} s.
Arguments Return {S R} r.

Fixpoint for_return {A S R} (xs : list A) (body : S → A → M (flow S R)) (s : S)
  : M (flow S R) :=
  match xs with
  | [] => mret (Next s)
  | x :: xs =>
      r ← body s x;
      match r with
      | Next s' => for_return xs body s'
      | Return v => mret (Return v)
      end
  end.

(** [secret.line_number]: an [AttributeError] once the attribute is gone. *)
Definition get_line_number (l : loc) : M Z := λ h,
  match line_number (h l) with
  | Some n => (h, Ret n)
  | None => (h, Raise (AttributeError "line_number"))
  end.

(** [secret.line_number = n] *)
Definition set_line_number (l : loc) (n : Z) : M unit := λ h,
  (<[l := with_line_number (Some n) (h l)]> h, Ret tt).

(** ** trim *)

(** The body of the inner loop of [trim], for one [secret] of the scanned
    results of [filename]. *)
Definition trim_secret (filename : string)
    (existing_secret_map : list (string * string * string * loc))
    (result : gmap string (list loc)) (secret : loc)
  : M (gmap string (list loc)) :=
  h ← get_heap;
  match dict_get (identity (h secret)) existing_secret_map with
  | None => mret result
  | Some existing_secret =>
      n ← get_line_number existing_secret;
      _ ← (if decide (n = 0) then mret tt
           else m ← get_line_number secret; set_line_number existing_secret m);
      h ← get_heap;
      let '(s, result) := defaultdict_get result filename in
      mret (<[filename := set_add h existing_secret s]> result)
  end.

(** The body of the first loop of [trim], for one [filename] of
    [scanned_results.files]. *)
Definition trim_scanned_file
    (st : SecretsCollection * SecretsCollection * gmap string (list loc))
    (filename : string)
  : M (SecretsCollection * SecretsCollection * gmap string (list loc)) :=
  let '(self, scanned_results, result) := st in
  if decide (filename ∈ files self) then
    let '(secrets, self) := __getitem__ self filename in
    h ← get_heap;
    let existing_secret_map := secret_map h secrets in
    let '(scanned, scanned_results) := __getitem__ scanned_results filename in
    result ← for_each scanned (trim_secret filename existing_secret_map) result;
    mret (self, scanned_results, result)
  else mret st.

(** The body of the second loop of [trim], for one [filename] of
    [self.files]. *)
Definition trim_own_file (fileset : gset string)
    (st : SecretsCollection * gmap string (list loc)) (filename : string)
  : SecretsCollection * gmap string (list loc) :=
  let '(self, result) := st in
  if decide (filename ∈ dom result) then st
  else if decide (filename ∈ fileset) then st
  else
    let '(secrets, self) := __getitem__ self filename in
    (self, <[filename := secrets]> result).

(** [trim]; [path_exists] is [os.path.exists].  It returns [self] with its
    new [data], and [scanned_results] as the loops leave it. *)
Definition trim (path_exists : string → bool) (self : SecretsCollection)
    (scanned_results : option SecretsCollection) (filelist : option (list string))
  : M (SecretsCollection * SecretsCollection) :=
  let '(scanned_results, filelist) :=
    match scanned_results with
    | None =>
        (empty_collection,
         Some (filter (λ filename, path_exists filename = false)
                 (elements (files self))))
    | Some scanned_results => (scanned_results, filelist)
    end in
  let fileset : gset string :=
    match filelist with
    | None | Some [] => ∅
    | Some filelist => list_to_set filelist
    end in
  '(self, scanned_results, result) ←
    for_each (elements (files scanned_results)) trim_scanned_file
      (self, scanned_results, ∅);
  let '(self, result) :=
    foldl (trim_own_file fileset) (self, result) (elements (files self)) in
  mret (with_data result self, scanned_results).

(** ** __eq__ and exactly_equals *)

(** [vars(secret).pop('secret_value')]: [vars] hands out the instance
    dictionary itself, so the attribute leaves the object; a [KeyError] when
    it is not there. *)
Definition pop_secret_value (l : loc) : M unit := λ h,
  match secret_value (h l) with
  | Some _ => (<[l := with_secret_value None (h l)]> h, Ret tt)
  | None => (h, Raise (KeyError "secret_value"))
  end.

(** [vars(secret).pop('line_number')] *)
Definition pop_line_number (l : loc) : M unit := λ h,
  match line_number (h l) with
  | Some _ => (<[l := with_line_number None (h l)]> h, Ret tt)
  | None => (h, Raise (KeyError "line_number"))
  end.

(** [vars(secret)['line_number']] *)
Definition item_line_number (l : loc) : M Z := λ h,
  match line_number (h l) with
  | Some n => (h, Ret n)
  | None => (h, Raise (KeyError "line_number"))
  end.

(** [{(secret.secret_hash, secret.type): secret for secret in ...}] *)
Definition hash_type_map (h : heap) (secrets : list loc)
  : list (string * string * loc) :=
  dict_of ((λ l, (hash_type (h l), l)) <$> secrets).

(** [set(mapping.values())], a set of potential secrets, as the set of their
    identities; two such sets are equal iff these are. *)
Definition identity_set (h : heap) (secrets : list loc)
  : gset (string * string * string) :=
  list_to_set (keys h secrets).

(** The body of the strict loop of [__eq__], for one [secretA]. *)
Definition eq_secret (other_mapping : list (string * string * loc))
    (_ : unit) (secretA : loc) : M (flow unit bool) :=
  h ← get_heap;
  match dict_get (hash_type (h secretA)) other_mapping with
  | None => raise (KeyError "(secret_hash, type)")
  | Some secretB =>
      _ ← pop_secret_value secretA;
      _ ← pop_secret_value secretB;
      a ← item_line_number secretA;
      untracked ← (if decide (a = 0) then mret true
                   else b ← item_line_number secretB; mret (bool_decide (b = 0)));
      _ ← (if untracked : bool
           then _ ← pop_line_number secretA; pop_line_number secretB
           else mret tt);
      h ← get_heap;
      if decide (h secretA ≠ h secretB) then mret (Return false)
      else mret (Next tt)
  end.

(** The body of the loop of [__eq__] over [self.files]. *)
Definition eq_file (strict : bool)
    (st : SecretsCollection * SecretsCollection) (filename : string)
  : M (flow (SecretsCollection * SecretsCollection) bool) :=
  let '(self, other) := st in
  let '(secretsA, self) := __getitem__ self filename in
  h ← get_heap;
  let self_mapping := hash_type_map h secretsA in
  let '(secretsB, other) := __getitem__ other filename in
  let other_mapping := hash_type_map h secretsB in
  if decide (identity_set h (dict_values self_mapping) ≠
             identity_set h (dict_values other_mapping))
  then mret (Return false)
  else if negb strict then mret (Next (self, other))
  else
    r ← for_return (dict_values self_mapping) (eq_secret other_mapping) tt;
    match r with
    | Next _ => mret (Next (self, other))
    | Return b => mret (Return b)
    end.

Definition __eq__ (self other : SecretsCollection) (strict : bool) : M bool :=
  if decide (files self ≠ files other) then mret false
  else
    r ← for_return (elements (files self)) (eq_file strict) (self, other);
    match r with
    | Next _ => mret true
    | Return b => mret b
    end.

Definition exactly_equals (self other : SecretsCollection) : M bool :=
  __eq__ self other true.

Definition __ne__ (self other : SecretsCollection) : M bool :=
  b ← __eq__ self other false; mret (negb b).

(** ** __sub__ *)

(** The body of the first loop of [__sub__], over [other.files]. *)
Definition sub_other_file (h : heap)
    (st : SecretsCollection * SecretsCollection * SecretsCollection)
    (filename : string)
  : SecretsCollection * SecretsCollection * SecretsCollection :=
  let '(self, other, output) := st in
  if decide (filename ∈ files self) then
    let '(a, self) := __getitem__ self filename in
    let '(b, other) := __getitem__ other filename in
    (self, other, __setitem__ output filename (set_difference h a b))
  else st.

(** The body of the second loop of [__sub__], over [self.files]. *)
Definition sub_self_file
    (st : SecretsCollection * SecretsCollection * SecretsCollection)
    (filename : string)
  : SecretsCollection * SecretsCollection * SecretsCollection :=
  let '(self, other, output) := st in
  if decide (filename ∈ files other) then st
  else
    let '(a, self) := __getitem__ self filename in
    (self, other, __setitem__ output filename a).

(** [self - other]; the two operands are handed back as the loops leave
    them, next to the new collection. *)
Definition __sub__ (h : heap) (self other : SecretsCollection)
  : SecretsCollection * SecretsCollection * SecretsCollection :=
  let output := empty_collection in
  let '(self, other, output) :=
    foldl (sub_other_file h) (self, other, output) (elements (files other)) in
  foldl sub_self_file (self, other, output) (elements (files self)).

(** ** __iter__ *)

(** Python compares tuples and strings lexicographically, strings by code
    point. *)
Definition str_compare : string → string → comparison :=
  OrdersEx.String_as_OT.compare.

(** [a < b], from a three-way comparison. *)
Definition ltb_of {K : Type} (cmp : K → K → comparison) (a b : K) : bool :=
  match cmp a b with Lt => true | _ => false end.

Definition str_ltb : string → string → bool := ltb_of str_compare.

Definition key_compare (a b : Z * string * string) : comparison :=
  match Z.compare a.1.1 b.1.1 with
  | Eq =>
      match str_compare a.1.2 b.1.2 with
      | Eq => str_compare a.2 b.2
      | c => c
      end
  | c => c
  end.

Definition key_ltb : Z * string * string → Z * string * string → bool :=
  ltb_of key_compare.

(** [sorted(xs, key=key)]: a stable sort, by insertion from the right. *)
Section sorted.
Context {A K : Type} (ltb : K → K → bool) (key : A → K).

Fixpoint insert_by (x : A) (l : list A) : list A :=
  match l with
  | [] => [x]
  | y :: l' => if ltb (key y) (key x) then y :: insert_by x l' else x :: l
  end.

Definition sorted_by (l : list A) : list A := foldr insert_by [] l.
End sorted.

(** [x] may come before [y] in a list sorted by [key]. *)
Definition key_le {A K : Type} (ltb : K → K → bool) (key : A → K) (x y : A) : Prop :=
  ltb (key y) (key x) = false.

(** The body of the loop of [__iter__]: what one file yields. *)
Definition iter_file (h : heap)
    (st : list (string * loc) * SecretsCollection) (filename : string)
  : list (string * loc) * SecretsCollection :=
  let '(yielded, self) := st in
  let '(secrets, self) := __getitem__ self filename in
  (yielded ++
     ((λ secret, (filename, secret)) <$>
        sorted_by key_ltb (λ secret, display_key (h secret)) secrets),
   self).

(** A full iteration: the pairs yielded, in order, and the collection as
    the reads leave it. *)
Definition __iter__ (h : heap) (self : SecretsCollection)
  : list (string * loc) * SecretsCollection :=
  foldl (iter_file h) ([], self) (sorted_by str_ltb id (elements (files self))).

(** ** scan_diff *)

(** Modelled from the spec: the collaborator [scan.scan_diff] (module [scan]
    is not among the sources) is a generator; a run of it is the potential
    secrets it yields, already in the store, and the exception it ends with,
    if any: a diff-parse failure on a malformed diff, an [ImportError] when
    the diff parser is not installed. *)
Definition diff_scanner : Type := string → list loc * option exn.

Definition unidiff_required : string :=
  "SecretsCollection.scan_diff requires `unidiff` to work. Try pip installing that package, and try again.".

(** [self[secret.filename].add(secret)] *)
Definition absorb (h : heap) (self : SecretsCollection) (secret : loc)
  : SecretsCollection :=
  let '(s, self) := __getitem__ self (filename (h secret)) in
  __setitem__ self (filename (h secret)) (set_add h secret s).

(** [scan_diff]: the collection after the call, and how the call ends. *)
Definition scan_diff (scan_scan_diff : diff_scanner) (h : heap)
    (self : SecretsCollection) (diff : string)
  : SecretsCollection * result unit :=
  let '(secrets, ending) := scan_scan_diff diff in
  let self := foldl (absorb h) self secrets in
  match ending with
  | None => (self, Ret tt)
  | Some ImportError => (self, Raise (NotImplementedError unidiff_required))
  | Some e => (self, Raise e)
  end.

(** ** __len__, __bool__ and json *)

(** [sum(len(secrets) for secrets in self.data.values())] *)
Definition __len__ (self : SecretsCollection) : nat :=
  sum_list (length <$> (map_to_list (data self)).*2).

(** [bool(list(self))]: a full iteration, then the truth of the list. *)
Definition __bool__ (h : heap) (self : SecretsCollection)
  : bool * SecretsCollection :=
  let '(yielded, self) := __iter__ h self in
  (match yielded with [] => false | _ :: _ => true end, self).

(** [output[filename].append(item)] on a [defaultdict(list)]. *)
Definition dict_append {J : Type} (filename : string) (item : J)
    (output : list (string * list J)) : list (string * list J) :=
  dict_set filename (default [] (dict_get filename output) ++ [item]) output.

(** [json]: [secret_json] stands for [secret.json()], a method of
    [PotentialSecret], which is not among the sources.  The result is the
    dictionary [dict(output)], in insertion order. *)
Definition json {J : Type} (secret_json : PotentialSecret → J) (h : heap)
    (self : SecretsCollection) : list (string * list J) * SecretsCollection :=
  let '(yielded, self) := __iter__ h self in
  (foldl (λ output '(filename, secret),
            dict_append filename (secret_json (h secret)) output) [] yielded,
   self).

(** ** scan_file *)

(** The body of the loop of [scan_file]: [self[key].add(secret)]. *)
Definition absorb_under (h : heap) (key : string) (self : SecretsCollection)
    (secret : loc) : SecretsCollection :=
  let '(s, self) := __getitem__ self key in
  __setitem__ self key (set_add h secret s).

(** [scan_file]: [os_path_join] is [os.path.join],
    [convert_local_os_path] the path normalisation of [util.path] and
    [scan_scan_file] the generator [scan.scan_file], none of them among the
    sources; a run of the generator is the secrets it yields, already in the
    store, and the exception it ends with, if any. *)
Definition scan_file (os_path_join : string → string → string)
    (convert_local_os_path : string → string)
    (scan_scan_file : string → list loc * option exn)
    (h : heap) (self : SecretsCollection) (filename : string)
  : SecretsCollection * result unit :=
  let '(secrets, ending) :=
    scan_scan_file (os_path_join (root self) (convert_local_os_path filename)) in
  let self := foldl (absorb_under h (convert_local_os_path filename)) self secrets in
  match ending with
  | None => (self, Ret tt)
  | Some e => (self, Raise e)
  end.

(** ** Specification vocabulary *)

(** Two states of one object that differ at most in the audit fields. *)
Definition same_but_audit (s s' : PotentialSecret) : Prop :=
  type s' = type s ∧ filename s' = filename s ∧ secret_hash s' = secret_hash s ∧
  secret_value s' = secret_value s ∧ line_number s' = line_number s.

(** Two states of one object that differ at most in the line number. *)
Definition same_but_line (s s' : PotentialSecret) : Prop :=
  type s' = type s ∧ filename s' = filename s ∧ secret_hash s' = secret_hash s ∧
  secret_value s' = secret_value s ∧ is_secret s' = is_secret s ∧
  is_verified s' = is_verified s.

(** The collection keeps the object at [l] in one of its sets. *)
Definition holds (c : SecretsCollection) (l : loc) : Prop :=
  ∃ f s, data c !! f = Some s ∧ l ∈ s.

(** What [merge] leaves in the current object [cur] once it has met its
    match [prev] of the previous results. *)
Definition merged (cur prev : PotentialSecret) : PotentialSecret :=
  let c1 :=
    match is_secret cur with
    | None => with_is_secret (is_secret prev) cur
    | Some _ => cur
    end in
  if is_verified c1 then c1 else with_is_verified (is_verified prev) c1.

(** The pairs one file yields, and the order the pairs come in: by file,
    and within a file by display key. *)
Definition yield_file (h : heap) (self : SecretsCollection) (filename : string)
  : list (string * loc) :=
  (λ secret, (filename, secret)) <$>
    sorted_by key_ltb (λ secret, display_key (h secret)) (data self !!! filename).


(** Vocabulary for [__eq__]: the (fingerprint, type) keys of a set; a
    collection whose sets hold one object per (fingerprint, type), as they
    do when every object of a set is a different potential secret of the
    same path; a collection whose objects have all their attributes still
    there; two collections in which no object sits twice; what the
    specification calls loosely equal and identity-matched; and what the
    strict comparison asks of two objects. *)
Definition hash_types (h : heap) (s : list loc) : list (string * string) :=
  (λ l, hash_type (h l)) <$> s.

Definition one_per_hash_type (h : heap) (c : SecretsCollection) : Prop :=
  ∀ f s, data c !! f = Some s → NoDup (hash_types h s).

Definition stored_under_path (h : heap) (c : SecretsCollection) : Prop :=
  ∀ f s l, data c !! f = Some s → l ∈ s → filename (h l) = f.

Definition proper_sets (h : heap) (c : SecretsCollection) : Prop :=
  ∀ f s, data c !! f = Some s → NoDup (keys h s).

Definition intact (h : heap) (c : SecretsCollection) : Prop :=
  ∀ l, holds c l → is_Some (secret_value (h l)) ∧ is_Some (line_number (h l)).

Definition unshared (a b : SecretsCollection) : Prop :=
  (∀ f1 f2 l, l ∈ data a !!! f1 ∨ l ∈ data b !!! f1 →
              l ∈ data a !!! f2 ∨ l ∈ data b !!! f2 → f1 = f2) ∧
  (∀ f l, l ∈ data a !!! f → l ∉ data b !!! f).

(** The same files and, per file, the same identities. *)
Definition loosely_equal (h : heap) (a b : SecretsCollection) : Prop :=
  files a = files b ∧
  ∀ f k, (∃ l, l ∈ data a !!! f ∧ identity (h l) = k) ↔
         (∃ l, l ∈ data b !!! f ∧ identity (h l) = k).

(** Two objects of the same file, one of each collection, with the same
    identity. *)
Definition matched (h : heap) (a b : SecretsCollection) (la lb : loc) : Prop :=
  ∃ f, la ∈ data a !!! f ∧ lb ∈ data b !!! f ∧ identity (h la) = identity (h lb).

Definition strictly_same (sa sb : PotentialSecret) : Prop :=
  type sa = type sb ∧ filename sa = filename sb ∧ secret_hash sa = secret_hash sb ∧
  is_secret sa = is_secret sb ∧ is_verified sa = is_verified sb ∧
  (line_number sa = Some 0 ∨ line_number sb = Some 0 ∨ line_number sa = line_number sb).

#[global] Instance strictly_same_dec sa sb : Decision (strictly_same sa sb).
Proof. unfold strictly_same. apply _. Defined.

(** [filename] is in the file list given to [trim]. *)
Definition in_filelist (filelist : option (list string)) (filename : string) : Prop :=
  ∃ fl, filelist = Some fl ∧ filename ∈ fl.

(** An object whose audit fields only gained: verified stays verified, a
    known [is_secret] stays as it is. *)
Definition audit_grows (s s' : PotentialSecret) : Prop :=
  (is_verified s = true → is_verified s' = true) ∧
  (∀ b, is_secret s = Some b → is_secret s' = Some b).

(** The set [fileset] that [trim] makes of its file list. *)
Definition fileset_of (filelist : option (list string)) : gset string :=
  match filelist with
  | None | Some [] => ∅
  | Some filelist => list_to_set filelist
  end.

(** What one file adds to the output of [json]: nothing when it yields
    nothing, else one entry. *)
Definition json_entry {J : Type} (secret_json : PotentialSecret → J) (h : heap)
    (self : SecretsCollection) (f : string) : list (string * list J) :=
  match sorted_by key_ltb (λ secret, display_key (h secret)) (data self !!! f) with
  | [] => []
  | secrets => [(f, (λ secret, secret_json (h secret)) <$> secrets)]
  end.

(** What the pops of a strict comparison may have done to the store
    between [h] and [h']: identities are as they were and a raw value that
    was gone is still gone. *)
Definition stripped_since (h h' : heap) : Prop :=
  (∀ l, identity (h' l) = identity (h l)) ∧
  (∀ l, secret_value (h l) = None → secret_value (h' l) = None).

(** The object [cur] has nothing more to take from [prev]: what [merge]
    would copy is already there. *)
Definition absorbed (cur prev : PotentialSecret) : Prop :=
  (is_secret cur = None → is_secret prev = None) ∧
  (is_verified cur = false → is_verified prev = false).

(** The order of iteration as the specification words it, on the fields
    themselves: strings ascend by code point (the order of
    [OrdersEx.String_as_OT]); within a file a potential secret comes no later
    than another when its line number (zero when the attribute is gone) is
    smaller, or the line numbers are equal and its fingerprint is smaller,
    or these are equal too and its type is smaller or the same; across
    files the path decides. *)
Definition str_lt (a b : string) : Prop := OrdersEx.String_as_OT.lt a b.

Definition display_le (s t : PotentialSecret) : Prop :=
  (default 0 (line_number s) < default 0 (line_number t))%Z ∨
  (default 0 (line_number s) = default 0 (line_number t) ∧
   (str_lt (secret_hash s) (secret_hash t) ∨
    (secret_hash s = secret_hash t ∧
     (str_lt (type s) (type t) ∨ type s = type t)))).


(** ** Example stores and collections *)

(** One secret of [a.py]: as the current scan has it (location 1: line 5,
    not audited) and as the old baseline has it (the other locations:
    line 3, a verified true secret). *)
Definition merge_ex_heap : heap := λ l,
  match l with
  | 1%nat => mkPotentialSecret "AWSKeyDetector" "a.py" "H1" (Some "k") (Some 5) None false
  | _ => mkPotentialSecret "AWSKeyDetector" "a.py" "H1" (Some "k") (Some 3) (Some true) true
  end.

(** Two different secrets of [a.py], at locations 1 and 2. *)
Definition trim_ex_heap : heap := λ l,
  match l with
  | 1%nat => mkPotentialSecret "AWSKeyDetector" "a.py" "H1" (Some "k1") (Some 3) None false
  | _ => mkPotentialSecret "AWSKeyDetector" "a.py" "H2" (Some "k2") (Some 7) None false
  end.

Definition trim_ex_self : SecretsCollection :=
  mkSecretsCollection {[ "a.py" := [1%nat] ]} "".

Definition trim_ex_scanned : SecretsCollection :=
  mkSecretsCollection {[ "a.py" := [2%nat] ]} "".

(** One secret of [a.py] seen twice: at line 3 (location 1) and with no line
    number tracked (location 2); location 3 is as 2 but verified. *)
Definition eq_ex_heap : heap := λ l,
  match l with
  | 1%nat => mkPotentialSecret "AWSKeyDetector" "a.py" "H1" (Some "k") (Some 3) None false
  | 2%nat => mkPotentialSecret "AWSKeyDetector" "a.py" "H1" (Some "k") (Some 0) None false
  | _ => mkPotentialSecret "AWSKeyDetector" "a.py" "H1" (Some "k") (Some 0) None true
  end.

Definition eq_ex_a : SecretsCollection :=
  mkSecretsCollection {[ "a.py" := [1%nat] ]} "".

Definition eq_ex_b : SecretsCollection :=
  mkSecretsCollection {[ "a.py" := [2%nat] ]} "".

Definition eq_ex_c : SecretsCollection :=
  mkSecretsCollection {[ "a.py" := [3%nat] ]} "".

(** * Properties *)

(** ** Dictionaries *)

Section pydict_facts.
Context {K V : Type} `{EqDecision K}.
Implicit Types (k : K) (v : V) (d kvs : list (K * V)).

Lemma dict_get_set k k' v d :
  dict_get k' (dict_set k v d) = if decide (k' = k) then Some v else dict_get k' d.
Proof.
  induction d as [|[k0 v0] d IH]; simpl.
  - repeat case_decide; congruence.
  - destruct (decide (k = k0)) as [->|Hne]; simpl.
    + repeat case_decide; congruence.
    + rewrite IH. repeat case_decide; congruence.
Qed.

Lemma dict_set_fresh k v d : k ∉ d.*1 → dict_set k v d = d ++ [(k, v)].
Proof.
  induction d as [|[k0 v0] d IH]; simpl; [done|].
  rewrite not_elem_of_cons. intros [Hne Hnin].
  case_decide; [done|]. by rewrite IH.
Qed.

Lemma dict_of_get_elem k v kvs : dict_get k (dict_of kvs) = Some v → (k, v) ∈ kvs.
Proof.
  induction kvs as [|kv kvs IH] using rev_ind; [done|]. destruct kv as [k0 v0].
  unfold dict_of. rewrite foldl_app. simpl. rewrite dict_get_set.
  case_decide; intros Hg; simplify_eq.
  - apply elem_of_app. right. left.
  - apply elem_of_app. left. by apply IH.
Qed.

Lemma dict_of_get_is_Some k kvs : is_Some (dict_get k (dict_of kvs)) ↔ k ∈ kvs.*1.
Proof.
  induction kvs as [|kv kvs IH] using rev_ind.
  - split; [intros [? ?]; done | intros Hin; inversion Hin].
  - destruct kv as [k0 v0]. unfold dict_of. rewrite foldl_app, fmap_app, elem_of_app. simpl.
    rewrite dict_get_set. case_decide; subst.
    + split; [intros _; right; left | by eauto].
    + fold (dict_of kvs). split.
      * intros Hs. left. by apply IH.
      * intros [Hin|Hin]; [by apply IH|].
        apply list_elem_of_singleton in Hin. done.
Qed.

Lemma dict_of_NoDup kvs : NoDup kvs.*1 → dict_of kvs = kvs.
Proof.
  induction kvs as [|kv kvs IH] using rev_ind; [done|]. destruct kv as [k0 v0].
  rewrite fmap_app. intros (Hnd & Hdisj & _)%NoDup_app. simpl in *.
  unfold dict_of. rewrite foldl_app. simpl. fold (dict_of kvs).
  rewrite IH by done. apply dict_set_fresh.
  intros Hin. apply (Hdisj _ Hin). left.
Qed.

Lemma dict_of_get_unique k v kvs :
  NoDup kvs.*1 → (k, v) ∈ kvs → dict_get k (dict_of kvs) = Some v.
Proof.
  intros Hnd Hin.
  assert (is_Some (dict_get k (dict_of kvs))) as [v' Hv'].
  { apply dict_of_get_is_Some. apply list_elem_of_fmap. by exists (k, v). }
  rewrite Hv'. f_equal.
  apply dict_of_get_elem in Hv'.
  apply list_elem_of_lookup in Hin as [i Hi], Hv' as [j Hj].
  assert (i = j) as ->.
  { eapply NoDup_lookup; [exact Hnd| |];
      rewrite list_lookup_fmap; [rewrite Hi|rewrite Hj]; done. }
  congruence.
Qed.
End pydict_facts.

(** ** The store and the collections *)

Lemma same_but_audit_refl s : same_but_audit s s.
Proof. by repeat split. Qed.

Lemma same_but_audit_trans s1 s2 s3 :
  same_but_audit s1 s2 → same_but_audit s2 s3 → same_but_audit s1 s3.
Proof. unfold same_but_audit. intuition congruence. Qed.

Lemma same_but_audit_identity s s' : same_but_audit s s' → identity s' = identity s.
Proof. unfold same_but_audit, identity. intuition congruence. Qed.

Lemma with_data_id c : with_data (data c) c = c.
Proof. by destruct c. Qed.

Lemma defaultdict_get_Some d f s : d !! f = Some s → defaultdict_get d f = (s, d).
Proof. unfold defaultdict_get. by intros ->. Qed.

Lemma defaultdict_get_dom d f :
  f ∈ dom d → defaultdict_get d f = (d !!! f, d).
Proof.
  intros [s Hs]%elem_of_dom. rewrite (defaultdict_get_Some _ _ _ Hs).
  by rewrite (lookup_total_correct _ _ _ Hs).
Qed.

Lemma getitem_files c f : f ∈ files c → __getitem__ c f = (data c !!! f, c).
Proof.
  intros Hf. unfold __getitem__. rewrite defaultdict_get_dom by done.
  by rewrite with_data_id.
Qed.

Lemma keys_elem h l s : l ∈ s → identity (h l) ∈ keys h s.
Proof. intros Hl. apply list_elem_of_fmap. eauto. Qed.

Lemma keys_ext h h' s :
  (∀ l, identity (h' l) = identity (h l)) → keys h' s = keys h s.
Proof. intros He. unfold keys. apply list_fmap_ext. intros _ l _. apply He. Qed.

Lemma keys_NoDup_inj h s l1 l2 :
  NoDup (keys h s) → l1 ∈ s → l2 ∈ s → identity (h l1) = identity (h l2) → l1 = l2.
Proof.
  intros Hnd [i Hi]%list_elem_of_lookup [j Hj]%list_elem_of_lookup Hid.
  assert (i = j) as ->; [|congruence].
  eapply NoDup_lookup; [exact Hnd| |]; unfold keys; rewrite list_lookup_fmap.
  - by rewrite Hi.
  - rewrite Hj. simpl. by rewrite Hid.
Qed.

Lemma secret_map_get h s k l :
  dict_get k (secret_map h s) = Some l → l ∈ s ∧ identity (h l) = k.
Proof.
  intros Hg%dict_of_get_elem. apply list_elem_of_fmap in Hg as (l' & Heq & Hl').
  by simplify_eq.
Qed.

Lemma secret_map_get_unique h s l :
  NoDup (keys h s) → l ∈ s → dict_get (identity (h l)) (secret_map h s) = Some l.
Proof.
  intros Hnd Hl. apply dict_of_get_unique.
  - by rewrite <- list_fmap_compose.
  - apply list_elem_of_fmap. eauto.
Qed.

Lemma secret_map_ext h h' s :
  (∀ l, identity (h' l) = identity (h l)) → secret_map h' s = secret_map h s.
Proof.
  intros He. unfold secret_map. f_equal. apply list_fmap_ext.
  intros _ l _. by rewrite He.
Qed.

(** ** merge *)

Section merge_facts.
Implicit Types (h : heap) (l cur prev : loc).

Lemma merge_secret_other mapping h o l :
  dict_get (identity (h o)) mapping ≠ Some l → merge_secret mapping h o l = h l.
Proof.
  unfold merge_secret. destruct (dict_get _ mapping) as [cur|]; [|done].
  intros Hne. assert (cur ≠ l) by congruence.
  destruct (is_secret (h cur)); simpl;
    repeat (case_match; simpl); rewrite ?fn_lookup_insert_ne by done; done.
Qed.

Lemma merge_secret_audit mapping h o l :
  same_but_audit (h l) (merge_secret mapping h o l).
Proof.
  destruct (decide (dict_get (identity (h o)) mapping = Some l)) as [Hg|Hg].
  - unfold merge_secret. rewrite Hg.
    destruct (is_secret (h l)); simpl;
      repeat (case_match; simpl); rewrite ?fn_lookup_insert;
      by repeat split.
  - rewrite merge_secret_other by done. apply same_but_audit_refl.
Qed.

Lemma merge_secret_hit mapping h o cur :
  dict_get (identity (h o)) mapping = Some cur →
  merge_secret mapping h o cur = merged (h cur) (h o).
Proof.
  intros Hg. unfold merge_secret, merged. rewrite Hg.
  destruct (decide (cur = o)) as [->|Hne].
  - destruct (h o) as [t fn sh sv ln [b|] [|]] eqn:Ho; simpl;
      rewrite ?fn_lookup_insert, ?Ho; simpl; rewrite ?fn_lookup_insert; done.
  - destruct (is_secret (h cur)) eqn:Hs; simpl.
    + destruct (is_verified (h cur)) eqn:Hv; simpl; [done|].
      by rewrite fn_lookup_insert.
    + rewrite !fn_lookup_insert. simpl.
      destruct (is_verified (h cur)) eqn:Hv; simpl.
      * by rewrite fn_lookup_insert.
      * rewrite fn_lookup_insert, fn_lookup_insert_ne by done. done.
Qed.

Lemma foldl_merge_secret_audit mapping olds h l :
  same_but_audit (h l) (foldl (merge_secret mapping) h olds l).
Proof.
  revert h. induction olds as [|o olds IH]; intros h; simpl.
  - apply same_but_audit_refl.
  - eapply same_but_audit_trans; [apply (merge_secret_audit mapping h o)|apply IH].
Qed.

Lemma foldl_merge_secret_other mapping olds h l :
  (∀ k, dict_get k mapping ≠ Some l) →
  foldl (merge_secret mapping) h olds l = h l.
Proof.
  intros Hm. revert h. induction olds as [|o olds IH]; intros h; simpl; [done|].
  rewrite IH. by apply merge_secret_other.
Qed.

(** Within one file: an object of the current set whose identity no
    remaining old secret has is left alone. *)
Lemma foldl_merge_secret_unmatched h0 s olds h l :
  (∀ l, identity (h l) = identity (h0 l)) →
  identity (h0 l) ∉ keys h0 olds →
  foldl (merge_secret (secret_map h0 s)) h olds l = h l.
Proof.
  revert h. induction olds as [|o olds IH]; intros h Hid Hnin; simpl; [done|].
  unfold keys in Hnin. rewrite fmap_cons in Hnin.
  apply not_elem_of_cons in Hnin as [Hne Hnin].
  rewrite IH.
  - apply merge_secret_other. intros [_ Hk]%secret_map_get.
    rewrite Hid in Hk. congruence.
  - intros l'. rewrite (same_but_audit_identity _ _ (merge_secret_audit _ h o l')).
    apply Hid.
  - done.
Qed.

Lemma foldl_merge_secret_hit h0 s olds h cur prev :
  NoDup (keys h0 s) → NoDup (keys h0 olds) →
  (∀ l, identity (h l) = identity (h0 l)) →
  cur ∈ s → prev ∈ olds → identity (h0 cur) = identity (h0 prev) →
  foldl (merge_secret (secret_map h0 s)) h olds cur = merged (h cur) (h prev).
Proof.
  intros Hs. revert h.
  induction olds as [|o olds IH]; intros h Hnd Hid Hcur Hprev Heq.
  { inversion Hprev. }
  unfold keys in Hnd. rewrite fmap_cons in Hnd.
  apply NoDup_cons in Hnd as [Hfresh Hnd]. fold (keys h0 olds) in Hfresh, Hnd.
  assert (∀ l, identity (merge_secret (secret_map h0 s) h o l) = identity (h0 l))
    as Hid'.
  { intros l. rewrite (same_but_audit_identity _ _ (merge_secret_audit _ h o l)).
    apply Hid. }
  simpl. apply elem_of_cons in Hprev as [->|Hprev].
  - rewrite foldl_merge_secret_unmatched by (done || congruence).
    apply merge_secret_hit. rewrite Hid, <- Heq.
    by apply secret_map_get_unique.
  - rewrite IH by done.
    assert (identity (h0 o) ≠ identity (h0 prev)) as Hne.
    { intros He. apply Hfresh. rewrite He. by apply keys_elem. }
    rewrite !merge_secret_other; [done| |].
    + intros [_ Hk]%secret_map_get. rewrite Hid in Hk. congruence.
    + intros [_ Hk]%secret_map_get. rewrite Hid in Hk. congruence.
Qed.

Lemma merge_file_spec h self old f :
  f ∈ files old →
  merge_file (h, self, old) f =
    (if decide (f ∈ files self)
     then foldl (merge_secret (secret_map h (data self !!! f))) h (data old !!! f)
     else h, self, old).
Proof.
  intros Hf. unfold merge_file. case_decide as Hs; [|done].
  unfold files in *. rewrite !defaultdict_get_dom by done.
  by rewrite !with_data_id.
Qed.

(** The loop over the files keeps both collections as they are, changes
    audit fields only, and only in objects of the sets it visits. *)
Lemma foldl_merge_file fs h self old :
  Forall (λ f, f ∈ files old) fs →
  ∃ h', foldl merge_file (h, self, old) fs = (h', self, old) ∧
    (∀ l, same_but_audit (h l) (h' l)) ∧
    (∀ l, (∀ f s, f ∈ fs → data self !! f = Some s → l ∉ s) → h' l = h l).
Proof.
  revert h. induction fs as [|f fs IH]; intros h Hfs; cbn [foldl].
  { exists h. split_and!; [done|intros; apply same_but_audit_refl|done]. }
  apply Forall_cons in Hfs as [Hf Hfs].
  rewrite merge_file_spec by done.
  set (h1 := if decide (f ∈ files self) then _ else h).
  assert (∀ l, same_but_audit (h l) (h1 l)) as Haud.
  { intros l. unfold h1. case_decide; [|apply same_but_audit_refl].
    apply foldl_merge_secret_audit. }
  assert (∀ l, (∀ s, data self !! f = Some s → l ∉ s) → h1 l = h l) as Hfr.
  { intros l Hl. unfold h1. case_decide as Hin; [|done].
    apply foldl_merge_secret_other. intros k [Hk _]%secret_map_get.
    unfold files in Hin. apply elem_of_dom in Hin as [s Hs].
    rewrite (lookup_total_correct _ _ _ Hs) in Hk. by eapply Hl. }
  destruct (IH h1 Hfs) as (h' & Hrun & Haud' & Hfr').
  exists h'. split_and!; [done| |].
  - intros l. eapply same_but_audit_trans; [apply Haud|apply Haud'].
  - intros l Hl. rewrite Hfr'.
    + apply Hfr. intros s. apply Hl. left.
    + intros f' s Hf'. apply Hl. by right.
Qed.
End merge_facts.

(** C5. [merge] never adds a potential secret to [self]: it hands back the
    two collections as it found them (same file keys, same sets of
    locations, no new collection), every object keeps its type, path,
    fingerprint, raw value and line number, so the (file, identity key)
    pairs of [self] are those it had before, and an object that [self] does
    not hold under a file that [old_results] also has is not written at
    all.  Only [is_secret] and [is_verified] may change. *)
Theorem merge_adds_nothing (h : heap) (self old_results : SecretsCollection) :
  ∃ h', merge h self old_results = (h', self, old_results) ∧
    (∀ l, same_but_audit (h l) (h' l)) ∧
    (∀ f, keys h' (data self !!! f) = keys h (data self !!! f)) ∧
    (∀ l, (∀ f s, f ∈ files old_results → data self !! f = Some s → l ∉ s) →
          h' l = h l).
Proof.
  destruct (foldl_merge_file (elements (files old_results)) h self old_results)
    as (h' & Hrun & Haud & Hfr).
  { apply Forall_forall. intros f Hf. by apply elem_of_elements in Hf. }
  exists h'. split_and!; [done|done| |].
  - intros f. apply keys_ext. intros l. by apply same_but_audit_identity.
  - intros l Hl. apply Hfr. intros f s Hf. apply Hl. by apply elem_of_elements.
Qed.

(** The audit fields of a current object after [merge], given its match. *)
Lemma merge_matched (h : heap) (self old_results : SecretsCollection)
    (f : string) (s olds : list loc) (cur prev : loc) :
  data self !! f = Some s → data old_results !! f = Some olds →
  NoDup (keys h s) → NoDup (keys h olds) →
  (∀ f' s', f' ≠ f → data self !! f' = Some s' → (cur ∉ s') ∧ (prev ∉ s')) →
  cur ∈ s → prev ∈ olds → identity (h cur) = identity (h prev) →
  ((merge h self old_results).1.1) cur = merged (h cur) (h prev).
Proof.
  intros Hs Ho Hnds Hndo Halias Hcur Hprev Heq.
  assert (f ∈ elements (files old_results)) as Hf.
  { apply elem_of_elements. unfold files. apply elem_of_dom. eauto. }
  apply list_elem_of_split in Hf as (pre & post & Hsplit).
  assert (NoDup (pre ++ f :: post)) as Hnd.
  { rewrite <- Hsplit. apply NoDup_elements. }
  apply NoDup_app in Hnd as (_ & Hpre & Hpost).
  apply NoDup_cons in Hpost as [Hpost _].
  assert (Forall (λ f, f ∈ files old_results) (pre ++ f :: post)) as Hall.
  { rewrite <- Hsplit. apply Forall_forall. intros f' Hf'.
    by apply elem_of_elements in Hf'. }
  apply Forall_app in Hall as [Hall1 Hall2].
  apply Forall_cons in Hall2 as [Hf Hall2].
  unfold merge. rewrite Hsplit, foldl_app. cbn [foldl].
  destruct (foldl_merge_file pre h self old_results Hall1) as (h1 & -> & Haud1 & Hfr1).
  rewrite merge_file_spec by done.
  rewrite decide_True by (unfold files; apply elem_of_dom; eauto).
  rewrite (lookup_total_correct _ _ _ Hs), (lookup_total_correct _ _ _ Ho).
  set (h2 := foldl _ h1 olds).
  destruct (foldl_merge_file post h2 self old_results Hall2) as (h3 & -> & Haud3 & Hfr3).
  simpl.
  assert (∀ f', f' ∈ pre ∨ f' ∈ post → f' ≠ f) as Hne.
  { intros f' [Hin|Hin] ->; [|done]. apply (Hpre _ Hin). left. }
  assert (∀ l, identity (h1 l) = identity (h l)) as Hid1.
  { intros l. by apply same_but_audit_identity. }
  rewrite Hfr3.
  2:{ intros f' s' Hin Hs'. apply (Halias f' s'); auto. }
  unfold h2. rewrite (secret_map_ext h h1) by done.
  rewrite (foldl_merge_secret_hit h s olds h1 cur prev) by done.
  rewrite !Hfr1; [done| |].
  - intros f' s' Hin Hs'. apply (Halias f' s'); auto.
  - intros f' s' Hin Hs'. apply (Halias f' s'); auto.
Qed.

(** C2. After [merge], a current object [cur] with an identity-matched
    object [prev] under the same file of [old_results] is verified iff either
    was before, so verification is never cleared; its [is_secret] stays
    unknown only if it was unknown in both; and when its [is_secret] was
    unknown it takes the previous value (a known value is kept).  The two
    sets are Python sets (no two elements with one identity) and neither
    object sits in another set of [self]. *)
Theorem merge_audit_monotone (h : heap) (self old_results : SecretsCollection)
    (f : string) (s olds : list loc) (cur prev : loc) :
  data self !! f = Some s → data old_results !! f = Some olds →
  NoDup (keys h s) → NoDup (keys h olds) →
  (∀ f' s', f' ≠ f → data self !! f' = Some s' → (cur ∉ s') ∧ (prev ∉ s')) →
  cur ∈ s → prev ∈ olds → identity (h cur) = identity (h prev) →
  let h' := ((merge h self old_results).1.1) in
  is_verified (h' cur) = is_verified (h cur) || is_verified (h prev) ∧
  (is_secret (h' cur) = None →
     is_secret (h cur) = None ∧ is_secret (h prev) = None) ∧
  (is_secret (h cur) = None → is_secret (h' cur) = is_secret (h prev)) ∧
  (∀ b, is_secret (h cur) = Some b → is_secret (h' cur) = Some b).
Proof.
  intros Hs Ho Hnds Hndo Halias Hcur Hprev Heq h'.
  unfold h'. rewrite (merge_matched h self old_results f s olds cur prev) by done.
  unfold merged.
  destruct (h cur) as [t fn sh sv ln [b|] [|]], (h prev) as [t' fn' sh' sv' ln' [b'|] [|]];
    simpl; split_and!; try done; intros; simplify_eq; done.
Qed.

Lemma merge_audit_monotone_witness :
  let self := mkSecretsCollection {[ "a.py" := [1%nat] ]} "" in
  let old_results := mkSecretsCollection {[ "a.py" := [2%nat] ]} "" in
  let h' := ((merge merge_ex_heap self old_results).1.1) in
  is_verified (h' 1%nat) = false || true ∧
  (is_secret (h' 1%nat) = None →
     is_secret (merge_ex_heap 1%nat) = None ∧ is_secret (merge_ex_heap 2%nat) = None) ∧
  (is_secret (merge_ex_heap 1%nat) = None → is_secret (h' 1%nat) = Some true) ∧
  (∀ b, is_secret (merge_ex_heap 1%nat) = Some b → is_secret (h' 1%nat) = Some b).
Proof.
  intros self old_results.
  apply (merge_audit_monotone merge_ex_heap self old_results "a.py"
           [1%nat] [2%nat] 1%nat 2%nat).
  - reflexivity.
  - reflexivity.
  - apply NoDup_singleton.
  - apply NoDup_singleton.
  - intros f' s' Hne Hl. simpl in Hl.
    rewrite lookup_singleton_ne in Hl by done. discriminate.
  - left.
  - left.
  - reflexivity.
Defined.

(** ** trim *)

Section trim_facts.
Implicit Types (h : heap) (l : loc) (result : gmap string (list loc)).

Lemma bind_Ret {A B} (m : M A) (k : A → M B) h h' a :
  m h = (h', Ret a) → (m ≫= k) h = k a h'.
Proof. unfold mbind, M_bind. by intros ->. Qed.

Lemma for_each_app {A S} (xs ys : list A) (body : S → A → M S) s h h' s' :
  for_each xs body s h = (h', Ret s') →
  for_each (xs ++ ys) body s h = for_each ys body s' h'.
Proof.
  revert s h. induction xs as [|x xs IH]; intros s h; simpl.
  - unfold mret, M_ret. by intros [= -> ->].
  - unfold mbind, M_bind. destruct (body s x h) as [h1 [s1|e]]; [|done].
    apply IH.
Qed.

(** The second loop: a file that the first loop left out of [result] and
    that is not in [fileset] comes back with the set [self] has for it. *)
Lemma foldl_trim_own_file fileset self fs result :
  Forall (λ f, f ∈ files self) fs →
  ∃ result', foldl (trim_own_file fileset) (self, result) fs = (self, result') ∧
    ∀ f, result' !! f =
      match result !! f with
      | Some s => Some s
      | None => if decide (f ∈ fs ∧ f ∉ fileset) then data self !! f else None
      end.
Proof.
  revert result. induction fs as [|f0 fs IH]; intros result Hfs; cbn [foldl].
  { exists result. split; [done|]. intros f. destruct (result !! f); [done|].
    rewrite decide_False; [done|]. intros [Hin _]. inversion Hin. }
  apply Forall_cons in Hfs as [Hf0 Hfs].
  unfold trim_own_file at 2.
  destruct (decide (f0 ∈ dom result)) as [Hin|Hnin].
  { destruct (IH result Hfs) as (result' & -> & Hres). exists result'.
    split; [done|]. intros f. rewrite Hres.
    destruct (result !! f) eqn:Hf; [done|].
    apply decide_ext. rewrite elem_of_cons. split; [naive_solver|].
    intros [[->|?] ?]; [|done]. apply elem_of_dom in Hin as [? ?]. congruence. }
  destruct (decide (f0 ∈ fileset)) as [Hset|Hnset].
  { destruct (IH result Hfs) as (result' & -> & Hres). exists result'.
    split; [done|]. intros f. rewrite Hres.
    destruct (result !! f) eqn:Hf; [done|].
    apply decide_ext. rewrite elem_of_cons. split; [naive_solver|].
    intros [[->|?] ?]; done. }
  rewrite getitem_files by done.
  destruct (IH (<[f0 := data self !!! f0]> result) Hfs) as (result' & -> & Hres).
  exists result'. split; [done|]. intros f. rewrite Hres.
  apply not_elem_of_dom in Hnin.
  destruct (decide (f = f0)) as [->|Hne].
  - rewrite lookup_insert_eq, Hnin.
    rewrite decide_True by (split; [left|done]).
    unfold files in Hf0. by rewrite lookup_lookup_total_dom.
  - rewrite lookup_insert_ne by done.
    destruct (result !! f) eqn:Hf; [done|].
    apply decide_ext. rewrite elem_of_cons. naive_solver.
Qed.
End trim_facts.

(** C6. [trim()] with no arguments returns normally, writes no object, and
    leaves in [self] exactly the files that exist on disk, each with the set
    it had: the file key of a path that does not exist is gone, with all its
    potential secrets. *)
Theorem trim_default_deletion (path_exists : string → bool) (h : heap)
    (self : SecretsCollection) (filelist : option (list string)) :
  ∃ self', trim path_exists self None filelist h = (h, Ret (self', empty_collection)) ∧
    root self' = root self ∧
    (∀ f, path_exists f = false → data self' !! f = None ∧ f ∉ files self') ∧
    (∀ f, path_exists f = true → data self' !! f = data self !! f).
Proof.
  unfold trim.
  set (missing := filter (λ filename, path_exists filename = false)
                    (elements (files self))).
  replace (elements (files empty_collection)) with (@nil string) by done.
  cbn [for_each]. unfold mbind, M_bind, mret, M_ret.
  set (fileset := match missing with
                  | [] => ∅
                  | _ :: _ => list_to_set missing
                  end : gset string).
  assert (∀ f, f ∈ fileset ↔ f ∈ files self ∧ path_exists f = false) as Hfileset.
  { intros f. transitivity (f ∈ missing).
    - unfold fileset. destruct missing; [set_solver|].
      by rewrite elem_of_list_to_set.
    - unfold missing. rewrite list_elem_of_filter, elem_of_elements. tauto. }
  destruct (foldl_trim_own_file fileset self (elements (files self)) ∅)
    as (result & Hrun & Hres).
  { apply Forall_forall. intros f. by rewrite elem_of_elements. }
  rewrite Hrun. eexists. split; [reflexivity|]. simpl.
  split; [done|]. split.
  - intros f Hf.
    assert (result !! f = None) as Hnone.
    { rewrite Hres, lookup_empty. case_decide as Hd; [|done].
      destruct Hd as [Hin%elem_of_elements Hnin].
      exfalso. apply Hnin, Hfileset. done. }
    split; [done|]. unfold files. simpl. by apply not_elem_of_dom.
  - intros f Hf. rewrite Hres, lookup_empty. case_decide as Hd; [done|].
    symmetry. apply not_elem_of_dom. intros Hin. apply Hd.
    split; [by apply elem_of_elements|].
    rewrite Hfileset. intros [_ ?]. congruence.
Qed.

Section trim_first_loop.
Implicit Types (h : heap) (l e r : loc) (result : gmap string (list loc)).

Lemma same_but_line_refl s : same_but_line s s.
Proof. by repeat split. Qed.

Lemma same_but_line_trans s1 s2 s3 :
  same_but_line s1 s2 → same_but_line s2 s3 → same_but_line s1 s3.
Proof. unfold same_but_line. intuition congruence. Qed.

Lemma same_but_line_identity s s' : same_but_line s s' → identity s' = identity s.
Proof. unfold same_but_line, identity. intuition congruence. Qed.

Lemma lookup_total_elem (m : gmap string (list loc)) f l :
  l ∈ m !!! f → ∃ s, m !! f = Some s ∧ l ∈ s.
Proof.
  rewrite lookup_total_alt. destruct (m !! f) as [s|]; simpl; [eauto|].
  intros Hin. inversion Hin.
Qed.

Lemma set_add_elem h x s l : l ∈ set_add h x s ↔ l ∈ s ∨ (l = x ∧ identity (h x) ∉ keys h s).
Proof.
  unfold set_add. case_decide; [naive_solver|].
  rewrite elem_of_app, list_elem_of_singleton. naive_solver.
Qed.

Lemma set_add_has_identity h x s :
  ∃ x', x' ∈ set_add h x s ∧ identity (h x') = identity (h x).
Proof.
  destruct (decide (identity (h x) ∈ keys h s)) as [Hin|Hnin].
  - apply list_elem_of_fmap in Hin as (x' & Heq & Hx').
    exists x'. split; [|done]. apply set_add_elem. by left.
  - exists x. split; [|done]. apply set_add_elem. by right.
Qed.

(** One turn of the inner loop. *)
Lemma trim_secret_spec h0 s f result r h :
  (∀ l, identity (h l) = identity (h0 l)) →
  (∀ l, l ∈ s → is_Some (line_number (h l))) →
  is_Some (line_number (h r)) →
  ∃ h' result',
    trim_secret f (secret_map h0 s) result r h = (h', Ret result') ∧
    (∀ l, same_but_line (h l) (h' l)) ∧
    (∀ l, is_Some (line_number (h l)) → is_Some (line_number (h' l))) ∧
    (∀ l, dict_get (identity (h0 r)) (secret_map h0 s) ≠ Some l → h' l = h l) ∧
    (∀ e, dict_get (identity (h0 r)) (secret_map h0 s) = Some e →
       line_number (h' e) =
         (if decide (line_number (h e) = Some 0) then Some 0
          else line_number (h r)) ∧
       ∃ e', e' ∈ result' !!! f ∧ identity (h0 e') = identity (h0 e)) ∧
    (∀ f', f' ≠ f → result' !! f' = result !! f') ∧
    (∀ l, l ∈ result' !!! f →
       l ∈ result !!! f ∨ dict_get (identity (h0 r)) (secret_map h0 s) = Some l) ∧
    (∀ l, l ∈ result !!! f → l ∈ result' !!! f).
Proof.
  intros Hid Hs Hr.
  unfold trim_secret, mbind, M_bind, get_heap. rewrite Hid.
  destruct (dict_get (identity (h0 r)) (secret_map h0 s)) as [e|] eqn:Hget.
  2:{ exists h, result. unfold mret, M_ret.
      split_and!; auto using same_but_line_refl; done. }
  pose proof (secret_map_get _ _ _ _ Hget) as [He Hide].
  destruct (Hs e He) as [n Hn]. destruct Hr as [m Hm].
  unfold get_line_number. rewrite Hn.
  set (h' := if decide (n = 0) then h
             else <[e := with_line_number (Some m) (h e)]> h).
  assert (∀ l, l ≠ e → h' l = h l) as Hother.
  { intros l Hl. unfold h'. case_decide; [done|]. by rewrite fn_lookup_insert_ne. }
  assert (∀ l, same_but_line (h l) (h' l)) as Hline.
  { intros l. unfold h'. case_decide; [apply same_but_line_refl|].
    destruct (decide (l = e)) as [->|Hl].
    - rewrite fn_lookup_insert. by repeat split.
    - rewrite fn_lookup_insert_ne by done. apply same_but_line_refl. }
  assert (∀ l, identity (h' l) = identity (h0 l)) as Hid'.
  { intros l. rewrite (same_but_line_identity _ _ (Hline l)). apply Hid. }
  set (sr := (defaultdict_get result f).1).
  set (result' := <[f := set_add h' e sr]> (defaultdict_get result f).2).
  assert (sr = result !!! f) as Hsr.
  { unfold sr, defaultdict_get. rewrite lookup_total_alt.
    by destruct (result !! f). }
  assert (result' !!! f = set_add h' e (result !!! f)) as Hres.
  { unfold result'. by rewrite lookup_total_insert_eq, Hsr. }
  exists h', result'. split_and!.
  - unfold h', result', sr. destruct (decide (n = 0)); simpl.
    + unfold mret, M_ret. by destruct (defaultdict_get result f).
    + rewrite Hm. unfold set_line_number, mret, M_ret.
      by destruct (defaultdict_get result f).
  - done.
  - intros l Hl. unfold h'. case_decide; [done|].
    destruct (decide (l = e)) as [->|Hne].
    + rewrite fn_lookup_insert. by eexists.
    + by rewrite fn_lookup_insert_ne.
  - intros l Hl. apply Hother. congruence.
  - intros e0 [= <-]. split.
    + unfold h'. destruct (decide (n = 0)) as [->|Hn0].
      * rewrite Hn. by rewrite decide_True.
      * rewrite fn_lookup_insert. simpl. rewrite Hn.
        rewrite decide_False by congruence. done.
    + rewrite Hres. destruct (set_add_has_identity h' e (result !!! f)) as (e' & ? & He').
      exists e'. split; [done|]. by rewrite <- !Hid'.
  - intros f' Hf'. unfold result'. rewrite lookup_insert_ne by done.
    unfold defaultdict_get. destruct (result !! f) eqn:Hf; simpl; [done|].
    by rewrite lookup_insert_ne.
  - intros l. rewrite Hres, set_add_elem. intros [?|[-> _]]; auto.
  - intros l Hl. rewrite Hres, set_add_elem. auto.
Qed.
End trim_first_loop.

Section trim_loops.
Implicit Types (h : heap) (l e r : loc) (result : gmap string (list loc)).

(** The inner loop over the scanned secrets of one file. *)
Lemma trim_inner_spec h0 s f rs result h :
  (∀ l, identity (h l) = identity (h0 l)) →
  (∀ l, l ∈ s → is_Some (line_number (h l))) →
  (∀ l, l ∈ rs → is_Some (line_number (h l))) →
  ∃ h' result',
    for_each rs (trim_secret f (secret_map h0 s)) result h = (h', Ret result') ∧
    (∀ l, same_but_line (h l) (h' l)) ∧
    (∀ l, is_Some (line_number (h l)) → is_Some (line_number (h' l))) ∧
    (∀ l, l ∉ s ∨ identity (h0 l) ∉ keys h0 rs → h' l = h l) ∧
    (∀ f', f' ≠ f → result' !! f' = result !! f') ∧
    (∀ l, l ∈ result' !!! f →
       l ∈ result !!! f ∨ (l ∈ s ∧ identity (h0 l) ∈ keys h0 rs)) ∧
    (∀ l, l ∈ result !!! f → l ∈ result' !!! f).
Proof.
  revert result h. induction rs as [|o rs IH]; intros result h Hid Hs Hrs.
  { exists h, result. split_and!; auto using same_but_line_refl. }
  destruct (trim_secret_spec h0 s f result o h Hid Hs) as
    (h1 & result1 & Hrun1 & Hline1 & Hpres1 & Hfr1 & _ & Hres1 & Hsub1 & Hmono1).
  { apply Hrs. left. }
  destruct (IH result1 h1) as
    (h2 & result2 & Hrun2 & Hline2 & Hpres2 & Hfr2 & Hres2 & Hsub2 & Hmono2).
  { intros l. rewrite (same_but_line_identity _ _ (Hline1 l)). apply Hid. }
  { intros l Hl. apply Hpres1, Hs, Hl. }
  { intros l Hl. apply Hpres1, Hrs. by right. }
  exists h2, result2. split_and!.
  - cbn [for_each]. by rewrite (bind_Ret _ _ _ _ _ Hrun1).
  - intros l. eapply same_but_line_trans; [apply Hline1|apply Hline2].
  - intros l Hl. apply Hpres2, Hpres1, Hl.
  - intros l Hl. rewrite Hfr2.
    + apply Hfr1. intros [Hin Hk]%secret_map_get.
      destruct Hl as [Hl|Hl]; [done|]. apply Hl. rewrite Hk. left.
    + destruct Hl as [Hl|Hl]; [by left|right].
      intros Hin. apply Hl. by right.
  - intros f' Hf'. rewrite Hres2, Hres1 by done. done.
  - intros l Hl. apply Hsub2 in Hl as [Hl|[Hl Hk]].
    + apply Hsub1 in Hl as [Hl|Hl]; [by left|right].
      apply secret_map_get in Hl as [Hin Hk]. split; [done|]. rewrite Hk. left.
    + right. split; [done|]. by right.
  - intros l Hl. apply Hmono2, Hmono1, Hl.
Qed.

(** The inner loop on a matched pair: [e] is kept and takes the line number
    of [r] when it tracked one. *)
Lemma trim_inner_hit h0 s f rs e r :
  NoDup (keys h0 s) → e ∈ s → identity (h0 e) = identity (h0 r) →
  ∀ result h h' result',
  NoDup (keys h0 rs) → r ∈ rs →
  (∀ l, identity (h l) = identity (h0 l)) →
  (∀ l, l ∈ s → is_Some (line_number (h l))) →
  (∀ l, l ∈ rs → is_Some (line_number (h l))) →
  (∀ l, l ∈ result !!! f → l ∈ s) →
  for_each rs (trim_secret f (secret_map h0 s)) result h = (h', Ret result') →
  line_number (h' e) =
    (if decide (line_number (h e) = Some 0) then Some 0 else line_number (h r)) ∧
  e ∈ result' !!! f.
Proof.
  intros Hnds He Heq. induction rs as [|o rs IH];
    intros result h h' result' Hnd Hr Hid Hs Hrs Hsub Hrun.
  { inversion Hr. }
  unfold keys in Hnd. rewrite fmap_cons in Hnd.
  apply NoDup_cons in Hnd as [Hfresh Hnd]. fold (keys h0 rs) in Hfresh, Hnd.
  destruct (trim_secret_spec h0 s f result o h Hid Hs) as
    (h1 & result1 & Hrun1 & Hline1 & Hpres1 & Hfr1 & Hhit1 & Hres1 & Hsub1 & Hmono1).
  { apply Hrs. left. }
  cbn [for_each] in Hrun. rewrite (bind_Ret _ _ _ _ _ Hrun1) in Hrun.
  assert (∀ l, identity (h1 l) = identity (h0 l)) as Hid1.
  { intros l. rewrite (same_but_line_identity _ _ (Hline1 l)). apply Hid. }
  assert (∀ l, l ∈ result1 !!! f → l ∈ s) as Hsub1'.
  { intros l [Hl|Hl]%Hsub1; [by apply Hsub|]. by apply secret_map_get in Hl as [? _]. }
  apply elem_of_cons in Hr as [->|Hr].
  - destruct (Hhit1 e) as (Hln & e' & He' & Hide').
    { rewrite <- Heq. by apply secret_map_get_unique. }
    assert (e' = e) as ->.
    { apply (keys_NoDup_inj h0 s); auto. }
    destruct (trim_inner_spec h0 s f rs result1 h1) as
      (h2 & result2 & Hrun2 & _ & _ & Hfr2 & _ & _ & Hmono2); auto.
    { intros l Hl. apply Hpres1, Hrs. by right. }
    rewrite Hrun2 in Hrun. injection Hrun as <- <-. split.
    + rewrite Hfr2; [done|]. right. by rewrite Heq.
    + by apply Hmono2.
  - assert (identity (h0 o) ≠ identity (h0 r)) as Hne.
    { intros Ho. apply Hfresh. rewrite Ho. by apply keys_elem. }
    rewrite <- (Hfr1 e), <- (Hfr1 r).
    + apply (IH result1 h1); auto.
      intros l Hl. apply Hpres1, Hrs. by right.
    + intros [_ Hk]%secret_map_get. congruence.
    + intros [_ Hk]%secret_map_get. congruence.
Qed.

Lemma trim_scanned_file_spec self scanned result f h :
  f ∈ files scanned → f ∈ files self →
  trim_scanned_file (self, scanned, result) f h =
    (result' ← for_each (data scanned !!! f)
                 (trim_secret f (secret_map h (data self !!! f))) result;
     mret (self, scanned, result')) h.
Proof.
  intros Hsc Hself. unfold trim_scanned_file.
  rewrite decide_True by done. rewrite !getitem_files by done. done.
Qed.

(** The first loop of [trim], over a list of files of the scanned results. *)
Lemma trim_scanned_files_spec self scanned fs result h :
  Forall (λ f, f ∈ files scanned) fs →
  (∀ l, holds self l → is_Some (line_number (h l))) →
  (∀ l, holds scanned l → is_Some (line_number (h l))) →
  ∃ h' result',
    for_each fs trim_scanned_file (self, scanned, result) h =
      (h', Ret (self, scanned, result')) ∧
    (∀ l, same_but_line (h l) (h' l)) ∧
    (∀ l, is_Some (line_number (h l)) → is_Some (line_number (h' l))) ∧
    (∀ l, (∀ f s, f ∈ fs → data self !! f = Some s → l ∉ s) → h' l = h l) ∧
    (∀ f, f ∉ fs → result' !! f = result !! f) ∧
    (∀ f l, l ∈ result' !!! f → l ∈ result !!! f ∨ l ∈ data self !!! f) ∧
    (∀ f l, l ∈ result !!! f → l ∈ result' !!! f).
Proof.
  revert result h. induction fs as [|f fs IH]; intros result h Hfs Hself Hsc.
  { exists h, result. split_and!; auto using same_but_line_refl. }
  apply Forall_cons in Hfs as [Hf Hfs].
  assert (∃ h1 result1,
    trim_scanned_file (self, scanned, result) f h = (h1, Ret (self, scanned, result1)) ∧
    (∀ l, same_but_line (h l) (h1 l)) ∧
    (∀ l, is_Some (line_number (h l)) → is_Some (line_number (h1 l))) ∧
    (∀ l, (∀ s, data self !! f = Some s → l ∉ s) → h1 l = h l) ∧
    (∀ f', f' ≠ f → result1 !! f' = result !! f') ∧
    (∀ f' l, l ∈ result1 !!! f' → l ∈ result !!! f' ∨ l ∈ data self !!! f') ∧
    (∀ f' l, l ∈ result !!! f' → l ∈ result1 !!! f'))
    as (h1 & result1 & Hrun1 & Hline1 & Hpres1 & Hfr1 & Hres1 & Hsub1 & Hmono1).
  { destruct (decide (f ∈ files self)) as [Hin|Hnin].
    - rewrite trim_scanned_file_spec by done.
      unfold files in Hin, Hf.
      apply elem_of_dom in Hin as [s Hs]. apply elem_of_dom in Hf as [rs Hrs].
      rewrite (lookup_total_correct _ _ _ Hs), (lookup_total_correct _ _ _ Hrs).
      destruct (trim_inner_spec h s f rs result h) as
        (h1 & result1 & Hrun1 & Hline1 & Hpres1 & Hfr1 & Hres1 & Hsub1 & Hmono1).
      { done. }
      { intros l Hl. apply Hself. by exists f, s. }
      { intros l Hl. apply Hsc. by exists f, rs. }
      exists h1, result1. split_and!; try done.
      + by rewrite (bind_Ret _ _ _ _ _ Hrun1).
      + intros l Hl. apply Hfr1. left. by apply Hl.
      + intros f' l Hl. destruct (decide (f' = f)) as [->|Hne].
        * rewrite (lookup_total_correct _ _ _ Hs).
          apply Hsub1 in Hl as [?|[? _]]; auto.
        * left. rewrite lookup_total_alt in Hl. rewrite (Hres1 f' Hne) in Hl.
          by rewrite lookup_total_alt.
      + intros f' l Hl. destruct (decide (f' = f)) as [->|Hne]; [by apply Hmono1|].
        rewrite lookup_total_alt. rewrite (Hres1 f' Hne).
        by rewrite lookup_total_alt in Hl.
    - exists h, result. unfold trim_scanned_file. rewrite decide_False by done.
      split_and!; auto using same_but_line_refl. }
  destruct (IH result1 h1 Hfs) as
    (h2 & result2 & Hrun2 & Hline2 & Hpres2 & Hfr2 & Hres2 & Hsub2 & Hmono2).
  { intros l Hl. apply Hpres1, Hself, Hl. }
  { intros l Hl. apply Hpres1, Hsc, Hl. }
  exists h2, result2. split_and!.
  - cbn [for_each]. by rewrite (bind_Ret _ _ _ _ _ Hrun1).
  - intros l. eapply same_but_line_trans; [apply Hline1|apply Hline2].
  - intros l Hl. apply Hpres2, Hpres1, Hl.
  - intros l Hl. rewrite Hfr2.
    + apply Hfr1. intros s. apply Hl. left.
    + intros f' s Hf'. apply Hl. by right.
  - intros f' [Hne Hnin]%not_elem_of_cons. rewrite Hres2, Hres1 by done. done.
  - intros f' l [Hl|Hl]%Hsub2; [|by right]. by apply Hsub1.
  - intros f' l Hl. apply Hmono2, Hmono1, Hl.
Qed.
End trim_loops.

(** C7. In [trim(scanned_results, filelist)], a potential secret [e] of
    [self] whose identity the scanned set of the same file has, in [r], is
    kept, and its line number becomes that of [r] iff it was not zero
    before the call; a line number of zero stays zero.  The call returns
    normally when every object of the two collections still has its
    [line_number] attribute; the two sets are Python sets and neither object
    sits in another set of [self]. *)
Theorem trim_refreshes_tracked_lines (path_exists : string → bool) (h : heap)
    (self scanned : SecretsCollection) (filelist : option (list string))
    (f : string) (s rs : list loc) (e r : loc) :
  data self !! f = Some s → data scanned !! f = Some rs →
  NoDup (keys h s) → NoDup (keys h rs) →
  (∀ f' s', f' ≠ f → data self !! f' = Some s' → (e ∉ s') ∧ (r ∉ s')) →
  (∀ l, holds self l → is_Some (line_number (h l))) →
  (∀ l, holds scanned l → is_Some (line_number (h l))) →
  e ∈ s → r ∈ rs → identity (h e) = identity (h r) →
  ∃ h' self',
    trim path_exists self (Some scanned) filelist h = (h', Ret (self', scanned)) ∧
    e ∈ data self' !!! f ∧
    line_number (h' e) =
      (if decide (line_number (h e) = Some 0) then Some 0 else line_number (h r)).
Proof.
  intros Hs Hrs Hnds Hndr Halias Hpself Hpsc He Hr Heq.
  assert (f ∈ files self) as Hfself by (apply elem_of_dom; eauto).
  assert (f ∈ files scanned) as Hfsc by (apply elem_of_dom; eauto).
  assert (f ∈ elements (files scanned)) as Hf by (by apply elem_of_elements).
  apply list_elem_of_split in Hf as (pre & post & Hsplit).
  assert (NoDup (pre ++ f :: post)) as Hnd.
  { rewrite <- Hsplit. apply NoDup_elements. }
  apply NoDup_app in Hnd as (_ & Hpre & Hpost).
  apply NoDup_cons in Hpost as [Hpost _].
  assert (Forall (λ f, f ∈ files scanned) (pre ++ f :: post)) as Hall.
  { rewrite <- Hsplit. apply Forall_forall. intros f' Hf'.
    by apply elem_of_elements in Hf'. }
  apply Forall_app in Hall as [Hall1 Hall2].
  apply Forall_cons in Hall2 as [_ Hall2].
  assert (∀ f', f' ∈ pre ∨ f' ∈ post → f' ≠ f) as Hne.
  { intros f' [Hin|Hin] ->; [|done]. apply (Hpre _ Hin). left. }
  (* the files before [f] *)
  destruct (trim_scanned_files_spec self scanned pre ∅ h Hall1 Hpself Hpsc) as
    (h1 & result1 & Hrun1 & Hline1 & Hpres1 & Hfr1 & Hres1 & Hsub1 & _).
  assert (∀ l, identity (h1 l) = identity (h l)) as Hid1.
  { intros l. by apply same_but_line_identity. }
  assert (h1 e = h e ∧ h1 r = h r) as [He1 Hr1].
  { split; apply Hfr1; intros f' s' Hin Hs'; apply (Halias f' s'); auto. }
  assert (result1 !!! f = []) as Hempty.
  { rewrite lookup_total_alt, Hres1, lookup_empty; [done|].
    intros Hin. by apply (Hne f); auto. }
  (* the file [f] *)
  destruct (trim_inner_spec h s f rs result1 h1) as
    (h2 & result2 & Hrun2 & Hline2 & Hpres2 & _ & _ & _ & _).
  { done. }
  { intros l Hl. apply Hpres1, Hpself. by exists f, s. }
  { intros l Hl. apply Hpres1, Hpsc. by exists f, rs. }
  destruct (trim_inner_hit h s f rs e r Hnds He Heq result1 h1 h2 result2)
    as [Hln Hkept]; auto.
  { intros l Hl. apply Hpres1, Hpself. by exists f, s. }
  { intros l Hl. apply Hpres1, Hpsc. by exists f, rs. }
  { intros l. rewrite Hempty. intros Hl. inversion Hl. }
  (* the files after [f] *)
  destruct (trim_scanned_files_spec self scanned post result2 h2 Hall2) as
    (h3 & result3 & Hrun3 & _ & _ & Hfr3 & _ & _ & Hmono3).
  { intros l Hl. apply Hpres2, Hpres1, Hpself, Hl. }
  { intros l Hl. apply Hpres2, Hpres1, Hpsc, Hl. }
  (* the second loop *)
  set (fileset := match filelist with
                  | None | Some [] => ∅
                  | Some filelist => list_to_set filelist
                  end : gset string).
  destruct (foldl_trim_own_file fileset self (elements (files self)) result3)
    as (result4 & Hrun4 & Hres4).
  { apply Forall_forall. intros f'. by rewrite elem_of_elements. }
  exists h3, (with_data result4 self). split_and!.
  - assert (for_each (elements (files scanned)) trim_scanned_file
              (self, scanned, ∅) h = (h3, Ret (self, scanned, result3))) as Hfirst.
    { rewrite Hsplit. erewrite for_each_app by exact Hrun1. cbn [for_each].
      assert (trim_scanned_file (self, scanned, result1) f h1 =
                (h2, Ret (self, scanned, result2))) as Hstep.
      { rewrite trim_scanned_file_spec by done.
        rewrite (lookup_total_correct _ _ _ Hs), (lookup_total_correct _ _ _ Hrs).
        rewrite (secret_map_ext h h1) by done.
        by rewrite (bind_Ret _ _ _ _ _ Hrun2). }
      by rewrite (bind_Ret _ _ _ _ _ Hstep). }
    unfold trim. fold fileset. rewrite (bind_Ret _ _ _ _ _ Hfirst).
    by rewrite Hrun4.
  - simpl. apply Hmono3 in Hkept.
    apply lookup_total_elem in Hkept as (s3 & Hs3 & Hin).
    rewrite lookup_total_alt, Hres4, Hs3. done.
  - rewrite Hfr3.
    + by rewrite Hln, He1, Hr1.
    + intros f' s' Hin Hs'. apply (Halias f' s'); auto.
Qed.

Lemma trim_refreshes_tracked_lines_witness :
  let h := merge_ex_heap in
  let self := mkSecretsCollection {[ "a.py" := [1%nat] ]} "" in
  let scanned := mkSecretsCollection {[ "a.py" := [2%nat] ]} "" in
  ∃ h' self',
    trim (λ _, true) self (Some scanned) None h = (h', Ret (self', scanned)) ∧
    1%nat ∈ data self' !!! "a.py" ∧
    line_number (h' 1%nat) =
      (if decide (line_number (h 1%nat) = Some 0) then Some 0
       else line_number (h 2%nat)).
Proof.
  intros h self scanned.
  apply (trim_refreshes_tracked_lines (λ _, true) h self scanned None "a.py"
           [1%nat] [2%nat] 1%nat 2%nat).
  - reflexivity.
  - reflexivity.
  - apply NoDup_singleton.
  - apply NoDup_singleton.
  - intros f' s' Hne Hl. simpl in Hl.
    rewrite lookup_singleton_ne in Hl by done. discriminate.
  - intros l _. unfold h, merge_ex_heap. destruct l as [|[|l]]; by eexists.
  - intros l _. unfold h, merge_ex_heap. destruct l as [|[|l]]; by eexists.
  - left.
  - left.
  - reflexivity.
Defined.

(** C1 (the code departs from it).  [self] has one secret of [a.py] and the
    scanned results have another one, so no identity of [self]'s set is in
    the scanned set: the first loop of [trim] never touches [result], its
    second loop finds [a.py] missing from [result] and, without a file list,
    puts the whole set back.  With [a.py] in the file list the set is
    dropped, as the intersection asks. *)
Theorem trim_keeps_unmatched_file :
  (identity (trim_ex_heap 1%nat) ∉
     keys trim_ex_heap (data trim_ex_scanned !!! "a.py")) ∧
  (trim (λ _, true) trim_ex_self (Some trim_ex_scanned) None trim_ex_heap).2 =
    Ret (trim_ex_self, trim_ex_scanned) ∧
  (trim (λ _, true) trim_ex_self (Some trim_ex_scanned) (Some ["a.py"]) trim_ex_heap).2 =
    Ret (empty_collection, trim_ex_scanned).
Proof.
  split_and!.
  - vm_compute. intros Hin. inversion Hin as [|? ? ? Hin']; subst; inversion Hin'.
  - vm_compute. reflexivity.
  - vm_compute. reflexivity.
Qed.

(** C10 (the code departs from it).  A first [exactly_equals] on two
    collections that hold one secret each, equal up to the line number,
    answers [True] and leaves both objects without their [secret_value] and
    [line_number] attributes; the same call again raises [KeyError]. *)
Theorem exactly_equals_strips_attributes :
  let r := exactly_equals eq_ex_a eq_ex_b eq_ex_heap in
  r.2 = Ret true ∧
  secret_value (eq_ex_heap 1%nat) = Some "k" ∧ secret_value (r.1 1%nat) = None ∧
  line_number (eq_ex_heap 1%nat) = Some 3 ∧ line_number (r.1 1%nat) = None ∧
  secret_value (eq_ex_heap 2%nat) = Some "k" ∧ secret_value (r.1 2%nat) = None ∧
  line_number (eq_ex_heap 2%nat) = Some 0 ∧ line_number (r.1 2%nat) = None ∧
  (exactly_equals eq_ex_a eq_ex_b r.1).2 = Raise (KeyError "secret_value").
Proof. vm_compute. repeat split; reflexivity. Qed.

(** ** __sub__ *)

Section sub_facts.
Implicit Types (h : heap) (self other output : SecretsCollection).

Lemma foldl_sub_other_file h self other fs output :
  Forall (λ f, f ∈ files other) fs →
  ∃ output',
    foldl (sub_other_file h) (self, other, output) fs = (self, other, output') ∧
    ∀ f, data output' !! f =
      if decide (f ∈ fs ∧ f ∈ files self)
      then Some (set_difference h (data self !!! f) (data other !!! f))
      else data output !! f.
Proof.
  revert output. induction fs as [|f0 fs IH]; intros output Hfs; cbn [foldl].
  { exists output. split; [done|]. intros f. rewrite decide_False; [done|].
    intros [Hin _]. inversion Hin. }
  apply Forall_cons in Hfs as [Hf0 Hfs].
  unfold sub_other_file at 2.
  destruct (decide (f0 ∈ files self)) as [Hin|Hnin].
  - rewrite !getitem_files by done.
    destruct (IH (__setitem__ output f0
                    (set_difference h (data self !!! f0) (data other !!! f0))) Hfs)
      as (output' & -> & Hout).
    exists output'. split; [done|]. intros f. rewrite Hout. simpl.
    destruct (decide (f = f0)) as [->|Hne].
    + rewrite lookup_insert_eq.
      rewrite (decide_True (P := f0 ∈ f0 :: fs ∧ _)) by (split; [left|done]).
      by case_decide.
    + rewrite lookup_insert_ne by done.
      apply decide_ext. rewrite elem_of_cons. naive_solver.
  - destruct (IH output Hfs) as (output' & -> & Hout).
    exists output'. split; [done|]. intros f. rewrite Hout.
    apply decide_ext. rewrite elem_of_cons. naive_solver.
Qed.

Lemma foldl_sub_self_file self other fs output :
  Forall (λ f, f ∈ files self) fs →
  ∃ output',
    foldl sub_self_file (self, other, output) fs = (self, other, output') ∧
    ∀ f, data output' !! f =
      if decide (f ∈ fs ∧ f ∉ files other) then data self !! f
      else data output !! f.
Proof.
  revert output. induction fs as [|f0 fs IH]; intros output Hfs; cbn [foldl].
  { exists output. split; [done|]. intros f. rewrite decide_False; [done|].
    intros [Hin _]. inversion Hin. }
  apply Forall_cons in Hfs as [Hf0 Hfs].
  unfold sub_self_file at 2.
  destruct (decide (f0 ∈ files other)) as [Hin|Hnin].
  - destruct (IH output Hfs) as (output' & -> & Hout).
    exists output'. split; [done|]. intros f. rewrite Hout.
    apply decide_ext. rewrite elem_of_cons. naive_solver.
  - rewrite getitem_files by done.
    destruct (IH (__setitem__ output f0 (data self !!! f0)) Hfs)
      as (output' & -> & Hout).
    exists output'. split; [done|]. intros f. rewrite Hout. simpl.
    destruct (decide (f = f0)) as [->|Hne].
    + rewrite lookup_insert_eq.
      rewrite (decide_True (P := f0 ∈ f0 :: fs ∧ _)) by (split; [left|done]).
      unfold files in Hf0. rewrite (lookup_lookup_total_dom _ _ Hf0).
      by case_decide.
    + rewrite lookup_insert_ne by done.
      apply decide_ext. rewrite elem_of_cons. naive_solver.
Qed.
End sub_facts.

(** C4. [A - B] hands back [A] and [B] as they were, next to a collection
    built from [SecretsCollection()] that has exactly the files of [A].
    Under a file of [B] its set is the difference of the two sets: it holds
    the objects of the set of [A] whose identity no object of the set of
    [B] has, all of them and nothing else, in the order [A] has them.  A file
    of [A] alone comes with the set [A] has for it.  The store is only
    read. *)
Theorem sub_is_set_difference (h : heap) (A B : SecretsCollection) :
  ∃ output, __sub__ h A B = (A, B, output) ∧
    files output = files A ∧
    (∀ f, f ∈ files B →
       (∀ l, l ∈ data output !!! f ↔
             l ∈ data A !!! f ∧
             ¬ ∃ l', l' ∈ data B !!! f ∧ identity (h l') = identity (h l)) ∧
       data output !!! f `sublist_of` data A !!! f) ∧
    (∀ f, f ∈ files A → f ∉ files B → data output !! f = data A !! f).
Proof.
  unfold __sub__.
  destruct (foldl_sub_other_file h A B (elements (files B)) empty_collection)
    as (out1 & -> & Hout1).
  { apply Forall_forall. intros f. by rewrite elem_of_elements. }
  destruct (foldl_sub_self_file A B (elements (files A)) out1)
    as (out2 & -> & Hout2).
  { apply Forall_forall. intros f. by rewrite elem_of_elements. }
  exists out2. split; [done|].
  assert (∀ f, f ∈ files B →
            data out2 !!! f = set_difference h (data A !!! f) (data B !!! f)) as Hdiff.
  { intros f Hf. rewrite lookup_total_alt, Hout2.
    rewrite decide_False by (intros [_ ?]; done).
    rewrite Hout1. case_decide as Hd; [done|].
    assert (f ∉ files A) as HA.
    { intros HA. apply Hd. split; [by apply elem_of_elements|done]. }
    simpl. rewrite lookup_empty. simpl.
    unfold files in HA. apply not_elem_of_dom in HA.
    by rewrite (lookup_total_alt (data A)), HA. }
  split_and!.
  - apply set_eq. intros f. unfold files. rewrite !elem_of_dom, Hout2.
    case_decide as Hd; [done|].
    rewrite Hout1. case_decide as Hd'.
    + split; [|by eauto]. intros _. destruct Hd' as [_ HA].
      unfold files in HA. by apply elem_of_dom in HA.
    + simpl. rewrite lookup_empty. split; [by intros [? ?]|].
      intros HA. exfalso.
      assert (f ∈ files A) as HA' by (by apply elem_of_dom).
      destruct (decide (f ∈ files B)) as [HB|HB].
      * apply Hd'. split; [by apply elem_of_elements|done].
      * apply Hd. split; [by apply elem_of_elements|done].
  - intros f Hf. rewrite Hdiff by done. unfold set_difference. split.
    + intros l. rewrite list_elem_of_filter. split.
      * intros [Hnin Hl]. split; [done|]. intros (l' & Hl' & Heq).
        apply Hnin. rewrite <- Heq. by apply keys_elem.
      * intros [Hl Hnone]. split; [|done].
        intros (l' & Heq & Hl')%list_elem_of_fmap. apply Hnone. eauto.
    + apply sublist_filter.
  - intros f HA HB. rewrite Hout2.
    by rewrite decide_True by (split; [by apply elem_of_elements|done]).
Qed.

(** ** scan_diff *)

(** C9. However the run of the diff scanner ends, [scan_diff] ends the same
    way, except that an [ImportError] (no diff parser installed) becomes a
    [NotImplementedError]: a diff-parse failure reaches the caller as it
    was raised, no exception of the scanner is turned into a normal return,
    and a parse failure is never reported as "not implemented". *)
Theorem scan_diff_errors (scan_scan_diff : diff_scanner) (h : heap)
    (self : SecretsCollection) (diff : string)
    (secrets : list loc) (ending : option exn) :
  scan_scan_diff diff = (secrets, ending) →
  let r := (scan_diff scan_scan_diff h self diff).2 in
  (∀ msg, ending = Some (UnidiffParseError msg) →
     r = Raise (UnidiffParseError msg) ∧ ∀ m, r ≠ Raise (NotImplementedError m)) ∧
  (ending = Some ImportError → r = Raise (NotImplementedError unidiff_required)) ∧
  (ending = None → r = Ret tt) ∧
  (∀ e, ending = Some e → r ≠ Ret tt).
Proof.
  intros Hscan r. unfold r, scan_diff. rewrite Hscan. split_and!.
  - intros msg ->. simpl. split; [done|]. by intros m.
  - by intros ->.
  - by intros ->.
  - intros e ->. by destruct e.
Qed.

Lemma scan_diff_errors_witness :
  let scanner : diff_scanner := λ _, ([], Some (UnidiffParseError "bad hunk")) in
  (scan_diff scanner trim_ex_heap trim_ex_self "@@").2 =
    Raise (UnidiffParseError "bad hunk").
Proof.
  intros scanner.
  destruct (scan_diff_errors scanner trim_ex_heap trim_ex_self "@@" []
              (Some (UnidiffParseError "bad hunk")) eq_refl) as (Hparse & _).
  exact (proj1 (Hparse "bad hunk" eq_refl)).
Defined.

(** ** Orders and sorting *)

Section comparison_facts.
Context {K : Type} (cmp : K → K → comparison).
Hypothesis cmp_eq : ∀ a b, cmp a b = Eq → a = b.
Hypothesis cmp_opp : ∀ a b, cmp b a = CompOpp (cmp a b).
Hypothesis cmp_lt_trans : ∀ a b c, cmp a b = Lt → cmp b c = Lt → cmp a c = Lt.

Local Abbreviation ltb := (ltb_of cmp).

Lemma ltb_asym a b : ltb a b = true → ltb b a = false.
Proof using cmp_opp. unfold ltb_of. rewrite (cmp_opp a b). by destruct (cmp a b). Qed.

Lemma ltb_antisym a b : ltb a b = false → ltb b a = false → a = b.
Proof using cmp_eq cmp_opp.
  unfold ltb_of. rewrite (cmp_opp a b). destruct (cmp a b) eqn:Hc; try done.
  intros _ _. by apply cmp_eq.
Qed.

Lemma ltb_le_trans a b c : ltb b a = false → ltb c b = false → ltb c a = false.
Proof using cmp_eq cmp_opp cmp_lt_trans.
  unfold ltb_of. rewrite (cmp_opp a b), (cmp_opp b c), (cmp_opp a c).
  destruct (cmp a b) eqn:Hab; try done; destruct (cmp b c) eqn:Hbc; try done; intros _ _.
  - pose proof (cmp_eq _ _ Hab). pose proof (cmp_eq _ _ Hbc). subst.
    by rewrite Hab.
  - pose proof (cmp_eq _ _ Hab). subst. by rewrite Hbc.
  - pose proof (cmp_eq _ _ Hbc). subst. by rewrite Hab.
  - by rewrite (cmp_lt_trans a b c).
Qed.
End comparison_facts.

Section sorted_facts.
Context {A K : Type} (ltb : K → K → bool) (key : A → K).
Hypothesis ltb_asym : ∀ a b, ltb a b = true → ltb b a = false.
Hypothesis ltb_antisym : ∀ a b, ltb a b = false → ltb b a = false → a = b.
Hypothesis ltb_le_trans : ∀ a b c, ltb b a = false → ltb c b = false → ltb c a = false.

Local Abbreviation le := (key_le ltb key).

Lemma insert_by_Permutation x l : insert_by ltb key x l ≡ₚ x :: l.
Proof.
  induction l as [|y l IH]; simpl; [done|].
  case_match; [|done]. rewrite IH. apply Permutation_swap.
Qed.

Lemma sorted_by_Permutation l : sorted_by ltb key l ≡ₚ l.
Proof.
  induction l as [|x l IH]; simpl; [done|].
  by rewrite insert_by_Permutation, IH.
Qed.

Lemma insert_by_sorted x l :
  StronglySorted le l → StronglySorted le (insert_by ltb key x l).
Proof using ltb_asym ltb_le_trans.
  induction 1 as [|y l Hsorted IH Hall]; simpl.
  { repeat constructor. }
  destruct (ltb (key y) (key x)) eqn:Hyx.
  - constructor; [done|].
    rewrite insert_by_Permutation. constructor; [|done].
    unfold key_le. by apply ltb_asym.
  - constructor; [by constructor|].
    constructor; [done|].
    eapply Forall_impl; [exact Hall|]. intros z Hz. unfold key_le in *.
    by eapply ltb_le_trans.
Qed.

Lemma sorted_by_sorted l : StronglySorted le (sorted_by ltb key l).
Proof using ltb_asym ltb_le_trans.
  induction l as [|x l IH]; simpl; [constructor|]. by apply insert_by_sorted.
Qed.

End sorted_facts.

Lemma str_compare_eq a b : str_compare a b = Eq → a = b.
Proof.
  unfold str_compare. by destruct (OrdersEx.String_as_OT.compare_spec a b).
Qed.

Lemma str_compare_lt_trans a b c :
  str_compare a b = Lt → str_compare b c = Lt → str_compare a c = Lt.
Proof.
  apply (@StrictOrder_Transitive _ _ OrdersEx.String_as_OT.lt_strorder).
Qed.

Lemma str_compare_refl a : str_compare a a = Eq.
Proof.
  unfold str_compare. destruct (OrdersEx.String_as_OT.compare_spec a a) as [|Hlt|Hlt];
    [done| |]; by apply (@StrictOrder_Irreflexive _ _ OrdersEx.String_as_OT.lt_strorder) in Hlt.
Qed.

Lemma str_compare_opp a b : str_compare b a = CompOpp (str_compare a b).
Proof.
  pose proof (@StrictOrder_Irreflexive _ _ OrdersEx.String_as_OT.lt_strorder) as Hirr.
  pose proof (@StrictOrder_Transitive _ _ OrdersEx.String_as_OT.lt_strorder) as Htr.
  unfold str_compare.
  destruct (OrdersEx.String_as_OT.compare_spec a b) as [Hab|Hab|Hab],
    (OrdersEx.String_as_OT.compare_spec b a) as [Hba|Hba|Hba];
    simpl; try done; unfold OrdersEx.String_as_OT.eq in *; subst; exfalso.
  all: try (eapply Hirr; eassumption).
  all: eapply Hirr; eapply Htr; eassumption.
Qed.

Lemma key_compare_eq a b : key_compare a b = Eq → a = b.
Proof.
  destruct a as [[a1 a2] a3], b as [[b1 b2] b3]. unfold key_compare. simpl.
  destruct (Z.compare_spec a1 b1) as [->| |]; try done.
  destruct (str_compare a2 b2) eqn:H2; try done.
  intros H3. apply str_compare_eq in H2, H3. by subst.
Qed.

Lemma key_compare_opp a b : key_compare b a = CompOpp (key_compare a b).
Proof.
  destruct a as [[a1 a2] a3], b as [[b1 b2] b3]. unfold key_compare. simpl.
  rewrite (Z.compare_antisym a1 b1), (str_compare_opp a2 b2), (str_compare_opp a3 b3).
  destruct (a1 ?= b1); simpl; try done.
  destruct (str_compare a2 b2); simpl; done.
Qed.

Lemma key_compare_lt_trans a b c :
  key_compare a b = Lt → key_compare b c = Lt → key_compare a c = Lt.
Proof.
  destruct a as [[a1 a2] a3], b as [[b1 b2] b3], c as [[c1 c2] c3].
  unfold key_compare. simpl.
  destruct (Z.compare_spec a1 b1) as [->|Hab|Hab]; try done;
    destruct (Z.compare_spec b1 c1) as [->|Hbc|Hbc]; try done.
  - destruct (str_compare a2 b2) eqn:Hab2; try done;
      destruct (str_compare b2 c2) eqn:Hbc2; try done.
    + apply str_compare_eq in Hab2 as ->. apply str_compare_eq in Hbc2 as ->.
      rewrite str_compare_refl. apply str_compare_lt_trans.
    + apply str_compare_eq in Hab2 as ->. by rewrite Hbc2.
    + apply str_compare_eq in Hbc2 as ->. by rewrite Hab2.
    + by rewrite (str_compare_lt_trans a2 b2 c2).
  - intros _ _. by rewrite (proj2 (Z.compare_lt_iff _ _)) by lia.
  - intros _ _. by rewrite (proj2 (Z.compare_lt_iff _ _)) by lia.
Qed.

(** ** __iter__ *)

Section iter_facts.
Implicit Types (h : heap) (self : SecretsCollection).

Lemma str_ltb_asym a b : str_ltb a b = true → str_ltb b a = false.
Proof. apply (ltb_asym str_compare str_compare_opp). Qed.

Lemma str_ltb_antisym a b : str_ltb a b = false → str_ltb b a = false → a = b.
Proof. apply (ltb_antisym str_compare str_compare_eq str_compare_opp). Qed.

Lemma str_ltb_le_trans a b c :
  str_ltb b a = false → str_ltb c b = false → str_ltb c a = false.
Proof.
  apply (ltb_le_trans str_compare str_compare_eq str_compare_opp str_compare_lt_trans).
Qed.

Lemma key_ltb_asym a b : key_ltb a b = true → key_ltb b a = false.
Proof. apply (ltb_asym key_compare key_compare_opp). Qed.


Lemma key_ltb_le_trans a b c :
  key_ltb b a = false → key_ltb c b = false → key_ltb c a = false.
Proof.
  apply (ltb_le_trans key_compare key_compare_eq key_compare_opp key_compare_lt_trans).
Qed.

Lemma foldl_iter_file h self fs acc :
  Forall (λ f, f ∈ files self) fs →
  foldl (iter_file h) (acc, self) fs = (acc ++ mjoin (yield_file h self <$> fs), self).
Proof.
  revert acc. induction fs as [|f fs IH]; intros acc Hfs; cbn [foldl].
  { simpl. by rewrite app_nil_r. }
  apply Forall_cons in Hfs as [Hf Hfs].
  unfold iter_file at 2. rewrite getitem_files by done.
  rewrite IH by done. simpl. by rewrite <- app_assoc.
Qed.

Lemma iter_spec h self :
  __iter__ h self =
    (mjoin (yield_file h self <$> sorted_by str_ltb id (elements (files self))), self).
Proof.
  unfold __iter__. rewrite foldl_iter_file; [done|].
  apply Forall_forall. intros f.
  rewrite (sorted_by_Permutation str_ltb id), elem_of_elements. done.
Qed.

Lemma elem_of_yield_file h self f p :
  p ∈ yield_file h self f ↔ p.1 = f ∧ p.2 ∈ data self !!! f.
Proof.
  unfold yield_file. rewrite list_elem_of_fmap. split.
  - intros (l & -> & Hl). by rewrite sorted_by_Permutation in Hl.
  - intros [<- Hl]. exists p.2. split; [by destruct p|].
    by rewrite sorted_by_Permutation.
Qed.


(** The sort keys of the code order the fields as the specification
    says. *)
Lemma str_ltb_lt a b : str_ltb a b = true ↔ str_lt a b.
Proof.
  unfold str_ltb, ltb_of, str_compare, str_lt, OrdersEx.String_as_OT.lt.
  by destruct (OrdersEx.String_as_OT.compare a b).
Qed.

Lemma str_not_ltb a b : str_ltb b a = false → str_lt a b ∨ a = b.
Proof.
  intros Hba. destruct (str_ltb a b) eqn:Hab.
  - left. by apply str_ltb_lt.
  - right. by apply str_ltb_antisym.
Qed.

Lemma str_compare_Gt a b : str_compare b a = Gt → str_lt a b.
Proof.
  intros Hba. unfold str_lt, OrdersEx.String_as_OT.lt.
  fold (str_compare a b). by rewrite (str_compare_opp b a), Hba.
Qed.

Lemma key_le_display_le (s t : PotentialSecret) :
  key_ltb (display_key t) (display_key s) = false → display_le s t.
Proof.
  unfold key_ltb, ltb_of, key_compare, display_key, display_le. simpl.
  destruct (Z.compare_spec (default 0 (line_number t)) (default 0 (line_number s)))
    as [Hn|Hn|Hn]; [|done|by left].
  intros Hcmp. right. split; [done|].
  destruct (str_compare (secret_hash t) (secret_hash s)) eqn:Hh; [|done|].
  - apply str_compare_eq in Hh. right. split; [done|].
    destruct (str_compare (type t) (type s)) eqn:Ht; [|done|].
    + apply str_compare_eq in Ht. by right.
    + left. by apply str_compare_Gt.
  - left. by apply str_compare_Gt.
Qed.


End iter_facts.



(** ** __eq__ *)

Section eq_step.
Implicit Types (h : heap) (l la lb : loc).

(** What the comparison of the two dictionaries amounts to, once the raw
    values are gone and, in the first case, the line numbers too. *)
Lemma strict_compare_popped (sa sb : PotentialSecret) :
  line_number sa = Some 0 ∨ line_number sb = Some 0 →
  with_line_number None (with_secret_value None sa) =
    with_line_number None (with_secret_value None sb) ↔ strictly_same sa sb.
Proof.
  intros Hz. destruct sa, sb. unfold strictly_same, with_line_number, with_secret_value.
  simpl in *. split.
  - intros [= -> -> -> -> ->]. split_and!; try done. destruct Hz; auto.
  - intros (-> & -> & -> & -> & -> & _). done.
Qed.

Lemma strict_compare_kept (sa sb : PotentialSecret) :
  line_number sa ≠ Some 0 → line_number sb ≠ Some 0 →
  with_secret_value None sa = with_secret_value None sb ↔ strictly_same sa sb.
Proof.
  intros Ha Hb. destruct sa, sb. unfold strictly_same, with_secret_value.
  simpl in *. split.
  - intros [= -> -> -> -> -> ->]. split_and!; auto.
  - intros (-> & -> & -> & -> & -> & [?|[?| ->]]); congruence.
Qed.

(** One turn of the strict loop, on two different objects that still have
    all their attributes. *)
Lemma eq_secret_spec om la lb h :
  dict_get (hash_type (h la)) om = Some lb → la ≠ lb →
  is_Some (secret_value (h la)) → is_Some (line_number (h la)) →
  is_Some (secret_value (h lb)) → is_Some (line_number (h lb)) →
  ∃ h',
    eq_secret om tt la h =
      (h', Ret (if decide (strictly_same (h la) (h lb)) then Next tt
                else Return false)) ∧
    (∀ l, l ≠ la → l ≠ lb → h' l = h l) ∧
    (∀ l, identity (h' l) = identity (h l)).
Proof.
  intros Hget Hne [va Hva] [na Hna] [vb Hvb] [nb Hnb].
  unfold eq_secret, mbind, M_bind, get_heap. rewrite Hget.
  unfold pop_secret_value at 1. rewrite Hva.
  set (h1 := <[la := with_secret_value None (h la)]> h).
  assert (h1 la = with_secret_value None (h la)) as H1a by apply fn_lookup_insert.
  assert (h1 lb = h lb) as H1b by (by apply fn_lookup_insert_ne).
  unfold pop_secret_value. rewrite H1b, Hvb.
  set (h2 := <[lb := with_secret_value None (h lb)]> h1).
  assert (h2 lb = with_secret_value None (h lb)) as H2b by apply fn_lookup_insert.
  assert (h2 la = with_secret_value None (h la)) as H2a.
  { unfold h2. rewrite fn_lookup_insert_ne by done. done. }
  assert (line_number (h2 la) = Some na) as Hl2a by (by rewrite H2a).
  assert (line_number (h2 lb) = Some nb) as Hl2b by (by rewrite H2b).
  unfold item_line_number at 1. rewrite Hl2a.
  set (h3 := <[la := with_line_number None (h2 la)]> h2).
  set (h4 := <[lb := with_line_number None (h3 lb)]> h3).
  assert (h3 lb = h2 lb) as H3b by (by apply fn_lookup_insert_ne).
  assert (h4 la = with_line_number None (h2 la)) as H4a.
  { unfold h4. rewrite fn_lookup_insert_ne by done. apply fn_lookup_insert. }
  assert (h4 lb = with_line_number None (h2 lb)) as H4b.
  { unfold h4. rewrite fn_lookup_insert, H3b. done. }
  assert (∀ l, l ≠ la → l ≠ lb → h2 l = h l) as Hfr2.
  { intros l ? ?. unfold h2, h1. by rewrite !fn_lookup_insert_ne. }
  assert (∀ l, l ≠ la → l ≠ lb → h4 l = h l) as Hfr4.
  { intros l ? ?. unfold h4, h3. rewrite !fn_lookup_insert_ne by done. by apply Hfr2. }
  assert (∀ l, identity (h2 l) = identity (h l)) as Hid2.
  { intros l. destruct (decide (l = la)) as [->|?]; [by rewrite H2a|].
    destruct (decide (l = lb)) as [->|?]; [by rewrite H2b|]. by rewrite Hfr2. }
  assert (∀ l, identity (h4 l) = identity (h l)) as Hid4.
  { intros l. destruct (decide (l = la)) as [->|?]; [by rewrite H4a, H2a|].
    destruct (decide (l = lb)) as [->|?]; [by rewrite H4b, H2b|]. by rewrite Hfr4. }
  assert (pop_line_number la h2 = (h3, Ret tt)) as Hpop3.
  { unfold pop_line_number. by rewrite Hl2a. }
  assert (pop_line_number lb h3 = (h4, Ret tt)) as Hpop4.
  { unfold pop_line_number. rewrite H3b at 1. by rewrite Hl2b. }
  assert (∀ (X Y : PotentialSecret) (P : Prop) `{Decision P},
            (X = Y ↔ P) →
            (if decide (X ≠ Y) then (λ h0 : heap, (h0, Ret (Return false)))
             else (λ h0 : heap, (h0, Ret (Next tt)))) =
            (λ h0 : heap, (h0, Ret (if decide P then Next tt else Return false : flow unit bool))))
    as Hflow.
  { intros X Y P ? HP. repeat case_decide; try done; exfalso; tauto. }
  destruct (decide (na = 0)) as [->|Hna0].
  - exists h4. split_and!; [|done|done].
    unfold mret, M_ret. rewrite Hpop3, Hpop4.
    rewrite (Hflow _ _ (strictly_same (h la) (h lb)) _); [done|].
    rewrite H4a, H4b, H2a, H2b. apply strict_compare_popped. by left.
  - unfold item_line_number. rewrite Hl2b.
    unfold mret, M_ret. destruct (decide (nb = 0)) as [->|Hnb0].
    + rewrite bool_decide_eq_true_2 by done.
      exists h4. split_and!; [|done|done].
      rewrite Hpop3, Hpop4.
      rewrite (Hflow _ _ (strictly_same (h la) (h lb)) _); [done|].
      rewrite H4a, H4b, H2a, H2b. apply strict_compare_popped. by right.
    + rewrite bool_decide_eq_false_2 by done.
      exists h2. split_and!; [|done|done].
      rewrite (Hflow _ _ (strictly_same (h la) (h lb)) _); [done|].
      rewrite H2a, H2b. apply strict_compare_kept; congruence.
Qed.
End eq_step.

Section eq_loops.
Implicit Types (h : heap) (l la lb : loc) (a b : SecretsCollection).

Lemma NoDup_fmap_inj_on {A B} (f : A → B) (s : list A) x y :
  NoDup (f <$> s) → x ∈ s → y ∈ s → f x = f y → x = y.
Proof.
  intros Hnd [i Hi]%list_elem_of_lookup [j Hj]%list_elem_of_lookup Hf.
  assert (i = j) as ->; [|congruence].
  eapply NoDup_lookup; [exact Hnd| |]; rewrite list_lookup_fmap.
  - by rewrite Hi.
  - rewrite Hj. simpl. by rewrite Hf.
Qed.

Lemma hash_type_of_identity (s s' : PotentialSecret) :
  identity s = identity s' → hash_type s = hash_type s'.
Proof. unfold identity, hash_type. by intros [= _ -> ->]. Qed.

Lemma hash_type_map_ext h h' s :
  (∀ l, identity (h' l) = identity (h l)) → hash_type_map h' s = hash_type_map h s.
Proof.
  intros He. unfold hash_type_map. f_equal. apply list_fmap_ext.
  intros _ l _. by rewrite (hash_type_of_identity _ _ (He l)).
Qed.

Lemma identity_set_ext h h' s :
  (∀ l, identity (h' l) = identity (h l)) → identity_set h' s = identity_set h s.
Proof. intros He. unfold identity_set. by rewrite (keys_ext h h'). Qed.

Lemma hash_type_map_values h s :
  NoDup (hash_types h s) → dict_values (hash_type_map h s) = s.
Proof.
  intros Hnd. unfold hash_type_map, dict_values. rewrite dict_of_NoDup.
  - rewrite <- list_fmap_compose. by rewrite list_fmap_id.
  - by rewrite <- list_fmap_compose.
Qed.

Lemma hash_type_map_get h s l :
  NoDup (hash_types h s) → l ∈ s →
  dict_get (hash_type (h l)) (hash_type_map h s) = Some l.
Proof.
  intros Hnd Hl. apply dict_of_get_unique.
  - by rewrite <- list_fmap_compose.
  - apply list_elem_of_fmap. eauto.
Qed.

(** The strict loop over the secrets of one file. *)
Lemma eq_secrets_spec h0 sb :
  NoDup (hash_types h0 sb) →
  ∀ sa hc,
  NoDup (hash_types h0 sa) →
  (∀ la, la ∈ sa → hash_type (h0 la) ∈ hash_types h0 sb) →
  (∀ l, l ∈ sa → l ∉ sb) →
  (∀ l, l ∈ sa ∨ (l ∈ sb ∧ hash_type (h0 l) ∈ hash_types h0 sa) → hc l = h0 l) →
  (∀ l, identity (hc l) = identity (h0 l)) →
  (∀ l, l ∈ sa ∨ l ∈ sb →
        is_Some (secret_value (h0 l)) ∧ is_Some (line_number (h0 l))) →
  ∃ h' r,
    for_return sa (eq_secret (hash_type_map h0 sb)) tt hc = (h', Ret r) ∧
    (r = Next tt ∨ r = Return false) ∧
    (r = Next tt ↔
       ∀ la lb, la ∈ sa → lb ∈ sb → hash_type (h0 la) = hash_type (h0 lb) →
                strictly_same (h0 la) (h0 lb)) ∧
    (∀ l, identity (h' l) = identity (h0 l)) ∧
    (∀ l, l ∉ sa → l ∉ sb → h' l = hc l).
Proof.
  intros Hndb sa. induction sa as [|la sa IH];
    intros hc Hnda Hmatch Hdisj Hsame Hid Hintact.
  { exists hc, (Next tt). split_and!; auto.
    split; [|done]. intros _ la lb Hla. inversion Hla. }
  unfold hash_types in Hnda. rewrite fmap_cons in Hnda.
  apply NoDup_cons in Hnda as [Hfresh Hnda]. fold (hash_types h0 sa) in Hfresh, Hnda.
  assert (hash_type (h0 la) ∈ hash_types h0 sb) as Hm by (apply Hmatch; left).
  apply list_elem_of_fmap in Hm as (lb & Hhash & Hlb).
  assert (la ≠ lb) as Hne.
  { intros ->. apply (Hdisj lb); [left|done]. }
  assert (hc la = h0 la) as Hca by (apply Hsame; left; left).
  assert (hc lb = h0 lb) as Hcb.
  { apply Hsame. right. split; [done|]. rewrite <- Hhash.
    apply list_elem_of_fmap. exists la. split; [done|left]. }
  destruct (eq_secret_spec (hash_type_map h0 sb) la lb hc) as (h1 & Hrun1 & Hfr1 & Hid1).
  { rewrite Hca, Hhash. by apply hash_type_map_get. }
  { done. }
  { rewrite Hca. apply Hintact. left. left. }
  { rewrite Hca. apply Hintact. left. left. }
  { rewrite Hcb. apply Hintact. by right. }
  { rewrite Hcb. apply Hintact. by right. }
  rewrite Hca, Hcb in Hrun1.
  assert (∀ l, identity (h1 l) = identity (h0 l)) as Hid1'.
  { intros l. by rewrite Hid1. }
  cbn [for_return]. rewrite (bind_Ret _ _ _ _ _ Hrun1).
  destruct (decide (strictly_same (h0 la) (h0 lb))) as [Hsame1|Hdiff].
  - destruct (IH h1) as (h2 & r & Hrun2 & Hr & Hiff & Hid2 & Hfr2); auto.
    { intros la' Hla'. apply Hmatch. by right. }
    { intros l Hl. apply Hdisj. by right. }
    { intros l Hl. rewrite Hfr1; [apply Hsame|..].
      - destruct Hl as [Hl|[Hl Hk]]; [left; by right|right].
        split; [done|]. unfold hash_types. rewrite fmap_cons. by right.
      - intros ->. destruct Hl as [Hl|[Hl _]].
        + apply Hfresh. apply list_elem_of_fmap. eauto.
        + apply (Hdisj la); [left|done].
      - intros ->. destruct Hl as [Hl|[_ Hk]].
        + apply (Hdisj lb); [by right|done].
        + apply Hfresh. by rewrite Hhash. }
    { intros l Hl. apply Hintact. destruct Hl; [left; by right|by right]. }
    exists h2, r. split_and!; auto.
    + split.
      * intros Hnext la' lb' [->|Hla']%elem_of_cons Hlb' Heq.
        -- assert (lb' = lb) as ->; [|done].
           apply (NoDup_fmap_inj_on (λ l, hash_type (h0 l)) sb); auto. congruence.
        -- by apply (proj1 Hiff Hnext).
      * intros Hall. apply Hiff. intros la' lb' Hla'. apply Hall. by right.
    + intros l [Hl1 Hl2]%not_elem_of_cons Hl3. rewrite Hfr2 by done.
      apply Hfr1; [done|]. by intros ->.
  - exists h1, (Return false). split_and!; auto.
    + split; [done|]. intros Hall. exfalso. apply Hdiff.
      apply Hall; [left|done|done].
    + intros l [Hl1 Hl2]%not_elem_of_cons Hl3. apply Hfr1; [done|]. by intros ->.
Qed.
End eq_loops.

Section eq_files.
Implicit Types (h : heap) (l la lb : loc) (a b : SecretsCollection).

Lemma elem_of_files c f : f ∈ files c ↔ is_Some (data c !! f).
Proof. apply elem_of_dom. Qed.

Lemma eq_file_loose_spec h a b f sa sb :
  data a !! f = Some sa → data b !! f = Some sb →
  NoDup (hash_types h sa) → NoDup (hash_types h sb) →
  eq_file false (a, b) f h =
    (h, Ret (if decide (identity_set h sa = identity_set h sb)
             then Next (a, b) else Return false)).
Proof.
  intros Ha Hb Hnda Hndb. unfold eq_file.
  rewrite !getitem_files by (apply elem_of_files; eauto).
  rewrite (lookup_total_correct _ _ _ Ha), (lookup_total_correct _ _ _ Hb).
  unfold mbind, M_bind, get_heap. rewrite !hash_type_map_values by done.
  repeat case_decide; done.
Qed.

Lemma eq_file_strict_spec h0 a b f sa sb hc :
  data a !! f = Some sa → data b !! f = Some sb →
  NoDup (hash_types h0 sa) → NoDup (hash_types h0 sb) →
  (∀ l, l ∈ sa → l ∉ sb) →
  (∀ l, l ∈ sa ∨ l ∈ sb → hc l = h0 l) →
  (∀ l, identity (hc l) = identity (h0 l)) →
  (∀ l, l ∈ sa ∨ l ∈ sb →
        is_Some (secret_value (h0 l)) ∧ is_Some (line_number (h0 l))) →
  ∃ h' r,
    eq_file true (a, b) f hc = (h', Ret r) ∧
    (r = Next (a, b) ∨ r = Return false) ∧
    (r = Next (a, b) ↔
       identity_set h0 sa = identity_set h0 sb ∧
       ∀ la lb, la ∈ sa → lb ∈ sb → hash_type (h0 la) = hash_type (h0 lb) →
                strictly_same (h0 la) (h0 lb)) ∧
    (∀ l, identity (h' l) = identity (h0 l)) ∧
    (∀ l, l ∉ sa → l ∉ sb → h' l = hc l).
Proof.
  intros Ha Hb Hnda Hndb Hdisj Hsame Hid Hintact. unfold eq_file.
  rewrite !getitem_files by (apply elem_of_files; eauto).
  rewrite (lookup_total_correct _ _ _ Ha), (lookup_total_correct _ _ _ Hb).
  unfold mbind at 1, M_bind at 1, get_heap.
  rewrite !(hash_type_map_ext h0 hc) by done.
  rewrite !hash_type_map_values by done.
  rewrite !(identity_set_ext h0 hc) by done.
  destruct (decide (identity_set h0 sa ≠ identity_set h0 sb)) as [Hdiff|Heq].
  { exists hc, (Return false). split_and!; auto.
    split; [done|]. by intros [? _]. }
  apply dec_stable in Heq. simpl.
  destruct (eq_secrets_spec h0 sb Hndb sa hc) as (h' & r & Hrun & Hr & Hiff & Hid' & Hfr);
    auto.
  { intros la Hla.
    assert (identity (h0 la) ∈ identity_set h0 sb) as Hin.
    { rewrite <- Heq. unfold identity_set. rewrite elem_of_list_to_set.
      by apply keys_elem. }
    unfold identity_set in Hin. rewrite elem_of_list_to_set in Hin.
    apply list_elem_of_fmap in Hin as (lb & Hk & Hlb).
    apply list_elem_of_fmap. exists lb. split; [|done].
    by apply hash_type_of_identity. }
  { intros l [Hl|[Hl _]]; apply Hsame; auto. }
  rewrite (bind_Ret _ _ _ _ _ Hrun).
  destruct Hr as [->| ->].
  - exists h', (Next (a, b)). split_and!; auto.
    split; [|done]. intros _. split; [done|]. by apply Hiff.
  - exists h', (Return false). split_and!; auto.
    split; [done|]. intros [_ Hall]. by apply Hiff in Hall.
Qed.

(** The loop over the files, loose: the store is only read. *)
Lemma eq_files_loose h a b fs :
  (∀ f, f ∈ fs → f ∈ files a ∧ f ∈ files b) →
  (∀ f s, data a !! f = Some s → NoDup (hash_types h s)) →
  (∀ f s, data b !! f = Some s → NoDup (hash_types h s)) →
  ∃ r, for_return fs (eq_file false) (a, b) h = (h, Ret r) ∧
    (r = Next (a, b) ∨ r = Return false) ∧
    (r = Next (a, b) ↔
       ∀ f, f ∈ fs → identity_set h (data a !!! f) = identity_set h (data b !!! f)).
Proof.
  intros Hfs Hnda Hndb. induction fs as [|f fs IH].
  { exists (Next (a, b)). split_and!; auto. split; [|done].
    intros _ f Hf. inversion Hf. }
  destruct (Hfs f) as [[sa Ha]%elem_of_files [sb Hb]%elem_of_files]; [left|].
  cbn [for_return].
  erewrite bind_Ret by (eapply eq_file_loose_spec; eauto).
  destruct IH as (r & Hrun & Hr & Hiff).
  { intros f' Hf'. apply Hfs. by right. }
  rewrite <- (lookup_total_correct _ _ _ Ha), <- (lookup_total_correct _ _ _ Hb).
  case_decide as Hd.
  - exists r. split_and!; auto. rewrite Hiff. split.
    + intros Hall f' [->|Hf']%elem_of_cons; auto.
    + intros Hall f' Hf'. apply Hall. by right.
  - exists (Return false). split_and!; auto. split; [done|].
    intros Hall. exfalso. apply Hd, Hall. left.
Qed.

(** The loop over the files, strict: the objects of the files still to come
    are as they were at the start. *)
Lemma eq_files_strict h0 a b fs :
  NoDup fs →
  (∀ f, f ∈ fs → f ∈ files a ∧ f ∈ files b) →
  (∀ f s, data a !! f = Some s → NoDup (hash_types h0 s)) →
  (∀ f s, data b !! f = Some s → NoDup (hash_types h0 s)) →
  intact h0 a → intact h0 b → unshared a b →
  ∀ hc,
  (∀ f l, f ∈ fs → l ∈ data a !!! f ∨ l ∈ data b !!! f → hc l = h0 l) →
  (∀ l, identity (hc l) = identity (h0 l)) →
  ∃ h' r, for_return fs (eq_file true) (a, b) hc = (h', Ret r) ∧
    (r = Next (a, b) ∨ r = Return false) ∧
    (r = Next (a, b) ↔
       ∀ f, f ∈ fs →
         identity_set h0 (data a !!! f) = identity_set h0 (data b !!! f) ∧
         ∀ la lb, la ∈ data a !!! f → lb ∈ data b !!! f →
                  hash_type (h0 la) = hash_type (h0 lb) →
                  strictly_same (h0 la) (h0 lb)).
Proof.
  intros Hnd Hfs Hnda Hndb Hinta Hintb [Hshare Hdisj].
  induction fs as [|f fs IH]; intros hc Hsame Hid.
  { exists hc, (Next (a, b)). split_and!; auto. split; [|done].
    intros _ f Hf. inversion Hf. }
  apply NoDup_cons in Hnd as [Hf Hnd].
  destruct (Hfs f) as [[sa Ha]%elem_of_files [sb Hb]%elem_of_files]; [left|].
  pose proof (lookup_total_correct _ _ _ Ha) as Hta.
  pose proof (lookup_total_correct _ _ _ Hb) as Htb.
  destruct (eq_file_strict_spec h0 a b f sa sb hc) as
    (h1 & r1 & Hrun1 & Hr1 & Hiff1 & Hid1 & Hfr1); eauto.
  { intros l Hl. rewrite <- Hta in Hl. rewrite <- Htb. by apply Hdisj. }
  { intros l Hl. apply (Hsame f); [left|]. by rewrite Hta, Htb. }
  { intros l [Hl|Hl]; [apply Hinta|apply Hintb]; by exists f; eauto. }
  cbn [for_return]. rewrite (bind_Ret _ _ _ _ _ Hrun1).
  rewrite <- Hta, <- Htb in Hiff1.
  destruct Hr1 as [->| ->].
  - destruct (IH Hnd) with (hc := h1) as (h2 & r2 & Hrun2 & Hr2 & Hiff2); auto.
    { intros f' Hf'. apply Hfs. by right. }
    { intros f' l Hf' Hl. rewrite Hfr1.
      - apply (Hsame f'); [by right|done].
      - intros Hla. apply Hf. rewrite <- Hta in Hla.
        by rewrite (Hshare f f' l) by auto.
      - intros Hlb. apply Hf. rewrite <- Htb in Hlb.
        by rewrite (Hshare f f' l) by auto. }
    exists h2, r2. split_and!; auto. rewrite Hiff2. split.
    + intros Hall f' [->|Hf']%elem_of_cons; [by apply Hiff1|by apply Hall].
    + intros Hall f' Hf'. apply Hall. by right.
  - exists h1, (Return false). split_and!; auto. split; [done|].
    intros Hall. exfalso. assert (Return false = Next (a, b)) as Habs; [|done].
    apply Hiff1, Hall. left.
Qed.
End eq_files.

Section eq_sets.
Implicit Types (h : heap) (l la lb : loc) (a b c : SecretsCollection).

(** Collections that keep every object under its own path, in Python
    sets, have one object per (fingerprint, type) in each set. *)
Lemma proper_hash_types h c :
  proper_sets h c → stored_under_path h c → one_per_hash_type h c.
Proof.
  intros Hset Hpath f s Hs.
  replace (hash_types h s) with ((λ k : string * string * string, (k.1.2, k.2)) <$> keys h s).
  2:{ unfold keys, hash_types. by rewrite <- list_fmap_compose. }
  apply NoDup_fmap_2_strong; [|by apply (Hset f)].
  intros k1 k2 (l1 & -> & Hl1)%list_elem_of_fmap (l2 & -> & Hl2)%list_elem_of_fmap.
  unfold identity. simpl. intros [= Hh Ht].
  by rewrite (Hpath f s l1), (Hpath f s l2), Hh, Ht.
Qed.

Lemma elem_of_identity_set h s k :
  k ∈ identity_set h s ↔ ∃ l, l ∈ s ∧ identity (h l) = k.
Proof.
  unfold identity_set, keys. rewrite elem_of_list_to_set, list_elem_of_fmap.
  naive_solver.
Qed.

(** Equal sets of identities per file, in the words of the specification. *)
Lemma loosely_equal_files h a b :
  files a = files b →
  (∀ f, f ∈ elements (files a) →
        identity_set h (data a !!! f) = identity_set h (data b !!! f)) ↔
  (∀ f k, (∃ l, l ∈ data a !!! f ∧ identity (h l) = k) ↔
          (∃ l, l ∈ data b !!! f ∧ identity (h l) = k)).
Proof.
  intros Hfiles. split.
  - intros Hall f k. rewrite <- !elem_of_identity_set.
    destruct (decide (f ∈ files a)) as [Hin|Hnin].
    + rewrite Hall; [done|]. by apply elem_of_elements.
    + assert (f ∉ files b) as Hninb by (by rewrite <- Hfiles).
      unfold files in Hnin, Hninb. apply not_elem_of_dom in Hnin, Hninb.
      by rewrite !lookup_total_alt, Hnin, Hninb.
  - intros Hall f _. apply set_eq. intros k. rewrite !elem_of_identity_set.
    apply Hall.
Qed.

(** In a set with one object per (fingerprint, type), under equal sets of
    identities, a match on (fingerprint, type) is a match on the identity. *)
Lemma hash_type_match_identity h sa sb la lb :
  NoDup (hash_types h sb) →
  identity_set h sa = identity_set h sb →
  la ∈ sa → lb ∈ sb → hash_type (h la) = hash_type (h lb) →
  identity (h la) = identity (h lb).
Proof.
  intros Hnd Heq Hla Hlb Hk.
  assert (identity (h la) ∈ identity_set h sb) as Hin.
  { rewrite <- Heq. apply elem_of_identity_set. eauto. }
  apply elem_of_identity_set in Hin as (lb' & Hlb' & Hid).
  assert (lb' = lb) as ->; [|done].
  apply list_elem_of_lookup in Hlb' as [i Hi]. apply list_elem_of_lookup in Hlb as [j Hj].
  assert (i = j) as ->; [|congruence].
  apply (NoDup_lookup (hash_types h sb) i j (hash_type (h lb))); [done| |].
  - unfold hash_types. rewrite list_lookup_fmap, Hi. simpl.
    by rewrite (hash_type_of_identity _ _ Hid), Hk.
  - unfold hash_types. by rewrite list_lookup_fmap, Hj.
Qed.
End eq_sets.

(** C3, as the code has it.  For collections whose sets hold one object
    per (fingerprint, type): [a == b] returns, leaves the store as it is,
    and holds iff the two have the same files and, per file, the same set
    of identities, whatever the line numbers and audit fields.  When in
    addition the objects still have their [secret_value] and [line_number]
    and no object sits twice (in two files, or in both collections),
    [exactly_equals] returns, and it answers [True] iff the collections are
    loosely equal and every identity-matched pair agrees on type, path,
    fingerprint, [is_secret] and [is_verified], and on the line number
    unless one of the two is zero.  So a loosely equal pair of collections
    is not strictly equal when some matched pair has two different non-zero
    line numbers, and it is strictly equal when the matched pairs agree on
    the audit fields and differ in line number only where one is zero. *)
Theorem eq_loose_and_strict (h : heap) (a b : SecretsCollection) :
  one_per_hash_type h a → one_per_hash_type h b →
  (∃ r, __eq__ a b false h = (h, Ret r) ∧ (r = true ↔ loosely_equal h a b)) ∧
  (intact h a → intact h b → unshared a b →
   ∃ h' r, exactly_equals a b h = (h', Ret r) ∧
     (r = true ↔
        loosely_equal h a b ∧
        ∀ la lb, matched h a b la lb → strictly_same (h la) (h lb)) ∧
     (loosely_equal h a b →
      (∃ la lb, matched h a b la lb ∧
         line_number (h la) ≠ line_number (h lb) ∧
         line_number (h la) ≠ Some 0 ∧ line_number (h lb) ≠ Some 0) →
      r = false) ∧
     (loosely_equal h a b →
      (∀ la lb, matched h a b la lb →
         is_secret (h la) = is_secret (h lb) ∧
         is_verified (h la) = is_verified (h lb) ∧
         (line_number (h la) ≠ line_number (h lb) →
          line_number (h la) = Some 0 ∨ line_number (h lb) = Some 0)) →
      r = true)).
Proof.
  intros Hnda Hndb. split.
  - unfold __eq__. destruct (decide (files a ≠ files b)) as [Hneq|Heq].
    { exists false. split; [done|]. split; [done|]. by intros [? _]. }
    apply dec_stable in Heq.
    destruct (eq_files_loose h a b (elements (files a))) as (r & Hrun & Hr & Hiff); auto.
    { intros f Hf%elem_of_elements. split; [done|]. by rewrite <- Heq. }
    rewrite (bind_Ret _ _ _ _ _ Hrun).
    rewrite (loosely_equal_files h a b Heq) in Hiff.
    destruct Hr as [->| ->].
    + exists true. split; [done|]. split; [|done]. intros _. split; [done|].
      by apply Hiff.
    + exists false. split; [done|]. split; [done|]. intros [_ Hall].
      by apply Hiff in Hall.
  - intros Hinta Hintb Hun.
    assert (∃ h' r, exactly_equals a b h = (h', Ret r) ∧
              (r = true ↔
                 loosely_equal h a b ∧
                 ∀ la lb, matched h a b la lb → strictly_same (h la) (h lb)))
      as (h' & r & Hrun & Hiff).
    { unfold exactly_equals, __eq__.
      destruct (decide (files a ≠ files b)) as [Hneq|Heq].
      { exists h, false. split; [done|]. split; [done|]. by intros [[? _] _]. }
      apply dec_stable in Heq.
      destruct (eq_files_strict h a b (elements (files a))) with (hc := h)
        as (h' & r & Hrun & Hr & Hiff); auto.
      { apply NoDup_elements. }
      { intros f Hf%elem_of_elements. split; [done|]. by rewrite <- Heq. }
      rewrite (bind_Ret _ _ _ _ _ Hrun).
      assert (r = Next (a, b) ↔
                loosely_equal h a b ∧
                ∀ la lb, matched h a b la lb → strictly_same (h la) (h lb)) as Hiff'.
      { rewrite Hiff. split.
        - intros Hall. split.
          + split; [done|]. apply (loosely_equal_files h a b Heq).
            intros f Hf. by apply Hall.
          + intros la lb (f & Hla & Hlb & Hk).
            apply (Hall f); auto.
            * apply elem_of_elements.
              apply lookup_total_elem in Hla as (s & Hs & _).
              apply elem_of_files. eauto.
            * by apply hash_type_of_identity.
        - intros [[_ Hloose] Hall] f Hf.
          assert (identity_set h (data a !!! f) = identity_set h (data b !!! f))
            as Hsets by (by apply (loosely_equal_files h a b Heq)).
          split; [done|].
          intros la lb Hla Hlb Hk. apply Hall. exists f. split_and!; [done..|].
          apply (hash_type_match_identity h (data a !!! f) (data b !!! f));
            [|done..].
          assert (f ∈ files b) as [sb Hsb]%elem_of_files.
          { rewrite <- Heq. by apply elem_of_elements. }
          rewrite (lookup_total_correct _ _ _ Hsb). by apply (Hndb f). }
      destruct Hr as [->| ->].
      + exists h', true. split; [done|]. split; [|done]. intros _. by apply Hiff'.
      + exists h', false. split; [done|]. split; [done|]. intros Hall.
        by apply Hiff' in Hall. }
    exists h', r. split_and!; [done|done| |].
    + intros Hloose (la & lb & Hm & Hne & Hza & Hzb).
      destruct r; [|done]. exfalso.
      assert (strictly_same (h la) (h lb)) as (_ & _ & _ & _ & _ & Hln).
      { by apply (proj1 Hiff eq_refl). }
      destruct Hln as [?|[?|?]]; done.
    + intros Hloose Hall. apply Hiff. split; [done|].
      intros la lb Hm. destruct (Hall la lb Hm) as (Hs & Hv & Hln).
      destruct Hm as (f & Hla & Hlb & Hk).
      unfold identity in Hk. injection Hk as Hf Hh Ht.
      unfold strictly_same. split_and!; try done.
      destruct (decide (line_number (h la) = line_number (h lb))); auto.
      destruct (Hln ltac:(done)); auto.
Qed.

(** Membership in the one set of a collection with a single file. *)
Ltac one_file_set H :=
  let s := fresh "s" in
  let Hs := fresh "Hs" in
  apply lookup_total_elem in H as (s & Hs & H); simpl in Hs;
  apply lookup_singleton_Some in Hs as [? <-]; subst;
  apply list_elem_of_singleton in H.

Ltac one_file_lookup H :=
  simpl in H; apply lookup_singleton_Some in H as [? <-]; subst.

Lemma eq_ex_one_per_hash_type l :
  one_per_hash_type eq_ex_heap (mkSecretsCollection {[ "a.py" := [l] ]} "").
Proof. intros f s Hs. one_file_lookup Hs. apply NoDup_singleton. Qed.

Lemma eq_ex_intact l : intact eq_ex_heap (mkSecretsCollection {[ "a.py" := [l] ]} "").
Proof.
  intros l' _. unfold eq_ex_heap. destruct l' as [|[|[|l']]]; split; by eexists.
Qed.

Lemma eq_ex_unshared l1 l2 :
  l1 ≠ l2 →
  unshared (mkSecretsCollection {[ "a.py" := [l1] ]} "")
           (mkSecretsCollection {[ "a.py" := [l2] ]} "").
Proof.
  intros Hne. split.
  - intros f1 f2 l [H1|H1] [H2|H2]; one_file_set H1; one_file_set H2; done.
  - intros f l H1 H2. one_file_set H1. one_file_set H2. congruence.
Qed.

(** C3 as stated fails: the two collections are loosely equal, their one
    matched pair differs in line number and one of the two line numbers is
    zero, but the pair differs in [is_verified] as well, and
    [exactly_equals] answers [False]. *)
Lemma strict_equality_counterexample :
  (__eq__ eq_ex_a eq_ex_c false eq_ex_heap).2 = Ret true ∧
  matched eq_ex_heap eq_ex_a eq_ex_c 1%nat 3%nat ∧
  line_number (eq_ex_heap 1%nat) ≠ line_number (eq_ex_heap 3%nat) ∧
  (∀ la lb, matched eq_ex_heap eq_ex_a eq_ex_c la lb →
     line_number (eq_ex_heap la) ≠ line_number (eq_ex_heap lb) →
     line_number (eq_ex_heap la) = Some 0 ∨ line_number (eq_ex_heap lb) = Some 0) ∧
  (exactly_equals eq_ex_a eq_ex_c eq_ex_heap).2 = Ret false.
Proof.
  split_and!.
  - vm_compute. reflexivity.
  - exists "a.py". unfold eq_ex_a, eq_ex_c. simpl.
    rewrite !lookup_total_singleton_eq. split_and!; [left|left|reflexivity].
  - simpl. congruence.
  - intros la lb (f & Hla & Hlb & _) _. unfold eq_ex_c in Hlb. one_file_set Hlb.
    subst lb. by right.
  - vm_compute. reflexivity.
Qed.

Lemma eq_loose_and_strict_witness :
  (∃ r, __eq__ eq_ex_a eq_ex_b false eq_ex_heap = (eq_ex_heap, Ret r) ∧
        (r = true ↔ loosely_equal eq_ex_heap eq_ex_a eq_ex_b)) ∧
  (∃ h' r, exactly_equals eq_ex_a eq_ex_b eq_ex_heap = (h', Ret r) ∧
     (r = true ↔
        loosely_equal eq_ex_heap eq_ex_a eq_ex_b ∧
        ∀ la lb, matched eq_ex_heap eq_ex_a eq_ex_b la lb →
                 strictly_same (eq_ex_heap la) (eq_ex_heap lb))).
Proof.
  destruct (eq_loose_and_strict eq_ex_heap eq_ex_a eq_ex_b) as [Hloose Hstrict].
  - apply eq_ex_one_per_hash_type.
  - apply eq_ex_one_per_hash_type.
  - split; [exact Hloose|].
    destruct Hstrict as (h' & r & Hrun & Hiff & _).
    + apply eq_ex_intact.
    + apply eq_ex_intact.
    + apply eq_ex_unshared. lia.
    + exists h', r. split; [exact Hrun|exact Hiff].
Defined.

(** ** trim on a file of both collections *)

Lemma elem_of_fileset (filelist : option (list string)) (f : string) :
  f ∈ (match filelist with
       | None | Some [] => ∅
       | Some filelist => list_to_set filelist
       end : gset string) ↔ in_filelist filelist f.
Proof.
  unfold in_filelist. destruct filelist as [[|f0 fl]|].
  - split; [set_solver|]. intros (fl & [= <-] & Hin). inversion Hin.
  - rewrite elem_of_list_to_set. naive_solver.
  - split; [set_solver|]. by intros (fl & ? & _).
Qed.

(** A set of [result], once created, has an element. *)
Lemma trim_secret_nonempty f m (result : gmap string (list loc)) r h h' result' :
  trim_secret f m result r h = (h', Ret result') →
  result !! f = None ∨ (∃ e, e ∈ result !!! f) →
  result' !! f = None ∨ (∃ e, e ∈ result' !!! f).
Proof.
  unfold trim_secret, mbind, M_bind, get_heap.
  destruct (dict_get (identity (h r)) m) as [e|].
  2:{ unfold mret, M_ret. by intros [= <- <-]. }
  destruct (get_line_number e h) as [hc2 [n|?]]; [|done].
  match goal with
  | |- context [let (_, _) := ?c hc2 in _] => destruct (c hc2) as [hc3 [[]|?]]; [|done]
  end.
  destruct (defaultdict_get result f) as [sr res'].
  unfold mret, M_ret. intros [= <- <-] _. right.
  destruct (set_add_has_identity hc3 e sr) as (e' & He' & _).
  exists e'. by rewrite lookup_total_insert_eq.
Qed.

Lemma for_each_trim_secret_nonempty f m rs (result : gmap string (list loc)) h h' result' :
  for_each rs (trim_secret f m) result h = (h', Ret result') →
  result !! f = None ∨ (∃ e, e ∈ result !!! f) →
  result' !! f = None ∨ (∃ e, e ∈ result' !!! f).
Proof.
  revert result h. induction rs as [|r rs IH]; intros result h.
  { by intros [= <- <-]. }
  cbn [for_each]. unfold mbind at 1, M_bind at 1.
  destruct (trim_secret f m result r h) as [h1 [result1|e]] eqn:Hstep; [|done].
  intros Hrest Hinv. apply (IH _ _ Hrest).
  by apply (trim_secret_nonempty _ _ _ _ _ _ _ Hstep).
Qed.

(** X21. What [trim] leaves under a file that both collections have: the
    elements of [self] whose identity the scanned set has; but when there
    is no such element and the file is not in the file list, the whole set
    of [self]. *)
Lemma trim_common_file (path_exists : string → bool) (h : heap)
    (self scanned : SecretsCollection) (filelist : option (list string))
    (f : string) (s rs : list loc) :
  data self !! f = Some s → data scanned !! f = Some rs →
  NoDup (keys h s) → NoDup (keys h rs) →
  (∀ l, holds self l → is_Some (line_number (h l))) →
  (∀ l, holds scanned l → is_Some (line_number (h l))) →
  ∃ h' self',
    trim path_exists self (Some scanned) filelist h = (h', Ret (self', scanned)) ∧
    ∀ l, l ∈ data self' !!! f ↔
      l ∈ s ∧
      (identity (h l) ∈ keys h rs ∨
       ((∀ e, e ∈ s → identity (h e) ∉ keys h rs) ∧ ¬ in_filelist filelist f)).
Proof.
  intros Hs Hrs Hnds Hndr Hpself Hpsc.
  assert (f ∈ files self) as Hfself by (apply elem_of_dom; eauto).
  assert (f ∈ files scanned) as Hfsc by (apply elem_of_dom; eauto).
  assert (f ∈ elements (files scanned)) as Hf by (by apply elem_of_elements).
  apply list_elem_of_split in Hf as (pre & post & Hsplit).
  assert (NoDup (pre ++ f :: post)) as Hnd.
  { rewrite <- Hsplit. apply NoDup_elements. }
  apply NoDup_app in Hnd as (_ & Hpre & Hpost).
  apply NoDup_cons in Hpost as [Hpost _].
  assert (Forall (λ f, f ∈ files scanned) (pre ++ f :: post)) as Hall.
  { rewrite <- Hsplit. apply Forall_forall. intros f' Hf'.
    by apply elem_of_elements in Hf'. }
  apply Forall_app in Hall as [Hall1 Hall2].
  apply Forall_cons in Hall2 as [_ Hall2].
  destruct (trim_scanned_files_spec self scanned pre ∅ h Hall1 Hpself Hpsc) as
    (h1 & result1 & Hrun1 & Hline1 & Hpres1 & _ & Hres1 & _ & _).
  assert (∀ l, identity (h1 l) = identity (h l)) as Hid1.
  { intros l. by apply same_but_line_identity. }
  assert (result1 !! f = None) as Hnone.
  { rewrite Hres1, lookup_empty; [done|]. intros Hin. apply (Hpre f Hin). left. }
  assert (result1 !!! f = []) as Hempty by (by rewrite lookup_total_alt, Hnone).
  assert (∀ l, l ∈ s → is_Some (line_number (h1 l))) as Hp1s.
  { intros l Hl. apply Hpres1, Hpself. by exists f, s. }
  assert (∀ l, l ∈ rs → is_Some (line_number (h1 l))) as Hp1r.
  { intros l Hl. apply Hpres1, Hpsc. by exists f, rs. }
  destruct (trim_inner_spec h s f rs result1 h1 Hid1 Hp1s Hp1r) as
    (h2 & result2 & Hrun2 & Hline2 & Hpres2 & _ & Hres2 & Hsub2 & _).
  destruct (trim_scanned_files_spec self scanned post result2 h2 Hall2) as
    (h3 & result3 & Hrun3 & _ & _ & _ & Hres3 & _ & _).
  { intros l Hl. apply Hpres2, Hpres1, Hpself, Hl. }
  { intros l Hl. apply Hpres2, Hpres1, Hpsc, Hl. }
  set (fileset := match filelist with
                  | None | Some [] => ∅
                  | Some filelist => list_to_set filelist
                  end : gset string).
  destruct (foldl_trim_own_file fileset self (elements (files self)) result3)
    as (result4 & Hrun4 & Hres4).
  { apply Forall_forall. intros f'. by rewrite elem_of_elements. }
  exists h3, (with_data result4 self). split.
  { assert (for_each (elements (files scanned)) trim_scanned_file
              (self, scanned, ∅) h = (h3, Ret (self, scanned, result3))) as Hfirst.
    { rewrite Hsplit. erewrite for_each_app by exact Hrun1. cbn [for_each].
      assert (trim_scanned_file (self, scanned, result1) f h1 =
                (h2, Ret (self, scanned, result2))) as Hstep.
      { rewrite trim_scanned_file_spec by done.
        rewrite (lookup_total_correct _ _ _ Hs), (lookup_total_correct _ _ _ Hrs).
        rewrite (secret_map_ext h h1) by done.
        by rewrite (bind_Ret _ _ _ _ _ Hrun2). }
      by rewrite (bind_Ret _ _ _ _ _ Hstep). }
    unfold trim. fold fileset. rewrite (bind_Ret _ _ _ _ _ Hfirst).
    by rewrite Hrun4. }
  (* the set the first loop built for [f] *)
  assert (∀ l, l ∈ result3 !!! f ↔ l ∈ s ∧ identity (h l) ∈ keys h rs) as Hinter.
  { intros l. rewrite lookup_total_alt, Hres3, <- lookup_total_alt by done. split.
    - intros [Hl|Hl]%Hsub2; [|done]. rewrite Hempty in Hl. inversion Hl.
    - intros [Hl Hk]. apply list_elem_of_fmap in Hk as (r & Hk & Hr).
      eapply (trim_inner_hit h s f rs l r); eauto.
      intros l'. rewrite Hempty. intros Hl'. inversion Hl'. }
  intros l. simpl. rewrite lookup_total_alt, Hres4.
  destruct (result3 !! f) as [s3|] eqn:Hs3.
  - pose proof (lookup_total_correct _ _ _ Hs3) as Ht3. rewrite Ht3 in Hinter.
    simpl. rewrite Hinter. split; [intros [? ?]; auto|].
    intros [Hl [Hk|[Hno _]]]; [done|].
    (* a set, once created, has an element *)
    exfalso.
    assert (result2 !! f = Some s3) as Hs2 by (by rewrite <- Hres3).
    destruct (for_each_trim_secret_nonempty f (secret_map h s) rs result1 h1 h2 result2)
      as [Hn|[e He]]; [done|by left|congruence|].
    apply Hsub2 in He as [He|[He Hk]].
    + rewrite Hempty in He. inversion He.
    + by apply (Hno e).
  - case_decide as Hd.
    + rewrite Hs. simpl. split.
      * intros Hl. split; [done|]. right. split.
        -- intros e He Hk. assert (e ∈ result3 !!! f) as Hin by (by apply Hinter).
           rewrite lookup_total_alt, Hs3 in Hin. inversion Hin.
        -- intros Hfl. apply Hd. by apply elem_of_fileset.
      * by intros [? _].
    + split; [intros Hl; inversion Hl|].
      intros [Hl [Hk|[Hno Hfl]]].
      * assert (l ∈ result3 !!! f) as Hin by (by apply Hinter).
        rewrite lookup_total_alt, Hs3 in Hin. inversion Hin.
      * exfalso. apply Hd. split; [by apply elem_of_elements|].
        intros Hin. by apply Hfl, elem_of_fileset.
Qed.

(** * Further properties *)

(** ** __len__ and __bool__ *)

Lemma map_to_list_files (self : SecretsCollection) :
  map_to_list (data self) ≡ₚ (λ f, (f, data self !!! f)) <$> elements (files self).
Proof.
  apply NoDup_Permutation.
  - apply NoDup_map_to_list.
  - apply NoDup_fmap_2; [|apply NoDup_elements]. by intros f1 f2 [= ->].
  - intros [f s]. rewrite elem_of_map_to_list, list_elem_of_fmap. split.
    + intros Hs. exists f. rewrite (lookup_total_correct _ _ _ Hs).
      split; [done|]. apply elem_of_elements, elem_of_dom. eauto.
    + intros (f' & [= -> ->] & Hf'%elem_of_elements).
      unfold files in Hf'. by apply lookup_lookup_total_dom.
Qed.

Lemma sum_list_Permutation (l1 l2 : list nat) : l1 ≡ₚ l2 → sum_list l1 = sum_list l2.
Proof. induction 1; simpl; lia. Qed.

Lemma len_files (self : SecretsCollection) :
  __len__ self =
    sum_list ((λ f, length (data self !!! f)) <$> elements (files self)).
Proof.
  unfold __len__. erewrite sum_list_Permutation.
  2:{ rewrite map_to_list_files. reflexivity. }
  by rewrite <- !list_fmap_compose.
Qed.

Lemma elem_of_iter (h : heap) (self : SecretsCollection) f l :
  (f, l) ∈ (__iter__ h self).1 ↔ l ∈ data self !!! f.
Proof.
  rewrite iter_spec. simpl. rewrite list_elem_of_join. split.
  - intros (ys & Hin & Hys). apply list_elem_of_fmap in Hys as (f' & -> & Hf').
    by apply elem_of_yield_file in Hin as [<- ?].
  - intros Hl. exists (yield_file h self f). split.
    + by apply elem_of_yield_file.
    + apply list_elem_of_fmap. exists f. split; [done|].
      rewrite (sorted_by_Permutation str_ltb id), elem_of_elements.
      apply lookup_total_elem in Hl as (s & Hs & _). apply elem_of_files. eauto.
Qed.

(** X1. [len(self)] is the number of pairs a full iteration yields. *)
Theorem len_counts_iteration (h : heap) (self : SecretsCollection) :
  length (__iter__ h self).1 = __len__ self.
Proof.
  rewrite iter_spec, len_files. simpl. rewrite length_join.
  rewrite <- list_fmap_compose.
  erewrite sum_list_Permutation.
  2:{ apply fmap_Permutation. apply (sorted_by_Permutation str_ltb id). }
  f_equal. apply list_fmap_ext. intros _ f _. simpl.
  unfold yield_file. rewrite length_fmap.
  apply Permutation_length, sorted_by_Permutation.
Qed.

(** X2. [bool(self)] hands back the collection as it was and is true iff
    the collection holds a potential secret, that is iff [len(self)] is
    positive: file keys with empty sets do not count. *)
Theorem bool_iff_holds_secret (h : heap) (self : SecretsCollection) :
  (__bool__ h self).2 = self ∧
  ((__bool__ h self).1 = true ↔ ∃ l, holds self l) ∧
  ((__bool__ h self).1 = true ↔ (0 < __len__ self)%nat).
Proof.
  unfold __bool__. pose proof (len_counts_iteration h self) as Hlen.
  pose proof (elem_of_iter h self) as Hin.
  rewrite iter_spec in *. simpl in *.
  set (yielded := mjoin _) in *. split_and!; [done| |].
  - split.
    + destruct yielded as [|[f l] ys]; [done|]. intros _. exists l.
      assert (l ∈ data self !!! f) as Hl by (apply Hin; left).
      apply lookup_total_elem in Hl as (s & Hs & Hl). by exists f, s.
    + intros (l & f & s & Hs & Hl).
      assert ((f, l) ∈ yielded) as Hy.
      { apply Hin. by rewrite (lookup_total_correct _ _ _ Hs). }
      destruct yielded; [inversion Hy|done].
  - rewrite <- Hlen. destruct yielded; simpl; split; (done || lia).
Qed.

(** ** __sub__ *)

Lemma sub_lookup (h : heap) (A B : SecretsCollection) :
  ∃ output, __sub__ h A B = (A, B, output) ∧
    ∀ f, data output !! f =
      match data A !! f with
      | Some s =>
          Some (if decide (f ∈ files B) then set_difference h s (data B !!! f)
                else s)
      | None => None
      end.
Proof.
  unfold __sub__.
  destruct (foldl_sub_other_file h A B (elements (files B)) empty_collection)
    as (out1 & -> & Hout1).
  { apply Forall_forall. intros f. by rewrite elem_of_elements. }
  destruct (foldl_sub_self_file A B (elements (files A)) out1)
    as (out2 & -> & Hout2).
  { apply Forall_forall. intros f. by rewrite elem_of_elements. }
  exists out2. split; [done|]. intros f. rewrite Hout2, Hout1.
  destruct (data A !! f) as [s|] eqn:Hs.
  - assert (f ∈ files A) as HA by (apply elem_of_files; eauto).
    destruct (decide (f ∈ files B)) as [HB|HB].
    + rewrite decide_False by (intros [_ ?]; done).
      rewrite decide_True by (split; [by apply elem_of_elements|done]).
      by rewrite (lookup_total_correct _ _ _ Hs).
    + by rewrite decide_True by (split; [by apply elem_of_elements|done]).
  - assert (f ∉ files A) as HA.
    { intros [? ?]%elem_of_files. congruence. }
    rewrite decide_False by (intros [?%elem_of_elements _]; done).
    by rewrite decide_False by (intros [_ ?]; done).
Qed.

Lemma lookup_total_of_lookup (d1 d2 : gmap string (list loc)) f :
  d1 !! f = d2 !! f → d1 !!! f = d2 !!! f.
Proof. intros He. by rewrite !lookup_total_alt, He. Qed.

Lemma filter_none {A} (P : A → Prop) `{∀ x, Decision (P x)} (l : list A) :
  (∀ x, x ∈ l → ¬ P x) → filter P l = [].
Proof.
  induction l as [|x l IH]; intros Hl; [done|].
  rewrite filter_cons, decide_False by (apply Hl; left).
  apply IH. intros y Hy. apply Hl. by right.
Qed.

Lemma filter_all {A} (P : A → Prop) `{∀ x, Decision (P x)} (l : list A) :
  (∀ x, x ∈ l → P x) → filter P l = l.
Proof.
  induction l as [|x l IH]; intros Hl; [done|].
  rewrite filter_cons, decide_True by (apply Hl; left).
  f_equal. apply IH. intros y Hy. apply Hl. by right.
Qed.

Lemma set_difference_self (h : heap) (s : list loc) : set_difference h s s = [].
Proof.
  unfold set_difference. apply filter_none.
  intros l Hl Hn. by apply Hn, keys_elem.
Qed.

Lemma set_difference_twice (h : heap) (s1 s2 : list loc) :
  set_difference h (set_difference h s1 s2) s2 = set_difference h s1 s2.
Proof.
  unfold set_difference. apply filter_all.
  by intros l [? _]%list_elem_of_filter.
Qed.

Lemma len_empty_sets (c : SecretsCollection) :
  (∀ f, data c !!! f = []) → __len__ c = 0%nat.
Proof.
  intros He. rewrite len_files.
  induction (elements (files c)) as [|f fs IH]; simpl; [done|].
  rewrite He. simpl. exact IH.
Qed.

(** X3. [A - A] keeps every file key of [A], each with an empty set: its
    length is zero and it is false as a boolean, although it still has
    files. *)
Theorem sub_self_has_empty_files (h : heap) (A : SecretsCollection) :
  ∃ output, __sub__ h A A = (A, A, output) ∧
    files output = files A ∧
    (∀ f, f ∈ files A → data output !! f = Some []) ∧
    __len__ output = 0%nat ∧
    (__bool__ h output).1 = false.
Proof.
  destruct (sub_lookup h A A) as (output & Hrun & Hout).
  exists output. split; [done|].
  assert (∀ f, f ∈ files A → data output !! f = Some []) as Hempty.
  { intros f Hf. rewrite Hout. pose proof Hf as [s Hs]%elem_of_files.
    rewrite Hs, decide_True by done.
    by rewrite (lookup_total_correct _ _ _ Hs), set_difference_self. }
  assert (∀ f, data output !!! f = []) as Hnil.
  { intros f. rewrite lookup_total_alt. destruct (decide (f ∈ files A)) as [Hf|Hf].
    - by rewrite Hempty.
    - rewrite Hout. unfold files in Hf. apply not_elem_of_dom in Hf. by rewrite Hf. }
  assert (__len__ output = 0%nat) as Hlen by (by apply len_empty_sets).
  split_and!; [|done|done|].
  - apply set_eq. intros f. rewrite !elem_of_files, Hout.
    destruct (data A !! f); split; intros [? ?]; (done || eauto).
  - destruct (__bool__ h output).1 eqn:Hb; [|done].
    apply (bool_iff_holds_secret h output) in Hb. lia.
Qed.

(** X4. Subtracting a collection without files gives the files and sets of
    [A] back, and subtracting from a collection without files gives one
    without files. *)
Theorem sub_empty_collection (h : heap) (A : SecretsCollection) :
  (∃ output, __sub__ h A empty_collection = (A, empty_collection, output) ∧
     data output = data A) ∧
  (∃ output, __sub__ h empty_collection A = (empty_collection, A, output) ∧
     data output = ∅).
Proof.
  split.
  - destruct (sub_lookup h A empty_collection) as (output & Hrun & Hout).
    exists output. split; [done|]. apply map_eq. intros f. rewrite Hout.
    destruct (data A !! f); [|done].
    rewrite decide_False; [done|]. unfold files. simpl. set_solver.
  - destruct (sub_lookup h empty_collection A) as (output & Hrun & Hout).
    exists output. split; [done|]. apply map_eq. intros f. rewrite Hout.
    simpl. by rewrite !lookup_empty.
Qed.

(** X5. Subtracting the same collection a second time changes nothing:
    [(A - B) - B] has the files and sets of [A - B]. *)
Theorem sub_twice (h : heap) (A B : SecretsCollection) :
  ∃ out1 out2,
    __sub__ h A B = (A, B, out1) ∧ __sub__ h out1 B = (out1, B, out2) ∧
    data out2 = data out1.
Proof.
  destruct (sub_lookup h A B) as (out1 & Hrun1 & Hout1).
  destruct (sub_lookup h out1 B) as (out2 & Hrun2 & Hout2).
  exists out1, out2. split_and!; [done|done|].
  apply map_eq. intros f. rewrite Hout2, Hout1.
  destruct (data A !! f) as [s|]; [|done].
  case_decide; [|done]. by rewrite set_difference_twice.
Qed.

(** ** __eq__ *)

Lemma bind_Raise' {A B} (m : M A) (k : A → M B) (h h' : heap) (e : exn) :
  m h = (h', Raise e) → (m ≫= k) h = (h', Raise e).
Proof. unfold mbind, M_bind. by intros ->. Qed.

Section eq_more.
Implicit Types (h : heap) (l : loc) (a b : SecretsCollection).

(** The loose comparison of one file reads the store only through the
    identities of its objects. *)
Lemma eq_file_loose_ext h h' a b f :
  (∀ l, identity (h' l) = identity (h l)) →
  ∃ r, eq_file false (a, b) f h = (h, Ret r) ∧
       eq_file false (a, b) f h' = (h', Ret r).
Proof.
  intros Hid. unfold eq_file.
  destruct (__getitem__ a f) as [sa a'], (__getitem__ b f) as [sb b'].
  unfold mbind, M_bind, get_heap.
  rewrite !(hash_type_map_ext h h') by done.
  rewrite !(identity_set_ext h h') by done.
  case_decide; eexists; split; reflexivity.
Qed.

Lemma eq_file_loose_flow h a b f :
  ∃ r, eq_file false (a, b) f h = (h, Ret r) ∧
       (r = Return false ∨ ∃ a' b', r = Next (a', b')).
Proof.
  unfold eq_file.
  destruct (__getitem__ a f) as [sa a'], (__getitem__ b f) as [sb b'].
  unfold mbind, M_bind, get_heap.
  case_decide; eexists; (split; [reflexivity|]); eauto.
Qed.

Lemma eq_files_loose_ext h h' fs a b :
  (∀ l, identity (h' l) = identity (h l)) →
  ∃ r, for_return fs (eq_file false) (a, b) h = (h, Ret r) ∧
       for_return fs (eq_file false) (a, b) h' = (h', Ret r).
Proof.
  intros Hid. revert a b. induction fs as [|f fs IH]; intros a b.
  { eexists. split; reflexivity. }
  destruct (eq_file_loose_ext h h' a b f Hid) as (r & Hr & Hr').
  cbn [for_return]. rewrite (bind_Ret _ _ _ _ _ Hr), (bind_Ret _ _ _ _ _ Hr').
  destruct r as [[a' b']|v]; [apply IH|].
  eexists. split; reflexivity.
Qed.

Lemma eq_loose_ext h h' a b :
  (∀ l, identity (h' l) = identity (h l)) →
  ∃ r, __eq__ a b false h = (h, Ret r) ∧ __eq__ a b false h' = (h', Ret r).
Proof.
  intros Hid. unfold __eq__. case_decide.
  { eexists. split; reflexivity. }
  destruct (eq_files_loose_ext h h' (elements (files a)) a b Hid) as (r & Hr & Hr').
  rewrite (bind_Ret _ _ _ _ _ Hr), (bind_Ret _ _ _ _ _ Hr').
  destruct r; eexists; split; reflexivity.
Qed.

Lemma eq_files_loose_refl h a fs :
  (∀ f, f ∈ fs → f ∈ files a) →
  for_return fs (eq_file false) (a, a) h = (h, Ret (Next (a, a))).
Proof.
  intros Hfs. induction fs as [|f fs IH]; [done|].
  cbn [for_return].
  assert (eq_file false (a, a) f h = (h, Ret (Next (a, a)))) as Hstep.
  { unfold eq_file. rewrite !getitem_files by (apply Hfs; left).
    unfold mbind, M_bind, get_heap. by rewrite decide_False by (by intros ?). }
  rewrite (bind_Ret _ _ _ _ _ Hstep). apply IH. intros f' Hf'. apply Hfs. by right.
Qed.
End eq_more.

(** X6. A collection is loosely equal to itself and not unequal to itself,
    whatever it holds, and the comparison leaves the store as it is. *)
Theorem eq_loose_reflexive (h : heap) (a : SecretsCollection) :
  __eq__ a a false h = (h, Ret true) ∧ __ne__ a a h = (h, Ret false).
Proof.
  assert (__eq__ a a false h = (h, Ret true)) as Heq.
  { unfold __eq__. rewrite decide_False by (by intros ?).
    assert (∀ f, f ∈ elements (files a) → f ∈ files a) as Hfs.
    { intros f. by rewrite elem_of_elements. }
    by rewrite (bind_Ret _ _ _ _ _ (eq_files_loose_refl h a _ Hfs)). }
  split; [done|]. unfold __ne__. by rewrite (bind_Ret _ _ _ _ _ Heq).
Qed.

(** X7. [merge] and any other change of audit fields or line numbers does
    not change what [==] answers: the loose comparison of any two
    collections gives the same result in two stores whose objects have the
    same identities, and in particular before and after a merge. *)
Theorem eq_loose_unchanged_by_merge (h : heap) (self old_results a b : SecretsCollection) :
  let h' := ((merge h self old_results).1.1) in
  ∃ r, __eq__ a b false h = (h, Ret r) ∧ __eq__ a b false h' = (h', Ret r).
Proof.
  intros h'. apply eq_loose_ext. intros l. unfold h', merge.
  destruct (foldl_merge_file (elements (files old_results)) h self old_results)
    as (h2 & -> & Haud & _).
  { apply Forall_forall. intros f Hf. by apply elem_of_elements in Hf. }
  simpl. by apply same_but_audit_identity.
Qed.

Section eq_more2.
Implicit Types (h : heap) (l : loc) (a b : SecretsCollection).

(** Loose equality of collections whose sets hold one object per
    (fingerprint, type): same files, same set of identities per file. *)
Lemma eq_loose_iff h a b :
  (∀ f s, data a !! f = Some s → NoDup (hash_types h s)) →
  (∀ f s, data b !! f = Some s → NoDup (hash_types h s)) →
  ∃ r, __eq__ a b false h = (h, Ret r) ∧
    (r = true ↔
       files a = files b ∧
       ∀ f, identity_set h (data a !!! f) = identity_set h (data b !!! f)).
Proof.
  intros Hnda Hndb. unfold __eq__.
  destruct (decide (files a ≠ files b)) as [Hneq|Heq].
  { exists false. split; [done|]. split; [done|]. by intros [? _]. }
  apply dec_stable in Heq.
  destruct (eq_files_loose h a b (elements (files a))) as (r & Hrun & Hr & Hiff); auto.
  { intros f Hf%elem_of_elements. split; [done|]. by rewrite <- Heq. }
  rewrite (bind_Ret _ _ _ _ _ Hrun).
  assert (r = Next (a, b) ↔
            ∀ f, identity_set h (data a !!! f) = identity_set h (data b !!! f))
    as Hiff'.
  { rewrite Hiff. split; [|by auto]. intros Hall f.
    destruct (decide (f ∈ files a)) as [Hin|Hnin].
    - apply Hall. by apply elem_of_elements.
    - assert (f ∉ files b) as Hninb by (by rewrite <- Heq).
      unfold files in Hnin, Hninb. apply not_elem_of_dom in Hnin, Hninb.
      by rewrite !lookup_total_alt, Hnin, Hninb. }
  destruct Hr as [->| ->].
  - exists true. split; [done|]. split; [|done]. intros _. split; [done|].
    by apply Hiff'.
  - exists false. split; [done|]. split; [done|]. intros [_ Hall].
    by apply Hiff' in Hall.
Qed.

Lemma bind_get_heap {B} (k : heap → M B) h : (get_heap ≫= k) h = k h h.
Proof. done. Qed.

(** The strict loop on a secret compared with itself. *)
Lemma eq_secret_self om la h :
  dict_get (hash_type (h la)) om = Some la →
  ∃ h', eq_secret om tt la h = (h', Raise (KeyError "secret_value")).
Proof.
  intros Hget. unfold eq_secret, mbind, M_bind, get_heap. rewrite Hget.
  unfold pop_secret_value. destruct (secret_value (h la)) eqn:Hv.
  - rewrite fn_lookup_insert. simpl. by eexists.
  - by eexists.
Qed.

Lemma eq_file_strict_self h a f :
  f ∈ files a → NoDup (hash_types h (data a !!! f)) →
  (data a !!! f = [] → eq_file true (a, a) f h = (h, Ret (Next (a, a)))) ∧
  (data a !!! f ≠ [] →
   ∃ h', eq_file true (a, a) f h = (h', Raise (KeyError "secret_value"))).
Proof.
  intros Hf Hnd. unfold eq_file. rewrite !getitem_files by done.
  rewrite bind_get_heap.
  rewrite decide_False by (by intros ?). cbn [negb].
  rewrite hash_type_map_values by done. split.
  - intros ->. done.
  - destruct (data a !!! f) as [|la s] eqn:Hs; [done|]. intros _.
    cbn [for_return].
    destruct (eq_secret_self (hash_type_map h (la :: s)) la h) as (h' & Hrun).
    { apply hash_type_map_get; [done|left]. }
    exists h'. by rewrite (bind_Raise' _ _ _ _ _ (bind_Raise' _ _ _ _ _ Hrun)).
Qed.

Lemma eq_files_strict_self h a fs :
  (∀ f, f ∈ fs → f ∈ files a) →
  (∀ f s, data a !! f = Some s → NoDup (hash_types h s)) →
  ((∀ f, f ∈ fs → data a !!! f = []) →
   for_return fs (eq_file true) (a, a) h = (h, Ret (Next (a, a)))) ∧
  ((∃ f, f ∈ fs ∧ data a !!! f ≠ []) →
   ∃ h', for_return fs (eq_file true) (a, a) h = (h', Raise (KeyError "secret_value"))).
Proof.
  intros Hfs Hnd. induction fs as [|f fs IH].
  { split; [done|]. intros (f & Hf & _). inversion Hf. }
  destruct IH as [IHnil IHsome].
  { intros f' Hf'. apply Hfs. by right. }
  assert (f ∈ files a) as Hf by (apply Hfs; left).
  destruct (eq_file_strict_self h a f Hf) as [Hnil Hsome].
  { pose proof Hf as [s Hs]%elem_of_files.
    rewrite (lookup_total_correct _ _ _ Hs). by apply (Hnd f). }
  cbn [for_return]. split.
  - intros Hall. rewrite (bind_Ret _ _ _ _ _ (Hnil (Hall f ltac:(left)))).
    apply IHnil. intros f' Hf'. apply Hall. by right.
  - intros (f' & Hf' & Hne).
    destruct (decide (data a !!! f = [])) as [He|He].
    + rewrite (bind_Ret _ _ _ _ _ (Hnil He)). apply IHsome.
      apply elem_of_cons in Hf' as [->|Hf']; [done|]. eauto.
    + destruct (Hsome He) as (h' & Hrun). exists h'.
      by rewrite (bind_Raise' _ _ _ _ _ Hrun).
Qed.
End eq_more2.

(** X8. A strict comparison of a collection with itself never answers:
    as soon as the collection holds a potential secret, the two
    dictionaries the loop compares are the same one, the second
    [pop('secret_value')] finds the key gone, and the call raises
    [KeyError].  The sets hold one object per (fingerprint, type). *)
Theorem exactly_equals_self_raises (h : heap) (a : SecretsCollection) :
  (∀ f s, data a !! f = Some s → NoDup (hash_types h s)) →
  (∃ l, holds a l) →
  (exactly_equals a a h).2 = Raise (KeyError "secret_value").
Proof.
  intros Hnd (l & f & s & Hs & Hl).
  unfold exactly_equals, __eq__. rewrite decide_False by (by intros ?).
  destruct (eq_files_strict_self h a (elements (files a))) as [_ Hsome]; auto.
  { intros f'. by rewrite elem_of_elements. }
  destruct Hsome as (h' & Hrun).
  { exists f. split.
    - apply elem_of_elements, elem_of_files. eauto.
    - rewrite (lookup_total_correct _ _ _ Hs). intros ->. inversion Hl. }
  by rewrite (bind_Raise' _ _ _ _ _ Hrun).
Qed.

Lemma exactly_equals_self_raises_witness :
  (exactly_equals eq_ex_a eq_ex_a eq_ex_heap).2 = Raise (KeyError "secret_value").
Proof.
  apply (exactly_equals_self_raises eq_ex_heap eq_ex_a).
  - intros f s Hs. one_file_lookup Hs. apply NoDup_singleton.
  - exists 1%nat, "a.py", [1%nat]. split; [reflexivity|left].
Defined.

(** X9. Loose equality is symmetric: [a == b] and [b == a] give the same
    answer, for collections whose sets hold one object per (fingerprint,
    type). *)
Theorem eq_loose_symmetric (h : heap) (a b : SecretsCollection) :
  (∀ f s, data a !! f = Some s → NoDup (hash_types h s)) →
  (∀ f s, data b !! f = Some s → NoDup (hash_types h s)) →
  __eq__ a b false h = __eq__ b a false h.
Proof.
  intros Hnda Hndb.
  destruct (eq_loose_iff h a b Hnda Hndb) as (r1 & -> & Hiff1).
  destruct (eq_loose_iff h b a Hndb Hnda) as (r2 & -> & Hiff2).
  f_equal. f_equal. destruct r1, r2; try done.
  - symmetry. apply Hiff2. destruct (proj1 Hiff1 eq_refl) as [Hf Hs]. by split.
  - apply Hiff1. destruct (proj1 Hiff2 eq_refl) as [Hf Hs]. by split.
Qed.

Lemma eq_loose_symmetric_witness :
  __eq__ eq_ex_a eq_ex_b false eq_ex_heap = __eq__ eq_ex_b eq_ex_a false eq_ex_heap.
Proof.
  apply (eq_loose_symmetric eq_ex_heap eq_ex_a eq_ex_b).
  - intros f s Hs. one_file_lookup Hs. apply NoDup_singleton.
  - intros f s Hs. one_file_lookup Hs. apply NoDup_singleton.
Defined.

(** X10. When [a == b] holds, [a - b] has no potential secret left: every
    set of the difference is empty and the difference is false as a
    boolean.  The sets hold one object per (fingerprint, type). *)
Theorem eq_then_sub_is_empty (h : heap) (a b : SecretsCollection) :
  (∀ f s, data a !! f = Some s → NoDup (hash_types h s)) →
  (∀ f s, data b !! f = Some s → NoDup (hash_types h s)) →
  (__eq__ a b false h).2 = Ret true →
  ∃ output, __sub__ h a b = (a, b, output) ∧
    (∀ f, data output !!! f = []) ∧ (__bool__ h output).1 = false.
Proof.
  intros Hnda Hndb Heq.
  destruct (eq_loose_iff h a b Hnda Hndb) as (r & Hrun & Hiff).
  rewrite Hrun in Heq. injection Heq as ->.
  destruct (proj1 Hiff eq_refl) as [Hfiles Hsets].
  destruct (sub_lookup h a b) as (output & Hsub & Hout).
  exists output. split; [done|].
  assert (∀ f, data output !!! f = []) as Hnil.
  { intros f. rewrite lookup_total_alt, Hout.
    destruct (data a !! f) as [s|] eqn:Hs; [|done]. simpl.
    rewrite decide_True by (rewrite <- Hfiles; apply elem_of_files; eauto).
    apply filter_none. intros l Hl Hn. apply Hn.
    assert (identity (h l) ∈ identity_set h (data b !!! f)) as Hin.
    { rewrite <- Hsets, (lookup_total_correct _ _ _ Hs).
      apply elem_of_identity_set. eauto. }
    unfold identity_set in Hin. by rewrite elem_of_list_to_set in Hin. }
  split; [done|].
  destruct (__bool__ h output).1 eqn:Hb; [|done].
  apply (bool_iff_holds_secret h output) in Hb.
  rewrite (len_empty_sets output Hnil) in Hb. lia.
Qed.

Lemma eq_then_sub_is_empty_witness :
  ∃ output, __sub__ eq_ex_heap eq_ex_a eq_ex_b = (eq_ex_a, eq_ex_b, output) ∧
    (∀ f, data output !!! f = []) ∧ (__bool__ eq_ex_heap output).1 = false.
Proof.
  apply (eq_then_sub_is_empty eq_ex_heap eq_ex_a eq_ex_b).
  - intros f s Hs. one_file_lookup Hs. apply NoDup_singleton.
  - intros f s Hs. one_file_lookup Hs. apply NoDup_singleton.
  - vm_compute. reflexivity.
Defined.

(** ** merge *)

Lemma insert_by_ext {A K} (ltb : K → K → bool) (key key' : A → K) x l :
  (∀ y, key' y = key y) → insert_by ltb key' x l = insert_by ltb key x l.
Proof.
  intros Hk. induction l as [|y l IH]; simpl; [done|].
  by rewrite !Hk, IH.
Qed.

Lemma sorted_by_ext {A K} (ltb : K → K → bool) (key key' : A → K) l :
  (∀ y, key' y = key y) → sorted_by ltb key' l = sorted_by ltb key l.
Proof.
  intros Hk. induction l as [|x l IH]; simpl; [done|].
  by rewrite IH, (insert_by_ext ltb key key').
Qed.

Section merge_more.
Implicit Types (h : heap) (l cur : loc).

Lemma audit_grows_refl s : audit_grows s s.
Proof. by split. Qed.

Lemma audit_grows_trans s1 s2 s3 :
  audit_grows s1 s2 → audit_grows s2 s3 → audit_grows s1 s3.
Proof. intros [H1 H2] [H3 H4]. split; auto. Qed.

Lemma merge_secret_grows mapping h o l :
  audit_grows (h l) (merge_secret mapping h o l).
Proof.
  destruct (decide (dict_get (identity (h o)) mapping = Some l)) as [Hg|Hg].
  - rewrite merge_secret_hit by done. unfold merged, audit_grows.
    destruct (h l) as [? ? ? ? ? [?|] [|]], (h o) as [? ? ? ? ? ? ?]; simpl;
      split; intros; simplify_eq; done.
  - rewrite merge_secret_other by done. apply audit_grows_refl.
Qed.

Lemma foldl_merge_secret_grows mapping olds h l :
  audit_grows (h l) (foldl (merge_secret mapping) h olds l).
Proof.
  revert h. induction olds as [|o olds IH]; intros h; simpl.
  - apply audit_grows_refl.
  - eapply audit_grows_trans; [apply (merge_secret_grows mapping h o)|apply IH].
Qed.

Lemma foldl_merge_file_grows fs h self old :
  Forall (λ f, f ∈ files old) fs →
  ∀ l, audit_grows (h l) ((foldl merge_file (h, self, old) fs).1.1 l).
Proof.
  revert h. induction fs as [|f fs IH]; intros h Hfs l; cbn [foldl].
  { apply audit_grows_refl. }
  apply Forall_cons in Hfs as [Hf Hfs].
  rewrite merge_file_spec by done.
  eapply audit_grows_trans; [|by apply IH].
  case_decide; [apply foldl_merge_secret_grows|apply audit_grows_refl].
Qed.

Lemma merge_heap_audit h self old :
  ∀ l, same_but_audit (h l) ((merge h self old).1.1 l).
Proof.
  unfold merge.
  destruct (foldl_merge_file (elements (files old)) h self old) as (h' & -> & Haud & _).
  { apply Forall_forall. intros f Hf. by apply elem_of_elements in Hf. }
  done.
Qed.
End merge_more.

(** X11. [merge] never takes audit information away, from any object and
    under any sharing of objects between the two collections: an object
    that was verified is still verified, and an [is_secret] that was known
    keeps its value. *)
Theorem merge_never_clears (h : heap) (self old_results : SecretsCollection) (l : loc) :
  let h' := ((merge h self old_results).1.1) in
  (is_verified (h l) = true → is_verified (h' l) = true) ∧
  (∀ b, is_secret (h l) = Some b → is_secret (h' l) = Some b).
Proof.
  apply (foldl_merge_file_grows (elements (files old_results)) h self old_results).
  apply Forall_forall. intros f Hf. by apply elem_of_elements in Hf.
Qed.

(** X12. [merge] writes matched objects only: an object of [self] whose
    identity the old set of its file does not have (or whose file the old
    results do not have) is left exactly as it was, when it sits in no
    other set of [self]. *)
Theorem merge_leaves_unmatched (h : heap) (self old_results : SecretsCollection)
    (f : string) (s : list loc) (cur : loc) :
  data self !! f = Some s → cur ∈ s →
  (∀ olds, data old_results !! f = Some olds → identity (h cur) ∉ keys h olds) →
  (∀ f' s', f' ≠ f → data self !! f' = Some s' → cur ∉ s') →
  ((merge h self old_results).1.1) cur = h cur.
Proof.
  intros Hs Hcur Hnomatch Halias.
  assert (Forall (λ f, f ∈ files old_results) (elements (files old_results))) as Hall.
  { apply Forall_forall. intros f' Hf'. by apply elem_of_elements in Hf'. }
  destruct (decide (f ∈ files old_results)) as [Hf|Hf].
  - pose proof Hf as [olds Ho]%elem_of_files.
    apply elem_of_elements, list_elem_of_split in Hf as (pre & post & Hsplit).
    assert (NoDup (pre ++ f :: post)) as Hnd.
    { rewrite <- Hsplit. apply NoDup_elements. }
    apply NoDup_app in Hnd as (_ & Hpre & Hpost).
    apply NoDup_cons in Hpost as [Hpost _].
    rewrite Hsplit in Hall. apply Forall_app in Hall as [Hall1 Hall2].
    apply Forall_cons in Hall2 as [Hf Hall2].
    unfold merge. rewrite Hsplit, foldl_app. cbn [foldl].
    destruct (foldl_merge_file pre h self old_results Hall1)
      as (h1 & -> & Haud1 & Hfr1).
    rewrite merge_file_spec by done.
    rewrite decide_True by (apply elem_of_files; eauto).
    rewrite (lookup_total_correct _ _ _ Hs), (lookup_total_correct _ _ _ Ho).
    set (h2 := foldl _ h1 olds).
    destruct (foldl_merge_file post h2 self old_results Hall2)
      as (h3 & -> & Haud3 & Hfr3).
    simpl. rewrite Hfr3.
    2:{ intros f' s' Hin Hs'. apply (Halias f' s'); [|done]. by intros ->. }
    unfold h2. rewrite (secret_map_ext h h1).
    2:{ intros l. by apply same_but_audit_identity. }
    rewrite foldl_merge_secret_unmatched.
    + apply Hfr1. intros f' s' Hin Hs'. apply (Halias f' s'); [|done].
      intros ->. apply (Hpre f Hin). left.
    + intros l. by apply same_but_audit_identity.
    + by apply Hnomatch.
  - unfold merge.
    destruct (foldl_merge_file _ h self old_results Hall) as (h1 & -> & _ & Hfr1).
    simpl. apply Hfr1. intros f' s' Hin%elem_of_elements Hs'.
    apply (Halias f' s'); [|done]. by intros ->.
Qed.

Lemma merge_leaves_unmatched_witness :
  ((merge trim_ex_heap trim_ex_self trim_ex_scanned).1.1) 1%nat = trim_ex_heap 1%nat.
Proof.
  apply (merge_leaves_unmatched trim_ex_heap trim_ex_self trim_ex_scanned
           "a.py" [1%nat] 1%nat).
  - reflexivity.
  - left.
  - intros olds Hs. one_file_lookup Hs. vm_compute.
    intros Hin. inversion Hin as [|? ? ? Hin']; subst; inversion Hin'.
  - intros f' s' Hne Hs'. simpl in Hs'.
    rewrite lookup_singleton_ne in Hs' by done. discriminate.
Defined.

(** X13. [merge] does not reorder anything: a full iteration of any
    collection yields the same sequence after the merge as before, the
    display key being made of fields [merge] does not write. *)
Theorem iter_unchanged_by_merge (h : heap) (self old_results c : SecretsCollection) :
  __iter__ ((merge h self old_results).1.1) c = __iter__ h c.
Proof.
  rewrite !iter_spec. f_equal. f_equal. apply list_fmap_ext. intros _ f _.
  unfold yield_file. f_equal. apply sorted_by_ext. intros l.
  destruct (merge_heap_audit h self old_results l) as (Ht & _ & Hh & _ & Hl).
  unfold display_key. by rewrite Ht, Hh, Hl.
Qed.

(** ** trim *)

Section trim_more.
Implicit Types (h : heap) (l : loc) (result : gmap string (list loc)).

(** A run of [trim] on given scanned results: the first loop builds
    [result3], the second completes it to the new [data]. *)
Lemma trim_run path_exists h self scanned filelist :
  (∀ l, holds self l → is_Some (line_number (h l))) →
  (∀ l, holds scanned l → is_Some (line_number (h l))) →
  ∃ h' result3 result4,
    trim path_exists self (Some scanned) filelist h =
      (h', Ret (with_data result4 self, scanned)) ∧
    for_each (elements (files scanned)) trim_scanned_file (self, scanned, ∅) h =
      (h', Ret (self, scanned, result3)) ∧
    (∀ f, result4 !! f =
       match result3 !! f with
       | Some s => Some s
       | None =>
           if decide (f ∈ files self ∧ f ∉ fileset_of filelist)
           then data self !! f else None
       end).
Proof.
  intros Hpself Hpsc.
  destruct (trim_scanned_files_spec self scanned (elements (files scanned)) ∅ h)
    as (h' & result3 & Hrun & _); auto.
  { apply Forall_forall. intros f. by rewrite elem_of_elements. }
  destruct (foldl_trim_own_file (fileset_of filelist) self (elements (files self)) result3)
    as (result4 & Hrun4 & Hres4).
  { apply Forall_forall. intros f'. by rewrite elem_of_elements. }
  exists h', result3, result4. split_and!; [|done|].
  - unfold trim. rewrite (bind_Ret _ _ _ _ _ Hrun).
    unfold fileset_of in Hrun4. by rewrite Hrun4.
  - intros f. rewrite Hres4. destruct (result3 !! f); [done|].
    apply decide_ext. by rewrite elem_of_elements.
Qed.

(** The first loop never leaves an empty set in [result]. *)
Lemma trim_scanned_files_nonempty self scanned fs result h h' result' :
  Forall (λ f, f ∈ files scanned) fs →
  (∀ l, holds self l → is_Some (line_number (h l))) →
  (∀ l, holds scanned l → is_Some (line_number (h l))) →
  for_each fs trim_scanned_file (self, scanned, result) h =
    (h', Ret (self, scanned, result')) →
  (∀ f, result !! f = None ∨ ∃ e, e ∈ result !!! f) →
  (∀ f, result' !! f = None ∨ ∃ e, e ∈ result' !!! f).
Proof.
  revert result h. induction fs as [|f0 fs IH]; intros result h Hfs Hpself Hpsc.
  { by intros [= <- <-]. }
  apply Forall_cons in Hfs as [Hf0 Hfs].
  destruct (trim_scanned_files_spec self scanned [f0] result h) as
    (h1 & result1 & Hrun1 & _ & Hpres1 & _).
  { by apply Forall_singleton. }
  { done. }
  { done. }
  cbn [for_each] in Hrun1. cbn [for_each].
  unfold mbind at 1, M_bind at 1 in Hrun1. unfold mbind at 1, M_bind at 1.
  destruct (trim_scanned_file (self, scanned, result) f0 h) as [h1' [st1|e]] eqn:Hstep;
    [|done].
  unfold mret, M_ret in Hrun1. injection Hrun1 as -> ->.
  intros Hrest Hinv. apply (IH result1 h1); auto.
  intros f. unfold trim_scanned_file in Hstep. case_decide as Hin.
  2:{ unfold mret, M_ret in Hstep. injection Hstep as <- <-. apply Hinv. }
  rewrite !getitem_files in Hstep by done. rewrite bind_get_heap in Hstep.
  unfold mbind, M_bind in Hstep.
  destruct (for_each _ _ result h) as [h2 [result2|e]] eqn:Hinner; [|done].
  unfold mret, M_ret in Hstep. injection Hstep as <- <-.
  destruct (decide (f = f0)) as [->|Hne].
  - by apply (for_each_trim_secret_nonempty _ _ _ _ _ _ _ Hinner).
  - pose proof Hin as [s Hs]%elem_of_files. pose proof Hf0 as [rs Hrs]%elem_of_files.
    rewrite (lookup_total_correct _ _ _ Hs), (lookup_total_correct _ _ _ Hrs) in Hinner.
    destruct (trim_inner_spec h s f0 rs result h) as
      (h3 & result3 & Hrun3 & _ & _ & _ & Hres3 & _); auto.
    { intros l Hl. apply Hpself. by exists f0, s. }
    { intros l Hl. apply Hpsc. by exists f0, rs. }
    rewrite Hrun3 in Hinner. injection Hinner as <- <-.
    rewrite lookup_total_alt, (Hres3 f Hne), <- lookup_total_alt. apply Hinv.
Qed.
End trim_more.

(** X14. A file of [self] that the scanned results do not have is decided
    by the file list alone: listed, its key and set are removed; not
    listed, it keeps the very set it had.  The call returns normally when
    every object of the two collections has its [line_number]. *)
Theorem trim_absent_file (path_exists : string → bool) (h : heap)
    (self scanned : SecretsCollection) (filelist : option (list string))
    (f : string) :
  (∀ l, holds self l → is_Some (line_number (h l))) →
  (∀ l, holds scanned l → is_Some (line_number (h l))) →
  f ∈ files self → f ∉ files scanned →
  ∃ h' self',
    trim path_exists self (Some scanned) filelist h = (h', Ret (self', scanned)) ∧
    (in_filelist filelist f → data self' !! f = None) ∧
    (¬ in_filelist filelist f → data self' !! f = data self !! f).
Proof.
  intros Hpself Hpsc Hf Hnf.
  destruct (trim_run path_exists h self scanned filelist Hpself Hpsc)
    as (h' & result3 & result4 & Hrun & Hfirst & Hres4).
  destruct (trim_scanned_files_spec self scanned (elements (files scanned)) ∅ h)
    as (h'' & result3' & Hrun' & _ & _ & _ & Hres3 & _); auto.
  { apply Forall_forall. intros f'. by rewrite elem_of_elements. }
  rewrite Hfirst in Hrun'. injection Hrun' as <- <-.
  assert (result3 !! f = None) as Hnone.
  { rewrite Hres3, lookup_empty; [done|]. by rewrite elem_of_elements. }
  exists h', (with_data result4 self). split; [done|]. simpl.
  rewrite Hres4, Hnone. unfold fileset_of. split.
  - intros Hfl%elem_of_fileset. by rewrite decide_False by (intros [_ ?]; done).
  - intros Hfl. rewrite decide_True; [done|]. split; [done|].
    by rewrite elem_of_fileset.
Qed.

Lemma trim_absent_file_witness :
  ∃ h' self',
    trim (λ _, true) trim_ex_self (Some empty_collection) (Some ["a.py"]) trim_ex_heap =
      (h', Ret (self', empty_collection)) ∧
    (in_filelist (Some ["a.py"]) "a.py" → data self' !! "a.py" = None) ∧
    (¬ in_filelist (Some ["a.py"]) "a.py" →
     data self' !! "a.py" = data trim_ex_self !! "a.py").
Proof.
  apply (trim_absent_file (λ _, true) trim_ex_heap trim_ex_self empty_collection
           (Some ["a.py"]) "a.py").
  - intros l _. unfold trim_ex_heap. destruct l as [|[|l]]; by eexists.
  - intros l _. unfold trim_ex_heap. destruct l as [|[|l]]; by eexists.
  - apply elem_of_files. by eexists.
  - unfold files. simpl. set_solver.
Defined.

(** X15. [trim] never adds anything: the new [self] has the same root,
    its files are files of the old one, its sets hold objects the old set
    of the same file held, the scanned collection is handed back as it
    was, and in the store only line numbers change, and only in objects of
    [self]. *)
Theorem trim_never_adds (path_exists : string → bool) (h : heap)
    (self scanned : SecretsCollection) (filelist : option (list string)) :
  (∀ l, holds self l → is_Some (line_number (h l))) →
  (∀ l, holds scanned l → is_Some (line_number (h l))) →
  ∃ h' self',
    trim path_exists self (Some scanned) filelist h = (h', Ret (self', scanned)) ∧
    root self' = root self ∧
    files self' ⊆ files self ∧
    (∀ f l, l ∈ data self' !!! f → l ∈ data self !!! f) ∧
    (∀ l, same_but_line (h l) (h' l)) ∧
    (∀ l, ¬ holds self l → h' l = h l).
Proof.
  intros Hpself Hpsc.
  destruct (trim_run path_exists h self scanned filelist Hpself Hpsc)
    as (h' & result3 & result4 & Hrun & Hfirst & Hres4).
  assert (Forall (λ f, f ∈ files scanned) (elements (files scanned))) as Hall.
  { apply Forall_forall. intros f'. by rewrite elem_of_elements. }
  destruct (trim_scanned_files_spec self scanned (elements (files scanned)) ∅ h)
    as (h'' & result3' & Hrun' & Hline & _ & Hfr & _ & Hsub & _); auto.
  rewrite Hfirst in Hrun'. injection Hrun' as <- <-.
  pose proof (trim_scanned_files_nonempty self scanned _ ∅ h h' result3
                Hall Hpself Hpsc Hfirst) as Hne.
  assert (∀ f l, l ∈ result3 !!! f → l ∈ data self !!! f) as Hsub3.
  { intros f l [Hl|Hl]%Hsub; [|done]. rewrite lookup_total_empty in Hl. inversion Hl. }
  exists h', (with_data result4 self). split_and!; try done.
  - intros f. rewrite !elem_of_files. simpl. rewrite Hres4.
    destruct (result3 !! f) as [s3|] eqn:Hs3.
    + intros _. destruct (Hne (λ _, or_introl (lookup_empty _)) f) as [Hn|[e He]];
        [congruence|].
      apply Hsub3, lookup_total_elem in He as (s & Hs & _). eauto.
    + case_decide as Hd; [done|]. by intros [? ?].
  - intros f l. simpl. rewrite (lookup_total_alt result4), Hres4.
    destruct (result3 !! f) as [s3|] eqn:Hs3.
    + intros Hl. apply Hsub3. by rewrite lookup_total_alt, Hs3.
    + case_decide; [by rewrite lookup_total_alt|]. intros Hl. inversion Hl.
  - intros l Hl. apply Hfr. intros f s _ Hs Hin. apply Hl. by exists f, s.
Qed.

Lemma trim_never_adds_witness :
  ∃ h' self',
    trim (λ _, true) trim_ex_self (Some trim_ex_scanned) None trim_ex_heap =
      (h', Ret (self', trim_ex_scanned)) ∧
    root self' = root trim_ex_self ∧
    files self' ⊆ files trim_ex_self ∧
    (∀ f l, l ∈ data self' !!! f → l ∈ data trim_ex_self !!! f) ∧
    (∀ l, same_but_line (trim_ex_heap l) (h' l)) ∧
    (∀ l, ¬ holds trim_ex_self l → h' l = trim_ex_heap l).
Proof.
  apply (trim_never_adds (λ _, true) trim_ex_heap trim_ex_self trim_ex_scanned None).
  - intros l _. unfold trim_ex_heap. destruct l as [|[|l]]; by eexists.
  - intros l _. unfold trim_ex_heap. destruct l as [|[|l]]; by eexists.
Defined.

Section trim_self.
Implicit Types (h : heap) (l : loc) (result : gmap string (list loc)).

Lemma with_line_number_same (s : PotentialSecret) n :
  line_number s = Some n → with_line_number (Some n) s = s.
Proof. destruct s. simpl. by intros ->. Qed.

(** One turn of the inner loop when the scanned secret is the existing
    one: the object is appended to the set under construction and the
    store does not change. *)
Lemma trim_secret_self h0 s f pre r result hc :
  NoDup (keys h0 s) → r ∈ s → identity (h0 r) ∉ keys h0 pre →
  is_Some (line_number (h0 r)) →
  (∀ l, hc l = h0 l) → result !!! f = pre →
  ∃ h' result',
    trim_secret f (secret_map h0 s) result r hc = (h', Ret result') ∧
    (∀ l, h' l = h0 l) ∧
    result' !! f = Some (pre ++ [r]) ∧
    (∀ f', f' ≠ f → result' !! f' = result !! f').
Proof.
  intros Hnd Hr Hfresh [n Hn] Hhc Hpre.
  unfold trim_secret. rewrite bind_get_heap, Hhc.
  rewrite secret_map_get_unique by done.
  assert (get_line_number r hc = (hc, Ret n)) as Hget.
  { unfold get_line_number. by rewrite Hhc, Hn. }
  rewrite (bind_Ret _ _ _ _ _ Hget).
  set (h1 := if decide (n = 0) then hc
             else <[r := with_line_number (Some n) (hc r)]> hc).
  assert (∀ l, h1 l = h0 l) as Hh1.
  { intros l. unfold h1. case_decide; [done|].
    destruct (decide (l = r)) as [->|Hne].
    - rewrite fn_lookup_insert, Hhc. by apply with_line_number_same.
    - by rewrite fn_lookup_insert_ne. }
  assert ((if decide (n = 0) then mret ()
           else get_line_number r ≫= λ m, set_line_number r m) hc = (h1, Ret ()))
    as Hupd.
  { unfold h1. case_decide; [done|]. by rewrite (bind_Ret _ _ _ _ _ Hget). }
  rewrite (bind_Ret _ _ _ _ _ Hupd). rewrite bind_get_heap.
  assert (set_add h1 r pre = pre ++ [r]) as Hadd.
  { unfold set_add. rewrite decide_False; [done|].
    rewrite Hh1. rewrite (keys_ext h0 h1) by (intros l'; by rewrite Hh1). done. }
  destruct (defaultdict_get result f) as [sr res'] eqn:Hdd.
  assert (sr = pre ∧ ∀ f', f' ≠ f → res' !! f' = result !! f') as [-> Hres'].
  { unfold defaultdict_get in Hdd. rewrite lookup_total_alt in Hpre.
    destruct (result !! f); simpl in Hpre; injection Hdd as <- <-.
    - done.
    - split; [done|]. intros f' Hf'. by rewrite lookup_insert_ne. }
  exists h1, (<[f := pre ++ [r]]> res'). split_and!.
  - unfold mret, M_ret. by rewrite Hadd.
  - done.
  - by rewrite lookup_insert_eq.
  - intros f' Hf'. rewrite lookup_insert_ne by done. by apply Hres'.
Qed.

Lemma trim_inner_self h0 s f :
  NoDup (keys h0 s) → (∀ l, l ∈ s → is_Some (line_number (h0 l))) →
  ∀ rs pre result hc,
  s = pre ++ rs → (∀ l, hc l = h0 l) → result !!! f = pre →
  ∃ h' result',
    for_each rs (trim_secret f (secret_map h0 s)) result hc = (h', Ret result') ∧
    (∀ l, h' l = h0 l) ∧
    (rs = [] → result' = result) ∧
    (rs ≠ [] → result' !! f = Some s) ∧
    (∀ f', f' ≠ f → result' !! f' = result !! f').
Proof.
  intros Hnd Hpres rs. induction rs as [|r rs IH]; intros pre result hc Hs Hhc Hpre.
  { exists hc, result. split_and!; done. }
  assert (r ∈ s) as Hr.
  { rewrite Hs. apply elem_of_app. right. left. }
  destruct (trim_secret_self h0 s f pre r result hc) as
    (h1 & result1 & Hrun1 & Hh1 & Hf1 & Hres1); auto.
  { rewrite Hs in Hnd. unfold keys in Hnd. rewrite fmap_app, fmap_cons in Hnd.
    apply NoDup_app in Hnd as (_ & Hdisj & _). intros Hin.
    apply (Hdisj _ Hin). left. }
  destruct (IH (pre ++ [r]) result1 h1) as (h2 & result2 & Hrun2 & Hh2 & Hnil & Hcons & Hres2).
  { by rewrite <- app_assoc. }
  { done. }
  { by rewrite lookup_total_alt, Hf1. }
  exists h2, result2. split_and!.
  - cbn [for_each]. by rewrite (bind_Ret _ _ _ _ _ Hrun1).
  - done.
  - done.
  - intros _. destruct rs as [|r' rs].
    + rewrite (Hnil eq_refl), Hf1, Hs. done.
    + by apply Hcons.
  - intros f' Hf'. by rewrite Hres2, Hres1.
Qed.

Lemma trim_self_files h self fs :
  NoDup fs → (∀ f, f ∈ fs → f ∈ files self) →
  proper_sets h self →
  (∀ l, holds self l → is_Some (line_number (h l))) →
  ∀ result hc,
  (∀ l, hc l = h l) → (∀ f, f ∈ fs → result !! f = None) →
  ∃ h' result',
    for_each fs trim_scanned_file (self, self, result) hc =
      (h', Ret (self, self, result')) ∧
    (∀ l, h' l = h l) ∧
    (∀ f, result' !! f =
       if decide (f ∈ fs ∧ data self !!! f ≠ []) then data self !! f
       else result !! f).
Proof.
  intros Hnd Hfs Hproper Hpres. induction fs as [|f fs IH]; intros result hc Hhc Hnone.
  { exists hc, result. split_and!; [done|done|]. intros f.
    rewrite decide_False; [done|]. intros [Hin _]. inversion Hin. }
  apply NoDup_cons in Hnd as [Hf Hnd].
  assert (f ∈ files self) as Hin by (apply Hfs; left).
  pose proof Hin as [s Hs]%elem_of_files.
  pose proof (lookup_total_correct _ _ _ Hs) as Hts.
  destruct (trim_inner_self h s f (Hproper f s Hs)) with
    (rs := s) (pre := @nil loc) (result := result) (hc := hc)
    as (h1 & result1 & Hrun1 & Hh1 & Hnil & Hcons & Hres1); auto.
  { intros l Hl. apply Hpres. by exists f, s. }
  { rewrite lookup_total_alt, Hnone; [done|left]. }
  destruct (IH Hnd) with (result := result1) (hc := h1)
    as (h2 & result2 & Hrun2 & Hh2 & Hres2); auto.
  { intros f' Hf'. apply Hfs. by right. }
  { intros f' Hf'. rewrite Hres1; [apply Hnone; by right|]. by intros ->. }
  exists h2, result2. split_and!; [|done|].
  - cbn [for_each].
    assert (trim_scanned_file (self, self, result) f hc =
              (h1, Ret (self, self, result1))) as Hstep.
    { rewrite trim_scanned_file_spec by done. rewrite Hts.
      rewrite (secret_map_ext h hc) by (intros l; by rewrite Hhc).
      by rewrite (bind_Ret _ _ _ _ _ Hrun1). }
    by rewrite (bind_Ret _ _ _ _ _ Hstep).
  - intros f'. rewrite Hres2.
    destruct (decide (f' = f)) as [->|Hne].
    + rewrite decide_False by (intros [? _]; done).
      destruct (decide (s = [])) as [->|Hsne].
      * rewrite (Hnil eq_refl), Hts.
        by rewrite decide_False by (intros [_ ?]; done).
      * rewrite (Hcons Hsne), Hts, Hs.
        by rewrite decide_True by (split; [left|done]).
    + rewrite Hres1 by done. apply decide_ext. rewrite elem_of_cons. naive_solver.
Qed.
End trim_self.

(** X16. Trimming a collection against itself changes nothing: the call
    returns the collection with the very files and sets it had, and every
    object of the store is as it was.  The sets are Python sets, the
    objects have their [line_number], and the file list names no file whose
    set is empty. *)
Theorem trim_against_itself (path_exists : string → bool) (h : heap)
    (self : SecretsCollection) (filelist : option (list string)) :
  proper_sets h self →
  (∀ l, holds self l → is_Some (line_number (h l))) →
  (∀ f, in_filelist filelist f → data self !! f ≠ Some []) →
  ∃ h', trim path_exists self (Some self) filelist h = (h', Ret (self, self)) ∧
        ∀ l, h' l = h l.
Proof.
  intros Hproper Hpres Hlist.
  destruct (trim_run path_exists h self self filelist Hpres Hpres)
    as (h' & result3 & result4 & Hrun & Hfirst & Hres4).
  destruct (trim_self_files h self (elements (files self))) with
    (result := (∅ : gmap string (list loc))) (hc := h)
    as (h'' & result3' & Hrun' & Hh' & Hres3); auto.
  { apply NoDup_elements. }
  { intros f. by rewrite elem_of_elements. }
  rewrite Hfirst in Hrun'. injection Hrun' as <- <-.
  exists h'. split; [|done]. rewrite Hrun. f_equal. f_equal. f_equal.
  rewrite <- (with_data_id self) at 2. f_equal.
  apply map_eq. intros f. rewrite Hres4, Hres3, lookup_empty.
  destruct (data self !! f) as [s|] eqn:Hs.
  - assert (f ∈ files self) as Hf by (apply elem_of_files; eauto).
    rewrite (lookup_total_correct _ _ _ Hs).
    destruct (decide (s = [])) as [->|Hne].
    + rewrite decide_False by (intros [_ ?]; done).
      rewrite decide_True; [done|]. split; [done|].
      unfold fileset_of. rewrite elem_of_fileset. intros Hfl.
      by apply (Hlist f Hfl).
    + by rewrite decide_True by (split; [by apply elem_of_elements|done]).
  - by repeat case_decide.
Qed.

Lemma trim_against_itself_witness :
  ∃ h', trim (λ _, true) trim_ex_self (Some trim_ex_self) None trim_ex_heap =
          (h', Ret (trim_ex_self, trim_ex_self)) ∧
        ∀ l, h' l = trim_ex_heap l.
Proof.
  apply (trim_against_itself (λ _, true) trim_ex_heap trim_ex_self None).
  - intros f s Hs. one_file_lookup Hs. apply NoDup_singleton.
  - intros l _. unfold trim_ex_heap. destruct l as [|[|l]]; by eexists.
  - intros f (fl & Hfl & _). discriminate.
Defined.

(** ** scan_diff and scan_file *)

Section absorb_facts.
Implicit Types (h : heap) (l : loc) (c self : SecretsCollection).

Lemma absorb_under_data h k c l :
  data (absorb_under h k c l) = <[k := set_add h l (data c !!! k)]> (data c) ∧
  root (absorb_under h k c l) = root c.
Proof.
  unfold absorb_under, __getitem__, defaultdict_get.
  rewrite lookup_total_alt. destruct (data c !! k); simpl; [done|].
  by rewrite insert_insert_eq.
Qed.

Lemma absorb_under_lookup h k c l f :
  data (absorb_under h k c l) !!! f =
    if decide (f = k) then set_add h l (data c !!! k) else data c !!! f.
Proof.
  rewrite (proj1 (absorb_under_data h k c l)). case_decide as Hd.
  - subst. by rewrite lookup_total_insert_eq.
  - by rewrite lookup_total_insert_ne.
Qed.

Lemma absorb_is_absorb_under h c l :
  absorb h c l = absorb_under h (filename (h l)) c l.
Proof. done. Qed.

Lemma set_add_NoDup h l s : NoDup (keys h s) → NoDup (keys h (set_add h l s)).
Proof.
  intros Hnd. unfold set_add. case_decide as Hd; [done|].
  unfold keys. rewrite fmap_app. apply NoDup_app. split_and!; [done| |].
  - intros k Hk ->%list_elem_of_singleton. done.
  - apply NoDup_singleton.
Qed.

Lemma set_add_identity h l s : identity (h l) ∈ keys h (set_add h l s).
Proof.
  destruct (set_add_has_identity h l s) as (l' & Hl' & <-). by apply keys_elem.
Qed.

Lemma keys_mono h s s' k : (∀ l, l ∈ s → l ∈ s') → k ∈ keys h s → k ∈ keys h s'.
Proof.
  intros Hsub (l & -> & Hl)%list_elem_of_fmap. by apply keys_elem, Hsub.
Qed.

Lemma proper_sets_total h c :
  proper_sets h c ↔ ∀ f, NoDup (keys h (data c !!! f)).
Proof.
  split.
  - intros Hp f. rewrite lookup_total_alt. destruct (data c !! f) as [s|] eqn:Hs.
    + by apply (Hp f).
    + constructor.
  - intros Hp f s Hs. specialize (Hp f). by rewrite (lookup_total_correct _ _ _ Hs) in Hp.
Qed.

(** Absorbing a run of secrets, each under the key [key_of] gives it. *)
Lemma foldl_absorb_spec h (key_of : loc → string) secrets self :
  let self' := foldl (λ c l, absorb_under h (key_of l) c l) self secrets in
  root self' = root self ∧
  (∀ f l, l ∈ data self !!! f → l ∈ data self' !!! f) ∧
  (∀ l, l ∈ secrets → identity (h l) ∈ keys h (data self' !!! key_of l)) ∧
  (∀ f l, l ∈ data self' !!! f →
          l ∈ data self !!! f ∨ (l ∈ secrets ∧ key_of l = f)) ∧
  (proper_sets h self → proper_sets h self') ∧
  (∀ f, f ∈ files self' ↔ f ∈ files self ∨ ∃ l, l ∈ secrets ∧ key_of l = f).
Proof.
  revert self. induction secrets as [|l0 secrets IH]; intros self; cbn [foldl].
  { split_and!; auto.
    - intros l Hl. inversion Hl.
    - intros f. split; [by left|]. intros [?|(l & Hl & _)]; [done|inversion Hl]. }
  set (self1 := absorb_under h (key_of l0) self l0).
  destruct (IH self1) as (Hroot & Hkept & Hin & Hfrom & Hproper & Hfiles).
  assert (∀ f l, l ∈ data self !!! f → l ∈ data self1 !!! f) as Hkept1.
  { intros f l Hl. unfold self1. rewrite absorb_under_lookup. case_decide; [|done].
    subst. apply set_add_elem. by left. }
  split_and!.
  - rewrite Hroot. apply absorb_under_data.
  - intros f l Hl. by apply Hkept, Hkept1.
  - intros l [->|Hl]%elem_of_cons; [|by apply Hin].
    eapply keys_mono; [apply Hkept|]. unfold self1.
    rewrite absorb_under_lookup, decide_True by done. apply set_add_identity.
  - intros f l [Hl|[Hl Hk]]%Hfrom.
    + unfold self1 in Hl. rewrite absorb_under_lookup in Hl.
      case_decide as Hd; [|by left]. subst.
      apply set_add_elem in Hl as [Hl|[-> _]]; [by left|right].
      split; [left|done].
    + right. split; [by right|done].
  - intros Hp. apply Hproper. apply proper_sets_total. intros f.
    unfold self1. rewrite absorb_under_lookup. case_decide.
    + apply set_add_NoDup. by apply proper_sets_total.
    + by apply proper_sets_total.
  - intros f. rewrite Hfiles. unfold self1, files.
    rewrite (proj1 (absorb_under_data h (key_of l0) self l0)), dom_insert_L.
    rewrite elem_of_union, elem_of_singleton. split.
    + intros [[->|?]|(l & Hl & Hk)]; [right|by left|right].
      * exists l0. split; [left|done].
      * exists l. split; [by right|done].
    + intros [?|(l & [->|Hl]%elem_of_cons & Hk)]; [left; by right|left; by left|right].
      eauto.
Qed.
End absorb_facts.

(** X17. Whatever way the run of the diff scanner ends, normally or by
    any exception, [scan_diff] leaves in the collection every secret the
    scanner had yielded until then, under the secret's own file name: the
    identity of each is in the set of its file.  What the collection held
    is still there, nothing else came in, the only new files are those of
    the yielded secrets, and sets without duplicates stay so. *)
Theorem scan_diff_absorbs (scan_scan_diff : diff_scanner) (h : heap)
    (self : SecretsCollection) (diff : string)
    (secrets : list loc) (ending : option exn) :
  scan_scan_diff diff = (secrets, ending) →
  let self' := (scan_diff scan_scan_diff h self diff).1 in
  root self' = root self ∧
  (∀ f l, l ∈ data self !!! f → l ∈ data self' !!! f) ∧
  (∀ l, l ∈ secrets → identity (h l) ∈ keys h (data self' !!! filename (h l))) ∧
  (∀ f l, l ∈ data self' !!! f →
          l ∈ data self !!! f ∨ (l ∈ secrets ∧ filename (h l) = f)) ∧
  (proper_sets h self → proper_sets h self') ∧
  (∀ f, f ∈ files self' ↔ f ∈ files self ∨ ∃ l, l ∈ secrets ∧ filename (h l) = f).
Proof.
  intros Hscan self'.
  assert (self' = foldl (λ c l, absorb_under h (filename (h l)) c l) self secrets)
    as ->.
  { unfold self', scan_diff. rewrite Hscan. by destruct ending as [[]|]. }
  apply (foldl_absorb_spec h (λ l, filename (h l))).
Qed.

Lemma scan_diff_absorbs_witness :
  let scanner : diff_scanner := λ _, ([2%nat], Some (UnidiffParseError "bad hunk")) in
  let self' := (scan_diff scanner trim_ex_heap trim_ex_self "@@").1 in
  root self' = root trim_ex_self ∧
  (∀ f l, l ∈ data trim_ex_self !!! f → l ∈ data self' !!! f) ∧
  (∀ l, l ∈ [2%nat] →
        identity (trim_ex_heap l) ∈ keys trim_ex_heap (data self' !!! filename (trim_ex_heap l))) ∧
  (∀ f l, l ∈ data self' !!! f →
          l ∈ data trim_ex_self !!! f ∨ (l ∈ [2%nat] ∧ filename (trim_ex_heap l) = f)) ∧
  (proper_sets trim_ex_heap trim_ex_self → proper_sets trim_ex_heap self') ∧
  (∀ f, f ∈ files self' ↔
        f ∈ files trim_ex_self ∨ ∃ l, l ∈ [2%nat] ∧ filename (trim_ex_heap l) = f).
Proof.
  intros scanner.
  apply (scan_diff_absorbs scanner trim_ex_heap trim_ex_self "@@" [2%nat]
           (Some (UnidiffParseError "bad hunk"))).
  reflexivity.
Defined.

(** X18. [scan_file] scans the path made of the root and the normalised
    file name and stores what the scanner yields under the normalised file
    name alone, whatever file name the secrets carry: no other file of the
    collection changes, a scan that yields nothing leaves the collection
    exactly as it was (no key is created), every yielded identity ends up in
    the set, nothing the set held is lost, duplicate-free sets stay so, and
    an exception of the scanner reaches the caller unchanged. *)
Theorem scan_file_absorbs (os_path_join : string → string → string)
    (convert_local_os_path : string → string)
    (scan_scan_file : string → list loc * option exn)
    (h : heap) (self : SecretsCollection) (filename : string)
    (secrets : list loc) (ending : option exn) :
  scan_scan_file (os_path_join (root self) (convert_local_os_path filename)) =
    (secrets, ending) →
  let key := convert_local_os_path filename in
  let r := scan_file os_path_join convert_local_os_path scan_scan_file h self filename in
  r.2 = match ending with None => Ret tt | Some e => Raise e end ∧
  (secrets = [] → r.1 = self) ∧
  (secrets ≠ [] → key ∈ files r.1) ∧
  (∀ f, f ≠ key → data r.1 !! f = data self !! f) ∧
  (∀ l, l ∈ data self !!! key → l ∈ data r.1 !!! key) ∧
  (∀ l, l ∈ secrets → identity (h l) ∈ keys h (data r.1 !!! key)) ∧
  (∀ l, l ∈ data r.1 !!! key → l ∈ data self !!! key ∨ l ∈ secrets) ∧
  (proper_sets h self → proper_sets h r.1).
Proof.
  intros Hscan key r.
  assert (r.1 = foldl (λ c l, absorb_under h key c l) self secrets) as Hr1.
  { unfold r, scan_file. rewrite Hscan. by destruct ending. }
  destruct (foldl_absorb_spec h (λ _, key) secrets self)
    as (Hroot & Hkept & Hin & Hfrom & Hproper & Hfiles).
  rewrite <- Hr1 in *. split_and!.
  - unfold r, scan_file. rewrite Hscan. by destruct ending.
  - intros ->. by rewrite Hr1.
  - intros Hne. apply Hfiles. right. destruct secrets as [|l ls]; [done|].
    exists l. split; [left|done].
  - intros f Hf. rewrite Hr1. clear -Hf. revert self.
    induction secrets as [|l ls IH]; intros self; cbn [foldl]; [done|].
    rewrite IH, (proj1 (absorb_under_data h key self l)).
    by rewrite lookup_insert_ne.
  - intros l. apply Hkept.
  - done.
  - intros l [?|[? _]]%Hfrom; auto.
  - done.
Qed.

Lemma scan_file_absorbs_witness :
  let scanner : string → list loc * option exn := λ _, ([2%nat], None) in
  let r := scan_file String.append id scanner trim_ex_heap trim_ex_self "a.py" in
  r.2 = Ret tt ∧
  ([2%nat] = [] → r.1 = trim_ex_self) ∧
  ([2%nat] ≠ [] → "a.py" ∈ files r.1) ∧
  (∀ f, f ≠ "a.py" → data r.1 !! f = data trim_ex_self !! f) ∧
  (∀ l, l ∈ data trim_ex_self !!! "a.py" → l ∈ data r.1 !!! "a.py") ∧
  (∀ l, l ∈ [2%nat] → identity (trim_ex_heap l) ∈ keys trim_ex_heap (data r.1 !!! "a.py")) ∧
  (∀ l, l ∈ data r.1 !!! "a.py" → l ∈ data trim_ex_self !!! "a.py" ∨ l ∈ [2%nat]) ∧
  (proper_sets trim_ex_heap trim_ex_self → proper_sets trim_ex_heap r.1).
Proof.
  intros scanner.
  apply (scan_file_absorbs String.append id scanner trim_ex_heap trim_ex_self "a.py"
           [2%nat] None).
  reflexivity.
Defined.

(** ** json *)

Section json_facts.
Context {J : Type} (secret_json : PotentialSecret → J).
Implicit Types (h : heap) (self : SecretsCollection) (output : list (string * list J)).

Lemma dict_get_app_fresh {V : Type} (k : string) (d d' : list (string * V)) :
  k ∉ d.*1 → dict_get k (d ++ d') = dict_get k d'.
Proof.
  induction d as [|[k' v'] d IH]; intros Hk; [done|].
  rewrite fmap_cons, not_elem_of_cons in Hk. destruct Hk as [Hne Hk].
  simpl. rewrite decide_False by done. by apply IH.
Qed.

Lemma dict_set_app_fresh {V : Type} (k : string) (v : V) (d d' : list (string * V)) :
  k ∉ d.*1 → dict_set k v (d ++ d') = d ++ dict_set k v d'.
Proof.
  induction d as [|[k' v'] d IH]; intros Hk; [done|].
  rewrite fmap_cons, not_elem_of_cons in Hk. destruct Hk as [Hne Hk].
  simpl. rewrite decide_False by done. by rewrite IH.
Qed.

Lemma dict_append_new f (j : J) output :
  f ∉ output.*1 → dict_append f j output = output ++ [(f, [j])].
Proof.
  intros Hf. unfold dict_append.
  rewrite <- (app_nil_r output) at 1 2.
  rewrite dict_get_app_fresh, dict_set_app_fresh by done. done.
Qed.

Lemma dict_append_last f (j : J) js output :
  f ∉ output.*1 →
  dict_append f j (output ++ [(f, js)]) = output ++ [(f, js ++ [j])].
Proof.
  intros Hf. unfold dict_append.
  rewrite dict_get_app_fresh, dict_set_app_fresh by done.
  simpl. by rewrite !decide_True.
Qed.

Lemma foldl_append_last h f js secrets output :
  f ∉ output.*1 →
  foldl (λ output '(filename, secret),
           dict_append filename (secret_json (h secret)) output)
        (output ++ [(f, js)]) ((λ secret, (f, secret)) <$> secrets) =
  output ++ [(f, js ++ ((λ secret, secret_json (h secret)) <$> secrets))].
Proof.
  intros Hf. revert js. induction secrets as [|l ls IH]; intros js.
  { simpl. by rewrite app_nil_r. }
  rewrite fmap_cons. cbn [foldl]. rewrite dict_append_last by done.
  rewrite IH. by rewrite <- app_assoc.
Qed.

Lemma foldl_append_file h self f output :
  f ∉ output.*1 →
  foldl (λ output '(filename, secret),
           dict_append filename (secret_json (h secret)) output)
        output (yield_file h self f) =
  output ++ json_entry secret_json h self f.
Proof.
  intros Hf. unfold yield_file, json_entry.
  destruct (sorted_by _ _ _) as [|l ls].
  { simpl. by rewrite app_nil_r. }
  rewrite fmap_cons. cbn [foldl]. rewrite dict_append_new by done.
  rewrite foldl_append_last by done. done.
Qed.

Lemma json_entry_keys h self f k : k ∈ (json_entry secret_json h self f).*1 → k = f.
Proof.
  unfold json_entry. destruct (sorted_by _ _ _); simpl.
  - intros Hk. inversion Hk.
  - by intros ->%list_elem_of_singleton.
Qed.

Lemma foldl_append_files h self fs output :
  NoDup fs → (∀ f, f ∈ fs → f ∉ output.*1) →
  foldl (λ output '(filename, secret),
           dict_append filename (secret_json (h secret)) output)
        output (mjoin (yield_file h self <$> fs)) =
  output ++ mjoin (json_entry secret_json h self <$> fs).
Proof.
  revert output. induction fs as [|f fs IH]; intros output Hnd Hfresh.
  { simpl. by rewrite app_nil_r. }
  apply NoDup_cons in Hnd as [Hf Hnd].
  rewrite !fmap_cons. simpl. rewrite foldl_app.
  rewrite foldl_append_file by (apply Hfresh; left).
  rewrite IH; [by rewrite <- app_assoc|done|].
  intros f' Hf'. rewrite fmap_app, elem_of_app. intros [Hin|Hin].
  - revert Hin. apply Hfresh. by right.
  - apply json_entry_keys in Hin. by subst.
Qed.

Lemma dict_get_entries h self fs f :
  NoDup fs →
  dict_get f (mjoin (json_entry secret_json h self <$> fs)) =
    if decide (f ∈ fs) then dict_get f (json_entry secret_json h self f) else None.
Proof.
  induction fs as [|f0 fs IH]; intros Hnd; [done|].
  apply NoDup_cons in Hnd as [Hf0 Hnd]. rewrite fmap_cons. simpl.
  destruct (decide (f = f0)) as [->|Hne].
  - rewrite decide_True by left.
    unfold json_entry at 1 3. destruct (sorted_by _ _ _) eqn:Hs; simpl.
    + rewrite IH by done. by rewrite decide_False.
    + by rewrite !decide_True.
  - rewrite dict_get_app_fresh.
    + rewrite IH by done. case_decide as Hd.
      * rewrite decide_True; [done|by right].
      * rewrite decide_False; [done|]. by intros [?|?]%elem_of_cons.
    + intros Hin. by apply json_entry_keys in Hin.
Qed.
End json_facts.

(** What [json] returns, through the sorts of the iteration. *)
Lemma json_run {J : Type} (secret_json : PotentialSecret → J)
    (h : heap) (self : SecretsCollection) :
  let display f :=
    sorted_by key_ltb (λ secret, display_key (h secret)) (data self !!! f) in
  (json secret_json h self).2 = self ∧
  (json secret_json h self).1 =
    (λ f, (f, (λ secret, secret_json (h secret)) <$> display f)) <$>
      filter (λ f, data self !!! f ≠ []) (sorted_by str_ltb id (elements (files self))) ∧
  ∀ f, dict_get f (json secret_json h self).1 =
         if decide (data self !!! f = []) then None
         else Some ((λ secret, secret_json (h secret)) <$> display f).
Proof.
  intros display. unfold json. rewrite iter_spec. cbn [fst snd].
  assert (NoDup (sorted_by str_ltb id (elements (files self)))) as Hnd.
  { rewrite (sorted_by_Permutation str_ltb id). apply NoDup_elements. }
  rewrite (foldl_append_files secret_json h self _ []); [|done|].
  2:{ intros f _ Hf. inversion Hf. }
  rewrite app_nil_l.
  assert (∀ f, display f = [] ↔ data self !!! f = []) as Hempty.
  { intros f. unfold display. split.
    - intros Hd. apply Permutation_nil_r. rewrite <- Hd.
      by rewrite sorted_by_Permutation.
    - intros ->. done. }
  split_and!; [done| |].
  - clear Hnd. induction (sorted_by str_ltb id (elements (files self))) as [|f fs IH];
      [done|].
    rewrite fmap_cons, filter_cons. simpl. rewrite IH.
    unfold json_entry at 1. fold (display f).
    case_decide as Hd.
    + rewrite fmap_cons. cbn beta.
      destruct (display f) eqn:Hs; [by apply Hempty in Hs|done].
    + apply Hempty in Hd. by rewrite Hd.
  - intros f. rewrite dict_get_entries by done.
    unfold json_entry. fold (display f).
    destruct (decide (data self !!! f = [])) as [Hd|Hd].
    + apply Hempty in Hd. rewrite Hd. by case_decide.
    + rewrite decide_True.
      * destruct (display f) eqn:Hs; [by apply Hempty in Hs|].
        simpl. by rewrite decide_True.
      * rewrite (sorted_by_Permutation str_ltb id), elem_of_elements.
        apply elem_of_files. rewrite lookup_total_alt in Hd.
        destruct (data self !! f); [eauto|done].
Qed.

Lemma StronglySorted_filter {A} (R : relation A) (P : A → Prop)
    `{∀ x, Decision (P x)} (l : list A) :
  StronglySorted R l → StronglySorted R (filter P l).
Proof.
  induction 1 as [|x l Hsorted IH Hall]; [constructor|].
  rewrite filter_cons. case_decide; [|done].
  constructor; [done|]. apply Forall_forall. intros y [_ Hy]%list_elem_of_filter.
  rewrite Forall_forall in Hall. by apply Hall.
Qed.

Lemma StronglySorted_NoDup_strict {A} (R : relation A) (l : list A) :
  StronglySorted R l → NoDup l → StronglySorted (λ x y, R x y ∧ x ≠ y) l.
Proof.
  induction 1 as [|x l Hsorted IH Hall]; intros Hnd; [constructor|].
  apply NoDup_cons in Hnd as [Hx Hnd]. constructor; [by apply IH|].
  apply Forall_forall. intros y Hy. rewrite Forall_forall in Hall.
  split; [by apply Hall|]. by intros ->.
Qed.

(** The files of a collection, as [sorted] gives them, ascend strictly. *)
Lemma sorted_files_ascend (self : SecretsCollection) :
  StronglySorted str_lt (sorted_by str_ltb id (elements (files self))).
Proof.
  rewrite <- (list_fmap_id (sorted_by _ _ _)).
  apply (StronglySorted_fmap id (λ x y, key_le str_ltb id x y ∧ x ≠ y)).
  { intros x y [Hle Hne]. by destruct (str_not_ltb x y Hle). }
  apply StronglySorted_NoDup_strict.
  - apply sorted_by_sorted; [apply str_ltb_asym|apply str_ltb_le_trans].
  - rewrite (sorted_by_Permutation str_ltb id). apply NoDup_elements.
Qed.

(** X19. [json] groups what the iteration yields by file and leaves the
    collection as it was.  The keys of the output are the files whose set
    is not empty, each once, in strictly ascending order of path; a file
    whose set is empty, or that the collection does not have, gets no
    entry.  The entry of a file lists the serialised secrets of its set,
    each once, in ascending order of line number, then fingerprint, then
    type. *)
Theorem json_groups_by_file {J : Type} (secret_json : PotentialSecret → J)
    (h : heap) (self : SecretsCollection) :
  (json secret_json h self).2 = self ∧
  StronglySorted str_lt (json secret_json h self).1.*1 ∧
  (∀ f, f ∈ (json secret_json h self).1.*1 ↔ data self !!! f ≠ []) ∧
  (∀ f items, (f, items) ∈ (json secret_json h self).1 →
     ∃ secrets,
       secrets ≡ₚ data self !!! f ∧
       StronglySorted (λ l l', display_le (h l) (h l')) secrets ∧
       items = (λ secret, secret_json (h secret)) <$> secrets).
Proof.
  destruct (json_run secret_json h self) as (Hself & Hout & _).
  set (fs := sorted_by str_ltb id (elements (files self))) in *.
  assert ((json secret_json h self).1.*1 = filter (λ f, data self !!! f ≠ []) fs)
    as Hkeys.
  { rewrite Hout, <- list_fmap_compose. apply list_fmap_id. }
  split_and!; [done| | |].
  - rewrite Hkeys. apply StronglySorted_filter, sorted_files_ascend.
  - intros f. rewrite Hkeys, list_elem_of_filter. split; [by intros [? _]|].
    intros Hne. split; [done|]. unfold fs.
    rewrite (sorted_by_Permutation str_ltb id), elem_of_elements.
    apply elem_of_files. rewrite lookup_total_alt in Hne.
    destruct (data self !! f); [eauto|done].
  - intros f items. rewrite Hout.
    intros (f' & [= <- ->] & _)%list_elem_of_fmap.
    eexists. split_and!; [|
      |reflexivity].
    + apply sorted_by_Permutation.
    + rewrite <- (list_fmap_id (sorted_by _ _ _)).
      apply (StronglySorted_fmap id
               (key_le key_ltb (λ secret, display_key (h secret)))).
      { intros x y Hxy. by apply key_le_display_le. }
      apply sorted_by_sorted; [apply key_ltb_asym|apply key_ltb_le_trans].
Qed.

(** ** A strict comparison cannot be repeated *)

Lemma bind_inv {A B} (m : M A) (k : A → M B) (h h' : heap) (b : B) :
  (m ≫= k) h = (h', Ret b) → ∃ h1 a, m h = (h1, Ret a) ∧ k a h1 = (h', Ret b).
Proof.
  unfold mbind, M_bind. destruct (m h) as [h1 [a|e]]; [|done]. eauto.
Qed.

Section eq_repeat.
Implicit Types (h : heap) (l : loc) (a b : SecretsCollection).

Lemma stripped_since_refl h : stripped_since h h.
Proof. by split. Qed.

Lemma stripped_since_trans h1 h2 h3 :
  stripped_since h1 h2 → stripped_since h2 h3 → stripped_since h1 h3.
Proof.
  intros [Hi1 Hv1] [Hi2 Hv2]. split.
  - intros l. by rewrite Hi2.
  - intros l Hl. by apply Hv2, Hv1.
Qed.

Lemma pop_secret_value_run l h h' :
  pop_secret_value l h = (h', Ret tt) →
  stripped_since h h' ∧ secret_value (h' l) = None.
Proof.
  unfold pop_secret_value. destruct (secret_value (h l)) eqn:Hv; [|done].
  intros [= <-]. split; [split|].
  - intros l'. destruct (decide (l' = l)) as [->|Hne].
    + by rewrite fn_lookup_insert.
    + by rewrite fn_lookup_insert_ne.
  - intros l' Hl'. destruct (decide (l' = l)) as [->|Hne].
    + by rewrite fn_lookup_insert.
    + by rewrite fn_lookup_insert_ne.
  - by rewrite fn_lookup_insert.
Qed.

Lemma pop_line_number_run l h h' :
  pop_line_number l h = (h', Ret tt) → stripped_since h h'.
Proof.
  unfold pop_line_number. destruct (line_number (h l)) eqn:Hv; [|done].
  intros [= <-]. split.
  - intros l'. destruct (decide (l' = l)) as [->|Hne].
    + by rewrite fn_lookup_insert.
    + by rewrite fn_lookup_insert_ne.
  - intros l' Hl'. destruct (decide (l' = l)) as [->|Hne].
    + by rewrite fn_lookup_insert.
    + by rewrite fn_lookup_insert_ne.
Qed.

Lemma item_line_number_run l h h' n :
  item_line_number l h = (h', Ret n) → h' = h.
Proof.
  unfold item_line_number. destruct (line_number (h l)); [|done]. by intros [= <-].
Qed.

(** One round of the strict loop that returns has popped the raw value of
    [secretA]. *)
Lemma eq_secret_run om la h h' r :
  eq_secret om tt la h = (h', Ret r) →
  stripped_since h h' ∧ secret_value (h' la) = None ∧
  (r = Next tt ∨ r = Return false).
Proof.
  unfold eq_secret. rewrite bind_get_heap.
  destruct (dict_get (hash_type (h la)) om) as [lb|]; [|done].
  intros (h1 & [] & Hpa & Hrun)%bind_inv.
  apply bind_inv in Hrun as (h2 & [] & Hpb & Hrun).
  apply bind_inv in Hrun as (h3 & na & Hia & Hrun).
  apply bind_inv in Hrun as (h4 & untracked & Hun & Hrun).
  apply bind_inv in Hrun as (h5 & [] & Hpl & Hrun).
  rewrite bind_get_heap in Hrun.
  apply pop_secret_value_run in Hpa as [Hs1 Hnone].
  apply pop_secret_value_run in Hpb as [Hs2 _].
  apply item_line_number_run in Hia as ->.
  assert (h4 = h2) as ->.
  { destruct (decide (na = 0)); [by injection Hun as <- _|].
    apply bind_inv in Hun as (h'' & nb & Hib & Hun).
    apply item_line_number_run in Hib as ->. by injection Hun as <- _. }
  assert (stripped_since h2 h5) as Hs5.
  { destruct untracked.
    - apply bind_inv in Hpl as (h'' & [] & Hp1 & Hp2).
      apply pop_line_number_run in Hp1, Hp2.
      by apply (stripped_since_trans _ h'').
    - injection Hpl as <-. apply stripped_since_refl. }
  assert (h' = h5 ∧ (r = Next tt ∨ r = Return false)) as [-> Hr].
  { destruct (decide (h5 la ≠ h5 lb)); injection Hrun as <- <-; auto. }
  split_and!; [|by apply Hs5, Hs2|done].
  apply (stripped_since_trans _ h1); [done|].
  by apply (stripped_since_trans _ h2).
Qed.

Lemma eq_secrets_run om sa h h' r :
  for_return sa (eq_secret om) tt h = (h', Ret r) →
  stripped_since h h' ∧ (r = Next tt ∨ r = Return false) ∧
  (r = Next tt → ∀ la, la ∈ sa → secret_value (h' la) = None).
Proof.
  revert h. induction sa as [|la sa IH]; intros h; cbn [for_return].
  { intros [= <- <-]. split_and!; [apply stripped_since_refl|by left|].
    intros _ la Hla. inversion Hla. }
  intros (h1 & r1 & Hrun1 & Hrun)%bind_inv.
  apply eq_secret_run in Hrun1 as (Hs1 & Hnone & [->| ->]).
  - destruct (IH _ Hrun) as (Hs & Hr & Hall).
    split_and!; [by apply (stripped_since_trans _ h1)|done|].
    intros Hn l [->|Hl]%elem_of_cons; [by apply Hs|by apply Hall].
  - injection Hrun as <- <-. split_and!; [done|by right|done].
Qed.

Lemma eq_file_strict_run h a b f h' r :
  f ∈ files a → f ∈ files b →
  NoDup (hash_types h (data a !!! f)) → NoDup (hash_types h (data b !!! f)) →
  eq_file true (a, b) f h = (h', Ret r) →
  stripped_since h h' ∧ (r = Next (a, b) ∨ r = Return false) ∧
  (r = Next (a, b) →
   identity_set h (data a !!! f) = identity_set h (data b !!! f) ∧
   ∀ la, la ∈ data a !!! f → secret_value (h' la) = None).
Proof.
  intros Hfa Hfb Hnda Hndb. unfold eq_file. rewrite !getitem_files by done.
  rewrite bind_get_heap. rewrite !hash_type_map_values by done.
  destruct (decide (identity_set h (data a !!! f) ≠ identity_set h (data b !!! f)))
    as [Hne|Heq].
  { intros [= <- <-]. split_and!; [apply stripped_since_refl|by right|done]. }
  apply dec_stable in Heq. cbn [negb].
  intros (h1 & r1 & Hrun1 & Hrun)%bind_inv.
  apply eq_secrets_run in Hrun1 as (Hs & [->| ->] & Hall).
  - injection Hrun as <- <-. split_and!; [done|by left|]. intros _. auto.
  - injection Hrun as <- <-. split_and!; [done|by right|done].
Qed.

Lemma hash_types_ext h h' s :
  (∀ l, identity (h' l) = identity (h l)) → hash_types h' s = hash_types h s.
Proof.
  intros He. unfold hash_types. apply list_fmap_ext. intros _ l _.
  by apply hash_type_of_identity.
Qed.

Lemma eq_files_strict_run a b fs :
  (∀ f, f ∈ fs → f ∈ files a ∧ f ∈ files b) →
  ∀ h h' r,
  (∀ f s, data a !! f = Some s → NoDup (hash_types h s)) →
  (∀ f s, data b !! f = Some s → NoDup (hash_types h s)) →
  for_return fs (eq_file true) (a, b) h = (h', Ret r) →
  stripped_since h h' ∧ (r = Next (a, b) ∨ r = Return false) ∧
  (r = Next (a, b) →
   ∀ f, f ∈ fs →
     identity_set h (data a !!! f) = identity_set h (data b !!! f) ∧
     ∀ la, la ∈ data a !!! f → secret_value (h' la) = None).
Proof.
  induction fs as [|f fs IH]; intros Hfs h h' r Hnda Hndb; cbn [for_return].
  { intros [= <- <-]. split_and!; [apply stripped_since_refl|by left|].
    intros _ f Hf. inversion Hf. }
  destruct (Hfs f) as [Hfa Hfb]; [left|].
  pose proof Hfa as [sa Ha]%elem_of_files. pose proof Hfb as [sb Hb]%elem_of_files.
  intros (h1 & r1 & Hrun1 & Hrun)%bind_inv.
  apply eq_file_strict_run in Hrun1 as (Hs1 & [->| ->] & Hall1); [| |done|done|..].
  - destruct (IH (λ f' Hf', Hfs f' (list_elem_of_further _ _ _ Hf')) h1 h' r)
      as (Hs & Hr & Hall); [| |done|].
    { intros f' s Hs'. rewrite (hash_types_ext h h1) by apply Hs1. by apply (Hnda f'). }
    { intros f' s Hs'. rewrite (hash_types_ext h h1) by apply Hs1. by apply (Hndb f'). }
    split_and!; [by apply (stripped_since_trans _ h1)|done|].
    intros Hn f' [->|Hf']%elem_of_cons.
    + destruct (Hall1 eq_refl) as [Hid Hnone]. split; [done|].
      intros la Hla. by apply Hs, Hnone.
    + destruct (Hall Hn f' Hf') as [Hid Hnone]. split; [|done].
      by rewrite <- !(identity_set_ext h h1) by apply Hs1.
  - injection Hrun as <- <-. split_and!; [done|by right|done].
  - rewrite (lookup_total_correct _ _ _ Ha). by apply (Hnda f).
  - rewrite (lookup_total_correct _ _ _ Hb). by apply (Hndb f).
Qed.

(** The strict loop over one file whose objects of [a] have lost their raw
    value. *)
Lemma eq_file_strict_stripped h a b f :
  f ∈ files a → f ∈ files b →
  NoDup (hash_types h (data a !!! f)) → NoDup (hash_types h (data b !!! f)) →
  identity_set h (data a !!! f) = identity_set h (data b !!! f) →
  (∀ la, la ∈ data a !!! f → secret_value (h la) = None) →
  (data a !!! f = [] → eq_file true (a, b) f h = (h, Ret (Next (a, b)))) ∧
  (data a !!! f ≠ [] →
   eq_file true (a, b) f h = (h, Raise (KeyError "secret_value"))).
Proof.
  intros Hfa Hfb Hnda Hndb Hid Hnone. unfold eq_file.
  rewrite !getitem_files by done. rewrite bind_get_heap.
  rewrite !hash_type_map_values by done.
  rewrite decide_False by (by intros ?). cbn [negb]. split.
  - intros ->. done.
  - destruct (data a !!! f) as [|la s] eqn:Hs; [done|]. intros _.
    cbn [for_return].
    assert (∃ lb, dict_get (hash_type (h la)) (hash_type_map h (data b !!! f)) = Some lb)
      as [lb Hget].
    { assert (identity (h la) ∈ identity_set h (data b !!! f)) as Hin.
      { rewrite <- Hid. apply elem_of_identity_set. exists la. split; [left|done]. }
      apply elem_of_identity_set in Hin as (lb & Hlb & Heq).
      exists lb. rewrite <- (hash_type_of_identity _ _ Heq).
      by apply hash_type_map_get. }
    assert (eq_secret (hash_type_map h (data b !!! f)) tt la h =
              (h, Raise (KeyError "secret_value"))) as Hrun.
    { unfold eq_secret. rewrite bind_get_heap, Hget.
      apply bind_Raise'. unfold pop_secret_value.
      rewrite (Hnone la) by left. done. }
    by rewrite (bind_Raise' _ _ _ _ _ (bind_Raise' _ _ _ _ _ Hrun)).
Qed.

Lemma eq_files_strict_stripped h a b fs :
  (∀ f, f ∈ fs → f ∈ files a ∧ f ∈ files b) →
  (∀ f s, data a !! f = Some s → NoDup (hash_types h s)) →
  (∀ f s, data b !! f = Some s → NoDup (hash_types h s)) →
  (∀ f, f ∈ fs → identity_set h (data a !!! f) = identity_set h (data b !!! f)) →
  (∀ f la, f ∈ fs → la ∈ data a !!! f → secret_value (h la) = None) →
  ((∀ f, f ∈ fs → data a !!! f = []) →
   for_return fs (eq_file true) (a, b) h = (h, Ret (Next (a, b)))) ∧
  ((∃ f, f ∈ fs ∧ data a !!! f ≠ []) →
   for_return fs (eq_file true) (a, b) h = (h, Raise (KeyError "secret_value"))).
Proof.
  intros Hfs Hnda Hndb Hid Hnone. induction fs as [|f fs IH].
  { split; [done|]. intros (f & Hf & _). inversion Hf. }
  destruct IH as [IHnil IHsome].
  { intros f' Hf'. apply Hfs. by right. }
  { intros f' Hf'. apply Hid. by right. }
  { intros f' la Hf'. apply Hnone. by right. }
  destruct (Hfs f) as [Hfa Hfb]; [left|].
  pose proof Hfa as [sa Ha]%elem_of_files. pose proof Hfb as [sb Hb]%elem_of_files.
  destruct (eq_file_strict_stripped h a b f Hfa Hfb) as [Hnil Hsome].
  { rewrite (lookup_total_correct _ _ _ Ha). by apply (Hnda f). }
  { rewrite (lookup_total_correct _ _ _ Hb). by apply (Hndb f). }
  { apply Hid. left. }
  { intros la. apply Hnone. left. }
  cbn [for_return]. split.
  - intros Hall. rewrite (bind_Ret _ _ _ _ _ (Hnil (Hall f ltac:(left)))).
    apply IHnil. intros f' Hf'. apply Hall. by right.
  - intros (f' & Hf' & Hne).
    destruct (decide (data a !!! f = [])) as [He|He].
    + rewrite (bind_Ret _ _ _ _ _ (Hnil He)). apply IHsome.
      apply elem_of_cons in Hf' as [->|Hf']; [done|]. eauto.
    + by rewrite (bind_Raise' _ _ _ _ _ (Hsome He)).
Qed.
End eq_repeat.

(** X20. A strict comparison that answers [True] cannot be repeated: it
    has popped [secret_value] from every potential secret of the left
    collection, so the same call on the same two collections raises
    [KeyError] at the first of them, without writing anything more.  The
    left collection holds a potential secret and the sets hold one object
    per (fingerprint, type). *)
Theorem exactly_equals_not_repeatable (h h' : heap) (a b : SecretsCollection) :
  (∀ f s, data a !! f = Some s → NoDup (hash_types h s)) →
  (∀ f s, data b !! f = Some s → NoDup (hash_types h s)) →
  (∃ l, holds a l) →
  exactly_equals a b h = (h', Ret true) →
  (∀ l, holds a l → secret_value (h' l) = None) ∧
  exactly_equals a b h' = (h', Raise (KeyError "secret_value")).
Proof.
  intros Hnda Hndb (l0 & f0 & s0 & Hs0 & Hl0). unfold exactly_equals, __eq__.
  destruct (decide (files a ≠ files b)) as [Hneq|Heq]; [done|].
  apply dec_stable in Heq.
  intros (h1 & r & Hrun & Hret)%bind_inv.
  assert (∀ f, f ∈ elements (files a) → f ∈ files a ∧ f ∈ files b) as Hfs.
  { intros f Hf%elem_of_elements. split; [done|]. by rewrite <- Heq. }
  apply eq_files_strict_run in Hrun as (Hs & Hr & Hall); [|done..].
  destruct Hr as [->| ->]; [|by injection Hret as _ ?].
  injection Hret as ->. specialize (Hall eq_refl).
  assert (∀ l, holds a l → secret_value (h' l) = None) as Hnone.
  { intros l (f & s & Hfs' & Hl).
    destruct (Hall f) as [_ Hn].
    - apply elem_of_elements, elem_of_files. eauto.
    - apply Hn. by rewrite (lookup_total_correct _ _ _ Hfs'). }
  split; [done|].
  destruct (eq_files_strict_stripped h' a b (elements (files a))) as [_ Hsome];
    [done| | | | |].
  - intros f s Hfs'. rewrite (hash_types_ext h h') by apply Hs. by apply (Hnda f).
  - intros f s Hfs'. rewrite (hash_types_ext h h') by apply Hs. by apply (Hndb f).
  - intros f Hf. rewrite !(identity_set_ext h h') by apply Hs. by apply Hall.
  - intros f la Hf Hla. by apply (Hall f).
  - apply bind_Raise', Hsome. exists f0. split.
    + apply elem_of_elements, elem_of_files. eauto.
    + rewrite (lookup_total_correct _ _ _ Hs0). intros ->. inversion Hl0.
Qed.

Lemma exactly_equals_not_repeatable_witness :
  let h' := (exactly_equals eq_ex_a eq_ex_b eq_ex_heap).1 in
  (∀ l, holds eq_ex_a l → secret_value (h' l) = None) ∧
  exactly_equals eq_ex_a eq_ex_b h' = (h', Raise (KeyError "secret_value")).
Proof.
  intros h'.
  apply (exactly_equals_not_repeatable eq_ex_heap h' eq_ex_a eq_ex_b).
  - intros f s Hs. one_file_lookup Hs. apply NoDup_singleton.
  - intros f s Hs. one_file_lookup Hs. apply NoDup_singleton.
  - exists 1%nat, "a.py", [1%nat]. split; [reflexivity|left].
  - reflexivity.
Defined.

Lemma trim_common_file_witness :
  ∃ h' self',
    trim (λ _, true) trim_ex_self (Some trim_ex_scanned) None trim_ex_heap =
      (h', Ret (self', trim_ex_scanned)) ∧
    ∀ l, l ∈ data self' !!! "a.py" ↔
      l ∈ [1%nat] ∧
      (identity (trim_ex_heap l) ∈ keys trim_ex_heap [2%nat] ∨
       ((∀ e, e ∈ [1%nat] → identity (trim_ex_heap e) ∉ keys trim_ex_heap [2%nat]) ∧
        ¬ in_filelist None "a.py")).
Proof.
  apply (trim_common_file (λ _, true) trim_ex_heap trim_ex_self trim_ex_scanned None
           "a.py" [1%nat] [2%nat]).
  - reflexivity.
  - reflexivity.
  - apply NoDup_singleton.
  - apply NoDup_singleton.
  - intros l _. unfold trim_ex_heap. destruct l as [|[|l]]; by eexists.
  - intros l _. unfold trim_ex_heap. destruct l as [|[|l]]; by eexists.
Defined.

(** ** Scanning what is already known *)

Lemma absorb_under_known (h : heap) (k : string) (c : SecretsCollection) (l : loc) :
  identity (h l) ∈ keys h (data c !!! k) → absorb_under h k c l = c.
Proof.
  intros Hin. unfold absorb_under, __getitem__, defaultdict_get.
  rewrite lookup_total_alt in Hin.
  destruct (data c !! k) as [s|] eqn:Hs; [|inversion Hin]. simpl in Hin.
  unfold __setitem__, set_add. rewrite decide_True by done.
  rewrite with_data_id. unfold with_data. rewrite insert_id by done.
  by destruct c.
Qed.

(** X22. Scanning again what the collection already knows changes
    nothing: when the identity of every potential secret the diff scanner
    yields is already in the set of its file, [scan_diff] leaves the
    collection exactly as it was, so the objects held, with their audit
    fields, are not replaced by the new ones. *)
Theorem scan_diff_known_secrets (scan_scan_diff : diff_scanner) (h : heap)
    (self : SecretsCollection) (diff : string)
    (secrets : list loc) (ending : option exn) :
  scan_scan_diff diff = (secrets, ending) →
  (∀ l, l ∈ secrets → identity (h l) ∈ keys h (data self !!! filename (h l))) →
  (scan_diff scan_scan_diff h self diff).1 = self.
Proof.
  intros Hscan Hknown.
  assert (foldl (absorb h) self secrets = self) as Hfold.
  { clear Hscan. induction secrets as [|l ls IH]; [done|]. cbn [foldl].
    rewrite absorb_is_absorb_under, absorb_under_known by (apply Hknown; left).
    apply IH. intros l' Hl'. apply Hknown. by right. }
  unfold scan_diff. rewrite Hscan, Hfold. by destruct ending as [[]|].
Qed.

Lemma scan_diff_known_secrets_witness :
  (scan_diff (λ _, ([2%nat], None)) eq_ex_heap eq_ex_a "@@").1 = eq_ex_a.
Proof.
  apply (scan_diff_known_secrets (λ _, ([2%nat], None)) eq_ex_heap eq_ex_a "@@"
           [2%nat] None).
  - reflexivity.
  - intros l ->%list_elem_of_singleton. vm_compute. left.
Defined.

(** ** Merging twice *)

Section merge_twice.
Implicit Types (h : heap) (l cur prev : loc) (self old : SecretsCollection).

Lemma merged_absorbed (x p : PotentialSecret) : absorbed x p → merged x p = x.
Proof.
  unfold absorbed, merged.
  destruct x as [? ? ? ? ? [?|] [|]], p as [? ? ? ? ? si vf]; simpl;
    intros [Hs Hv]; try specialize (Hs eq_refl); try specialize (Hv eq_refl);
    by subst.
Qed.

Lemma absorbed_merged (x p : PotentialSecret) : absorbed (merged x p) p.
Proof.
  unfold absorbed, merged.
  destruct x as [? ? ? ? ? [?|] [|]], p as [? ? ? ? ? [?|] [|]]; simpl; by split.
Qed.

Lemma absorbed_grows (x x' p : PotentialSecret) :
  absorbed x p → audit_grows x x' → absorbed x' p.
Proof.
  intros [Hs Hv] [Gv Gs]. split.
  - intros Hn. apply Hs. destruct (is_secret x) as [b|] eqn:Hx; [|done].
    rewrite (Gs b) in Hn; done.
  - intros Hn. apply Hv. destruct (is_verified x) eqn:Hx; [|done].
    rewrite Gv in Hn; done.
Qed.

(** A round of the inner loop on a pair that has nothing to copy writes
    nothing. *)
Lemma merge_secret_noop mapping h hc o :
  (∀ l, hc l = h l) →
  (∀ cur, dict_get (identity (h o)) mapping = Some cur → absorbed (h cur) (h o)) →
  ∀ l, merge_secret mapping hc o l = h l.
Proof.
  intros Hsame Habs l.
  destruct (decide (dict_get (identity (hc o)) mapping = Some l)) as [Hg|Hg].
  - rewrite merge_secret_hit by done. rewrite !Hsame.
    apply merged_absorbed, Habs. by rewrite <- Hsame.
  - rewrite merge_secret_other by done. apply Hsame.
Qed.

Lemma foldl_merge_secret_noop mapping h olds :
  (∀ prev cur, prev ∈ olds → dict_get (identity (h prev)) mapping = Some cur →
               absorbed (h cur) (h prev)) →
  ∀ hc, (∀ l, hc l = h l) → ∀ l, foldl (merge_secret mapping) hc olds l = h l.
Proof.
  induction olds as [|o olds IH]; intros Habs hc Hsame; cbn [foldl]; [done|].
  apply IH.
  - intros prev cur Hprev. apply Habs. by right.
  - apply merge_secret_noop; [done|]. intros cur. apply Habs. left.
Qed.

Lemma foldl_merge_file_noop h self old fs :
  Forall (λ f, f ∈ files old) fs →
  (∀ f prev cur, f ∈ fs → f ∈ files self → prev ∈ data old !!! f →
     dict_get (identity (h prev)) (secret_map h (data self !!! f)) = Some cur →
     absorbed (h cur) (h prev)) →
  ∀ hc, (∀ l, hc l = h l) →
  ∀ l, (foldl merge_file (hc, self, old) fs).1.1 l = h l.
Proof.
  induction fs as [|f fs IH]; intros Hfs Habs hc Hsame; cbn [foldl]; [done|].
  apply Forall_cons in Hfs as [Hf Hfs].
  rewrite merge_file_spec by done. apply IH; [done| |].
  - intros f' prev cur Hf'. apply Habs. by right.
  - case_decide as Hin; [|done].
    rewrite (secret_map_ext h hc) by (intros l; by rewrite Hsame).
    apply foldl_merge_secret_noop; [|done].
    intros prev cur Hprev. apply Habs; [left|done..].
Qed.

(** After a merge every current object has taken what its match had. *)
Lemma merge_absorbs h self old f prev cur :
  (∀ l, holds old l → ¬ holds self l) →
  f ∈ files self → f ∈ files old → prev ∈ data old !!! f →
  dict_get (identity (h prev)) (secret_map h (data self !!! f)) = Some cur →
  absorbed ((merge h self old).1.1 cur) ((merge h self old).1.1 prev).
Proof.
  intros Hshare Hfs Hfo Hprev Hget.
  assert (∀ fs hc hc', Forall (λ f, f ∈ files old) fs →
            (foldl merge_file (hc, self, old) fs).1.1 = hc' →
            hc' prev = hc prev) as Hfix.
  { intros fs hc hc' Hall <-.
    destruct (foldl_merge_file fs hc self old Hall) as (h' & -> & _ & Hfr).
    apply Hfr. intros f' s _ Hs Hin. apply (Hshare prev).
    - apply lookup_total_elem in Hprev as (s' & Hs' & Hin'). by exists f, s'.
    - by exists f', s. }
  assert (f ∈ elements (files old)) as Hf by (by apply elem_of_elements).
  apply list_elem_of_split in Hf as (pre & post & Hsplit).
  assert (Forall (λ f, f ∈ files old) (pre ++ f :: post)) as Hall.
  { rewrite <- Hsplit. apply Forall_forall. intros f'. by rewrite elem_of_elements. }
  pose proof Hall as Hall'.
  apply Forall_app in Hall' as [Hpre Hpost]. apply Forall_cons in Hpost as [_ Hpost].
  assert ((merge h self old).1.1 prev = h prev) as ->.
  { apply (Hfix (elements (files old)) h); [by rewrite Hsplit|done]. }
  unfold merge. rewrite Hsplit, foldl_app. cbn [foldl].
  destruct (foldl_merge_file pre h self old Hpre) as (ha & Hruna & Hauda & _).
  assert (ha prev = h prev) as Hpa.
  { apply (Hfix pre h); [done|]. by rewrite Hruna. }
  rewrite Hruna.
  rewrite merge_file_spec, decide_True by done.
  eapply absorbed_grows; [|by apply foldl_merge_file_grows].
  apply list_elem_of_split in Hprev as (opre & opost & Hosplit).
  rewrite Hosplit, foldl_app. cbn [foldl].
  set (mapping := secret_map ha (data self !!! f)).
  set (hc := foldl (merge_secret mapping) ha opre).
  eapply absorbed_grows; [|apply foldl_merge_secret_grows].
  assert (∀ l, identity (ha l) = identity (h l)) as Hida.
  { intros l. by apply same_but_audit_identity. }
  assert (hc prev = h prev) as Hpc.
  { unfold hc. rewrite foldl_merge_secret_other; [done|].
    intros k [Hin _]%secret_map_get. apply (Hshare prev).
    - exists f. exists (data old !!! f). split.
      + apply lookup_lookup_total_dom. apply Hfo.
      + rewrite Hosplit. apply elem_of_app. right. left.
    - apply lookup_total_elem in Hin as (s & Hs & Hin). by exists f, s. }
  assert (dict_get (identity (hc prev)) mapping = Some cur) as Hgc.
  { rewrite Hpc. unfold mapping. by rewrite (secret_map_ext h ha). }
  rewrite merge_secret_hit by done.
  rewrite Hpc. apply absorbed_merged.
Qed.
End merge_twice.

(** X23. Merging the same old results a second time changes nothing:
    after [merge], every current object already has what its match had, so
    the second call leaves every object of the store as the first left it
    and hands back the two collections.  No object of the old results is
    held by [self]. *)
Theorem merge_twice_changes_nothing (h : heap) (self old_results : SecretsCollection) :
  (∀ l, holds old_results l → ¬ holds self l) →
  let h1 := (merge h self old_results).1.1 in
  (merge h1 self old_results).1.2 = self ∧
  (merge h1 self old_results).2 = old_results ∧
  ∀ l, (merge h1 self old_results).1.1 l = h1 l.
Proof.
  intros Hshare h1.
  assert (Forall (λ f, f ∈ files old_results) (elements (files old_results))) as Hall.
  { apply Forall_forall. intros f. by rewrite elem_of_elements. }
  assert (∀ l, identity (h1 l) = identity (h l)) as Hid.
  { intros l. apply same_but_audit_identity. apply merge_heap_audit. }
  split_and!.
  - unfold merge. by destruct (foldl_merge_file _ h1 self old_results Hall) as (? & -> & _).
  - unfold merge. by destruct (foldl_merge_file _ h1 self old_results Hall) as (? & -> & _).
  - unfold merge at 1. apply foldl_merge_file_noop; [done| |done].
    intros f prev cur Hf%elem_of_elements Hfs Hprev Hget.
    rewrite Hid, (secret_map_ext h h1) in Hget by done.
    by apply (merge_absorbs h self old_results f).
Qed.

Lemma merge_twice_changes_nothing_witness :
  let self := mkSecretsCollection {[ "a.py" := [1%nat] ]} "" in
  let old_results := mkSecretsCollection {[ "a.py" := [2%nat] ]} "" in
  let h1 := (merge merge_ex_heap self old_results).1.1 in
  (merge h1 self old_results).1.2 = self ∧
  (merge h1 self old_results).2 = old_results ∧
  ∀ l, (merge h1 self old_results).1.1 l = h1 l.
Proof.
  intros self old_results.
  apply (merge_twice_changes_nothing merge_ex_heap self old_results).
  intros l (f & s & Hs & Hl) (f' & s' & Hs' & Hl').
  one_file_lookup Hs. one_file_lookup Hs'.
  apply list_elem_of_singleton in Hl, Hl'. congruence.
Defined.
